(** * A shallow embedding of the PE parser (package [pe])

    The development follows the Go sources: [raw.go] (the on-disk records
    and their conversions) and [pe.go] (the parser proper).  Unsigned
    machine integers are modelled as [Z] with their wrap-around written
    out, byte slices as [list byte], a [bytes.Reader] as its unread bytes,
    and the ways a Go call can end (a value, a returned [error], a
    [panic]) as the type [outcome].

    What the two files use but do not define is kept abstract in the
    classes [Decls] and [FileOps]; the address translator, whose body is
    not among the sources, is modelled separately from its specification
    ([resolve]).  The definitions come first, the properties after them. *)

From Stdlib Require Import ZArith List Lia Bool String Ascii DecimalString.
From Stdlib.Strings Require Import Byte.
From Stdlib Require DecimalPos DecimalN.
From Equations Require Import Equations.
Import ListNotations.

Open Scope Z_scope.

(* ===================================================================== *)
(** * Errors and outcomes *)
(* ===================================================================== *)

(** An argument of [fmt.Errorf] / [errors.Errorf]. *)
Inductive arg : Type :=
| IntArg (z : Z)
| BytesArg (bs : list byte).

(** Go [error] values met in the parser.  [errors.WithStack] only attaches
    a stack trace and [errors.Cause] removes it again, so a wrapped error is
    modelled by the error itself.  An error built by [Errorf] is kept as
    its format string and argument list; [Error_string] renders it.  The last
    two constructors are the failures of the address translator, which the
    parser only calls. *)
Inductive error : Type :=
| EOF
| ErrUnexpectedEOF
| Errorf (format : string) (args : list arg)
| RuntimeError (msg : string)
| AddressResolutionError (addr : Z)
| TruncationError (offset length available : Z).

(** How a call ends: with a value, with a returned error, or in a panic.
    [OutOfFuel] is not an ending: it says that the step budget given to
    the one loop of the parser that has no bound of its own (the walk over
    an import name table) ran out before the call ended. *)
Inductive outcome (A : Type) : Type :=
| Ok (a : A)
| Err (e : error)
| Panic (e : error)
| OutOfFuel.

Arguments Ok {A} a.
Arguments Err {A} e.
Arguments Panic {A} e.
Arguments OutOfFuel {A}.

Definition bind {A B} (m : outcome A) (k : A -> outcome B) : outcome B :=
  match m with
  | Ok a => k a
  | Err e => Err e
  | Panic e => Panic e
  | OutOfFuel => OutOfFuel
  end.

Declare Scope outcome_scope.
Delimit Scope outcome_scope with outcome.
Notation "x <- m ;; k" := (bind m (fun x => k))
  (at level 61, m at next level, right associativity) : outcome_scope.
Notation "' p <- m ;; k" := (bind m (fun p => k))
  (at level 61, p pattern, m at next level, right associativity) : outcome_scope.
Open Scope outcome_scope.

(* --------------------------------------------------------------------- *)
(** ** Rendering of the integer verbs of [fmt] *)

Definition hexDigit (d : Z) : ascii :=
  if d <? 10 then ascii_of_nat (48 + Z.to_nat d)
  else ascii_of_nat (55 + Z.to_nat d).

(** The upper-case hexadecimal digits of [z], most significant first. *)
Fixpoint hexDigits (fuel : nat) (z : Z) (acc : string) : string :=
  match fuel with
  | O => acc
  | S fuel' =>
      let acc' := String (hexDigit (z mod 16)) acc in
      if z / 16 =? 0 then acc' else hexDigits fuel' (z / 16) acc'
  end.

Fixpoint zeros (n : nat) : string :=
  match n with O => EmptyString | S n' => String "0" (zeros n') end.

(** [%04X] on a non-negative integer. *)
Definition fmt04X (z : Z) : string :=
  let ds := hexDigits (S (Z.to_nat (Z.log2 z))) z EmptyString in
  (zeros (4 - String.length ds) ++ ds)%string.

(** [%d] on a non-negative integer. *)
Definition fmtd (z : Z) : string :=
  NilZero.string_of_uint (N.to_uint (Z.to_N z)).

(** [Sprintf] restricted to the verbs [%d] and [%04X] with integer
    arguments; [None] on any other verb or on an argument mismatch. *)
Fixpoint Sprintf (format : string) (args : list arg) : option string :=
  match format with
  | EmptyString => match args with [] => Some EmptyString | _ => None end
  | String "%" (String "d" rest) =>
      match args with
      | IntArg z :: args' => option_map (append (fmtd z)) (Sprintf rest args')
      | _ => None
      end
  | String "%" (String "0" (String "4" (String "X" rest))) =>
      match args with
      | IntArg z :: args' => option_map (append (fmt04X z)) (Sprintf rest args')
      | _ => None
      end
  | String "%" _ => None
  | String c rest => option_map (String c) (Sprintf rest args)
  end.

(** The message of an error, where the model renders it. *)
Definition Error_string (e : error) : option string :=
  match e with
  | EOF => Some "EOF"%string
  | ErrUnexpectedEOF => Some "unexpected EOF"%string
  | Errorf format args => Sprintf format args
  | _ => None
  end.

(* ===================================================================== *)
(** * Bytes, little-endian integers and readers *)
(* ===================================================================== *)

Definition u8 (b : byte) : Z := Z.of_N (Byte.to_N b).

(** [binary.LittleEndian] decoding of a byte string. *)
Fixpoint le (bs : list byte) : Z :=
  match bs with
  | [] => 0
  | b :: bs' => u8 b + 256 * le bs'
  end.

(** Truncation of a Go conversion or arithmetic result to [w] bits. *)
Definition wrap (w : Z) (z : Z) : Z := z mod 2 ^ w.

(** A [bytes.Reader] that is only read sequentially is modelled by its
    unread suffix. *)
Definition Reader := list byte.

(** [io.ReadFull] of [n > 0] bytes from the bytes [avail] a reader can
    still deliver: [io.EOF] when nothing could be read,
    [io.ErrUnexpectedEOF] when the bytes run out midway.  The second
    component is the number of bytes consumed. *)
Definition ReadFull (n : nat) (avail : list byte) : outcome (list byte) * nat :=
  match avail with
  | [] => (Err EOF, O)
  | _ :: _ =>
      if (n <=? List.length avail)%nat then (Ok (firstn n avail), n)
      else (Err ErrUnexpectedEOF, List.length avail)
  end.

(** [binary.Read(r, binary.LittleEndian, &v)] on a [bytes.Reader], for a
    fixed-size [v] of [n] bytes decoded by [dec]. *)
Definition binaryRead {A} (n : nat) (dec : list byte -> A) (r : Reader)
  : outcome A * Reader :=
  let '(res, k) := ReadFull n r in
  (x <- res ;; Ok (dec x), skipn k r).

(** An [io.LimitedReader] over a [bytes.Reader]: the underlying reader [R]
    and the remaining budget [N], which may be negative. *)
Record LimitedReader : Type := mkLimitedReader { lr_R : Reader; lr_N : Z }.

(** What [LimitedReader.Read] can still deliver. *)
Definition limitedAvail (lr : LimitedReader) : list byte :=
  if lr_N lr <=? 0 then [] else firstn (Z.to_nat (lr_N lr)) (lr_R lr).

Definition binaryReadLimited {A} (n : nat) (dec : list byte -> A)
  (lr : LimitedReader) : outcome A * LimitedReader :=
  let '(res, k) := ReadFull n (limitedAvail lr) in
  (x <- res ;; Ok (dec x),
   {| lr_R := skipn k (lr_R lr); lr_N := lr_N lr - Z.of_nat k |}).

(** A Go slice expression [s[lo:hi]] on a slice whose capacity equals its
    length. *)
Definition slice (s : list byte) (lo hi : Z) : outcome (list byte) :=
  if (0 <=? lo) && (lo <=? hi) && (hi <=? Z.of_nat (List.length s))
  then Ok (firstn (Z.to_nat (hi - lo)) (skipn (Z.to_nat lo) s))
  else Panic (RuntimeError "slice bounds out of range").

(* --------------------------------------------------------------------- *)
(** ** Field-by-field decoding of a fixed-size record *)

(** A decoder consumes a prefix of the record's bytes, as the decoder of
    [encoding/binary] walks the fields of a struct. *)
Definition Dec (A : Type) : Type := list byte -> A * list byte.

Definition dret {A} (a : A) : Dec A := fun bs => (a, bs).

Definition dbind {A B} (m : Dec A) (k : A -> Dec B) : Dec B :=
  fun bs => let '(a, bs') := m bs in k a bs'.

Definition uint (n : nat) : Dec Z := fun bs => (le (firstn n bs), skipn n bs).
Definition uint8 : Dec Z := uint 1.
Definition uint16 : Dec Z := uint 2.
Definition uint32 : Dec Z := uint 4.
Definition uint64 : Dec Z := uint 8.
Definition bytesN (n : nat) : Dec (list byte) := fun bs => (firstn n bs, skipn n bs).

Definition runDec {A} (d : Dec A) (bs : list byte) : A := fst (d bs).

Declare Scope dec_scope.
Delimit Scope dec_scope with dec.
Notation "x <~ m ;; k" := (dbind m (fun x => k))
  (at level 61, m at next level, right associativity) : dec_scope.

(* ===================================================================== *)
(** * Declarations of the package that live outside the files modelled *)
(* ===================================================================== *)

(** Types, constants and pure helpers that [pe.go] and [raw.go] use but
    do not define.  Nothing is assumed about them beyond their
    signatures.  Enumerations ([MachineType], [Subsystem], [DebugType],
    [FrameType], ...) are modelled by their underlying unsigned integer. *)
Class Decls : Type := {
  (** [time.Time] *)
  Time : Type;
  parseDateFromEpoch : Z -> Time;
  (** Go [string] *)
  GoString : Type;
  parseCString : list byte -> GoString;
  (** [enum.DebugTypeCodeView], [enum.DebugTypeFPO], [enum.DebugTypeMisc] *)
  DebugTypeCodeView : Z;
  DebugTypeFPO : Z;
  DebugTypeMisc : Z;
  (** the decoded import directory, of which the parser reads two fields *)
  ImportDirectory : Type;
  INTRelAddr : ImportDirectory -> Z;
  IATRelAddr : ImportDirectory -> Z;
  (** decoded import name table entry and base relocation entry *)
  INTEntry : Type;
  BaseRelocEntry : Type;
  goBaseRelocEntry : Z -> BaseRelocEntry
}.

(* ===================================================================== *)
(** * raw.go: on-disk records *)
(* ===================================================================== *)

Module RawFileHeader.
Record t : Type := mk {
    Machine : Z;            (* 0x0000 (2 bytes) *)
    NSections : Z;          (* 0x0002 (2 bytes) *)
    Date : Z;               (* 0x0004 (4 bytes) *)
    SymbolTableOffset : Z;  (* 0x0008 (4 bytes) *)
    NSymbols : Z;           (* 0x000C (4 bytes) *)
    OptHdrSize : Z;         (* 0x0010 (2 bytes) *)
    Characteristics : Z     (* 0x0012 (2 bytes) *)
  }.
Definition size : nat := 20.
Definition decode : list byte -> t := runDec (
    a <~ uint16 ;; b <~ uint16 ;; c <~ uint32 ;; d <~ uint32 ;;
    e <~ uint32 ;; f <~ uint16 ;; g <~ uint16 ;;
    dret (mk a b c d e f g))%dec.
End RawFileHeader.

Module RawOptHeader32.
Record t : Type := mk {
    MajorLinkerVer : Z;         (* 0x0002 (1 byte) *)
    MinorLinkerVer : Z;         (* 0x0003 (1 byte) *)
    CodeSize : Z;               (* 0x0004 (4 bytes) *)
    InitializedDataSize : Z;    (* 0x0008 (4 bytes) *)
    UninitializedDataSize : Z;  (* 0x000C (4 bytes) *)
    EntryRelAddr : Z;           (* 0x0010 (4 bytes) *)
    CodeBase : Z;               (* 0x0014 (4 bytes) *)
    DataBase : Z;               (* 0x0018 (4 bytes) *)
    ImageBase : Z;              (* 0x001C (4 bytes) *)
    SectionAlign : Z;           (* 0x0020 (4 bytes) *)
    FileAlign : Z;              (* 0x0024 (4 bytes) *)
    MajorOSVer : Z;             (* 0x0028 (2 bytes) *)
    MinorOSVer : Z;             (* 0x002A (2 bytes) *)
    MajorImageVer : Z;          (* 0x002C (2 bytes) *)
    MinorImageVer : Z;          (* 0x002E (2 bytes) *)
    MajorSubsystemVer : Z;      (* 0x0030 (2 bytes) *)
    MinorSubsystemVer : Z;      (* 0x0032 (2 bytes) *)
    Win32Ver : Z;               (* 0x0034 (4 bytes) *)
    ImageSize : Z;              (* 0x0038 (4 bytes) *)
    HeadersSize : Z;            (* 0x003C (4 bytes) *)
    Checksum : Z;               (* 0x0040 (4 bytes) *)
    Subsystem : Z;              (* 0x0044 (2 bytes) *)
    DLLCharacteristics : Z;     (* 0x0046 (2 bytes) *)
    ReservedStackSize : Z;      (* 0x0048 (4 bytes) *)
    InitialStackSize : Z;       (* 0x004C (4 bytes) *)
    ReservedHeapSize : Z;       (* 0x0050 (4 bytes) *)
    InitialHeapSize : Z;        (* 0x0054 (4 bytes) *)
    LoaderFlags : Z;            (* 0x0058 (4 bytes) *)
    NDataDirs : Z               (* 0x005C (4 bytes) *)
  }.
  (** The magic number is read separately; the record starts after it. *)
Definition size : nat := 94.
Definition decode : list byte -> t := runDec (
    f1 <~ uint8 ;; f2 <~ uint8 ;; f3 <~ uint32 ;; f4 <~ uint32 ;;
    f5 <~ uint32 ;; f6 <~ uint32 ;; f7 <~ uint32 ;; f8 <~ uint32 ;;
    f9 <~ uint32 ;; f10 <~ uint32 ;; f11 <~ uint32 ;; f12 <~ uint16 ;;
    f13 <~ uint16 ;; f14 <~ uint16 ;; f15 <~ uint16 ;; f16 <~ uint16 ;;
    f17 <~ uint16 ;; f18 <~ uint32 ;; f19 <~ uint32 ;; f20 <~ uint32 ;;
    f21 <~ uint32 ;; f22 <~ uint16 ;; f23 <~ uint16 ;; f24 <~ uint32 ;;
    f25 <~ uint32 ;; f26 <~ uint32 ;; f27 <~ uint32 ;; f28 <~ uint32 ;;
    f29 <~ uint32 ;;
    dret (mk f1 f2 f3 f4 f5 f6 f7 f8 f9 f10 f11 f12 f13 f14 f15 f16 f17
             f18 f19 f20 f21 f22 f23 f24 f25 f26 f27 f28 f29))%dec.
End RawOptHeader32.

Module RawOptHeader64.
Record t : Type := mk {
    MajorLinkerVer : Z;         (* 0x0002 (1 byte) *)
    MinorLinkerVer : Z;         (* 0x0003 (1 byte) *)
    CodeSize : Z;               (* 0x0004 (4 bytes) *)
    InitializedDataSize : Z;    (* 0x0008 (4 bytes) *)
    UninitializedDataSize : Z;  (* 0x000C (4 bytes) *)
    EntryRelAddr : Z;           (* 0x0010 (4 bytes) *)
    CodeBase : Z;               (* 0x0014 (4 bytes) *)
    ImageBase : Z;              (* 0x0018 (8 bytes) *)
    SectionAlign : Z;           (* 0x0020 (4 bytes) *)
    FileAlign : Z;              (* 0x0024 (4 bytes) *)
    MajorOSVer : Z;             (* 0x0028 (2 bytes) *)
    MinorOSVer : Z;             (* 0x002A (2 bytes) *)
    MajorImageVer : Z;          (* 0x002C (2 bytes) *)
    MinorImageVer : Z;          (* 0x002E (2 bytes) *)
    MajorSubsystemVer : Z;      (* 0x0030 (2 bytes) *)
    MinorSubsystemVer : Z;      (* 0x0032 (2 bytes) *)
    Win32Ver : Z;               (* 0x0034 (4 bytes) *)
    ImageSize : Z;              (* 0x0038 (4 bytes) *)
    HeadersSize : Z;            (* 0x003C (4 bytes) *)
    Checksum : Z;               (* 0x0040 (4 bytes) *)
    Subsystem : Z;              (* 0x0044 (2 bytes) *)
    DLLCharacteristics : Z;     (* 0x0046 (2 bytes) *)
    ReservedStackSize : Z;      (* 0x0048 (8 bytes) *)
    InitialStackSize : Z;       (* 0x0050 (8 bytes) *)
    ReservedHeapSize : Z;       (* 0x0058 (8 bytes) *)
    InitialHeapSize : Z;        (* 0x0060 (8 bytes) *)
    LoaderFlags : Z;            (* 0x0068 (4 bytes) *)
    NDataDirs : Z               (* 0x006C (4 bytes) *)
  }.
Definition size : nat := 110.
Definition decode : list byte -> t := runDec (
    f1 <~ uint8 ;; f2 <~ uint8 ;; f3 <~ uint32 ;; f4 <~ uint32 ;;
    f5 <~ uint32 ;; f6 <~ uint32 ;; f7 <~ uint32 ;; f8 <~ uint64 ;;
    f9 <~ uint32 ;; f10 <~ uint32 ;; f11 <~ uint16 ;; f12 <~ uint16 ;;
    f13 <~ uint16 ;; f14 <~ uint16 ;; f15 <~ uint16 ;; f16 <~ uint16 ;;
    f17 <~ uint32 ;; f18 <~ uint32 ;; f19 <~ uint32 ;; f20 <~ uint32 ;;
    f21 <~ uint16 ;; f22 <~ uint16 ;; f23 <~ uint64 ;; f24 <~ uint64 ;;
    f25 <~ uint64 ;; f26 <~ uint64 ;; f27 <~ uint32 ;; f28 <~ uint32 ;;
    dret (mk f1 f2 f3 f4 f5 f6 f7 f8 f9 f10 f11 f12 f13 f14 f15 f16 f17
             f18 f19 f20 f21 f22 f23 f24 f25 f26 f27 f28))%dec.
End RawOptHeader64.

Module RawSectionHeader.
Record t : Type := mk {
    Name : list byte;     (* 0x0000 (8 bytes) *)
    VirtualSize : Z;      (* 0x0008 (4 bytes) *)
    RelAddr : Z;          (* 0x000C (4 bytes) *)
    DataSize : Z;         (* 0x0010 (4 bytes) *)
    DataOffset : Z;       (* 0x0014 (4 bytes) *)
    RelocsOffset : Z;     (* 0x0018 (4 bytes) *)
    LineNumsOffset : Z;   (* 0x001C (4 bytes) *)
    NRelocs : Z;          (* 0x0020 (2 bytes) *)
    NLineNums : Z;        (* 0x0022 (2 bytes) *)
    Flags : Z             (* 0x0024, the last 4 bytes of the 40-byte record *)
  }.
Definition size : nat := 40.
Definition decode : list byte -> t := runDec (
    a <~ bytesN 8 ;; b <~ uint32 ;; c <~ uint32 ;; d <~ uint32 ;;
    e <~ uint32 ;; f <~ uint32 ;; g <~ uint32 ;; h <~ uint16 ;;
    i <~ uint16 ;; j <~ uint32 ;;
    dret (mk a b c d e f g h i j))%dec.
End RawSectionHeader.

Module RawDebugDirectory.
Record t : Type := mk {
    Characteristics : Z;  (* 0x0000 (4 bytes) *)
    Date : Z;             (* 0x0004 (4 bytes) *)
    MajorVer : Z;         (* 0x0008 (2 bytes) *)
    MinorVer : Z;         (* 0x000A (2 bytes) *)
    Type_ : Z;            (* 0x000C (4 bytes) *)
    Size : Z;             (* 0x0010 (4 bytes) *)
    RelAddr : Z;          (* 0x0014 (4 bytes) *)
    Offset : Z            (* 0x0018 (4 bytes) *)
  }.
Definition size : nat := 28.
Definition decode : list byte -> t := runDec (
    a <~ uint32 ;; b <~ uint32 ;; c <~ uint16 ;; d <~ uint16 ;;
    e <~ uint32 ;; f <~ uint32 ;; g <~ uint32 ;; h <~ uint32 ;;
    dret (mk a b c d e f g h))%dec.
End RawDebugDirectory.

Module RawCodeViewInfo.
Record t : Type := mk {
    Signature : Z;  (* 0x0000 (4 bytes) *)
    Offset : Z;     (* 0x0004 (4 bytes) *)
    Date : Z;       (* 0x0008 (4 bytes) *)
    Age : Z         (* 0x000C (4 bytes) *)
  }.
Definition size : nat := 16.
Definition decode : list byte -> t := runDec (
    a <~ uint32 ;; b <~ uint32 ;; c <~ uint32 ;; d <~ uint32 ;;
    dret (mk a b c d))%dec.
End RawCodeViewInfo.

Module RawFPOData.
Record t : Type := mk {
    StartOffset : Z;  (* 0x0000 (4 bytes) *)
    FuncSize : Z;     (* 0x0004 (4 bytes) *)
    NLocals : Z;      (* 0x0008 (4 bytes) *)
    Params : Z;       (* 0x000C (2 bytes) *)
    Prolog : Z;       (* 0x000E (1 byte) *)
    Bitfield : Z      (* 0x000F (1 byte) *)
  }.
Definition size : nat := 16.
Definition decode : list byte -> t := runDec (
    a <~ uint32 ;; b <~ uint32 ;; c <~ uint32 ;; d <~ uint16 ;;
    e <~ uint8 ;; f <~ uint8 ;;
    dret (mk a b c d e f))%dec.
End RawFPOData.

(** The records below are read by [pe.go] but declared in files that are
    not part of the sources modelled; their layout is the one [pe.go]
    relies on. *)

(** A data directory: the fields [RelAddr] and [Size] that [pe.go] reads,
    four bytes each (8 bytes per directory). *)
Module DataDirectory.
Record t : Type := mk { RelAddr : Z; Size : Z }.
Definition size : nat := 8.
Definition decode : list byte -> t := runDec (
  a <~ uint32 ;; b <~ uint32 ;; dret (mk a b))%dec.
Definition zero : t := mk 0 0.
(** Go [==] on the struct. *)
Definition eqb (x y : t) : bool :=
  (RelAddr x =? RelAddr y) && (Size x =? Size y).
End DataDirectory.

(** An import descriptor: five 32-bit fields (20 bytes), the import
    directory table entry of the PE format.  The parser itself only
    compares the record with the zero record and hands it on. *)
Module RawImportDirectory.
Record t : Type := mk {
  INTRelAddr : Z;      (* 0x0000 (4 bytes) *)
  Date : Z;            (* 0x0004 (4 bytes) *)
  ForwarderChain : Z;  (* 0x0008 (4 bytes) *)
  NameRelAddr : Z;     (* 0x000C (4 bytes) *)
  IATRelAddr : Z       (* 0x0010 (4 bytes) *)
}.
Definition size : nat := 20.
Definition decode : list byte -> t := runDec (
  a <~ uint32 ;; b <~ uint32 ;; c <~ uint32 ;; d <~ uint32 ;; e <~ uint32 ;;
  dret (mk a b c d e))%dec.
Definition zero : t := mk 0 0 0 0 0.
Definition eqb (x y : t) : bool :=
  (INTRelAddr x =? INTRelAddr y) && (Date x =? Date y) &&
  (ForwarderChain x =? ForwarderChain y) &&
  (NameRelAddr x =? NameRelAddr y) && (IATRelAddr x =? IATRelAddr y).
End RawImportDirectory.

(** The header of a base relocation block: [PageRelAddr] and [BlockSize],
    8 bytes in all (`exclude size of RawBaseRelocBlock` in [pe.go]). *)
Module RawBaseRelocBlock.
Record t : Type := mk { PageRelAddr : Z; BlockSize : Z }.
Definition size : nat := 8.
Definition decode : list byte -> t := runDec (
  a <~ uint32 ;; b <~ uint32 ;; dret (mk a b))%dec.
End RawBaseRelocBlock.

(** A base relocation entry is a 16-bit integer; an import name table
    entry is a 32-bit respectively 64-bit integer ([rawSize] in [pe.go]). *)
Module RawBaseRelocEntry.
Definition size : nat := 2.
Definition decode : list byte -> Z := le.
End RawBaseRelocEntry.

Module RawINTEntry32.
Definition size : nat := 4.
Definition decode : list byte -> Z := le.
End RawINTEntry32.

Module RawINTEntry64.
Definition size : nat := 8.
Definition decode : list byte -> Z := le.
End RawINTEntry64.

(* ===================================================================== *)
(** * The decoded records *)
(* ===================================================================== *)

Module FileHeader.
Section Def.
Context {D : Decls}.
Record t : Type := mk {
  Machine : Z;
  NSections : Z;
  Date : Time;
  SymbolTableOffset : Z;
  NSymbols : Z;
  OptHdrSize : Z;
  Characteristics : Z
}.
End Def.
End FileHeader.

Module OptHeader.
Record t : Type := mk {
  Magic : Z;
  MajorLinkerVer : Z;
  MinorLinkerVer : Z;
  CodeSize : Z;
  InitializedDataSize : Z;
  UninitializedDataSize : Z;
  EntryRelAddr : Z;
  CodeBase : Z;
  DataBase : Z;
  ImageBase : Z;
  SectionAlign : Z;
  FileAlign : Z;
  MajorOSVer : Z;
  MinorOSVer : Z;
  MajorImageVer : Z;
  MinorImageVer : Z;
  MajorSubsystemVer : Z;
  MinorSubsystemVer : Z;
  Win32Ver : Z;
  ImageSize : Z;
  HeadersSize : Z;
  Checksum : Z;
  Subsystem : Z;
  DLLCharacteristics : Z;
  ReservedStackSize : Z;
  InitialStackSize : Z;
  ReservedHeapSize : Z;
  InitialHeapSize : Z;
  LoaderFlags : Z;
  NDataDirs : Z
}.
End OptHeader.

Module SectionHeader.
Section Def.
Context {D : Decls}.
Record t : Type := mk {
  Name : GoString;
  VirtualSize : Z;
  RelAddr : Z;
  DataSize : Z;
  DataOffset : Z;
  RelocsOffset : Z;
  LineNumsOffset : Z;
  NRelocs : Z;
  NLineNums : Z;
  Flags : Z
}.
End Def.
End SectionHeader.

Module DebugDirectory.
Section Def.
Context {D : Decls}.
Record t : Type := mk {
  Characteristics : Z;
  Date : Time;
  MajorVer : Z;
  MinorVer : Z;
  Type_ : Z;
  Size : Z;
  RelAddr : Z;
  Offset : Z
}.
End Def.
End DebugDirectory.

Module CodeViewInfo.
Section Def.
Context {D : Decls}.
Record t : Type := mk {
  Signature : Z;
  Offset : Z;
  Date : Time;
  Age : Z;
  PDBPath : GoString
}.
End Def.
End CodeViewInfo.

Module FPOData.
Record t : Type := mk {
  StartOffset : Z;
  FuncSize : Z;
  NLocals : Z;    (* uint64 *)
  Params : Z;     (* uint32 *)
  Prolog : Z;
  Regs : Z;       (* uint8 *)
  HasSEH : bool;
  UseBP : bool;
  Reserved : Z;   (* uint8 *)
  Frame : Z       (* FrameType *)
}.
End FPOData.

Module ImportEntry.
Section Def.
Context {D : Decls}.
Record t : Type := mk {
  ImpDir : ImportDirectory;
  INTs : list INTEntry;
  IATs : list INTEntry
}.
End Def.
End ImportEntry.

Module BaseRelocBlock.
Section Def.
Context {D : Decls}.
Record t : Type := mk {
  PageRelAddr : Z;
  BlockSize : Z;
  Entries : list BaseRelocEntry
}.
(** The zero value [BaseRelocBlock{}]. *)
Definition empty : t := mk 0 0 [].
End Def.
End BaseRelocBlock.

(** [DebugData]: the three implementations of the interface that the
    parser builds. *)
Inductive DebugData {D : Decls} : Type :=
| DebugCodeView (DbgDir : DebugDirectory.t) (CodeViewInfo : CodeViewInfo.t)
| DebugFPO (DbgDir : DebugDirectory.t) (FPOData : list FPOData.t)
| DebugMisc (DbgDir : DebugDirectory.t) (Content : list byte).

(** [File]: the fields that [pe.go] reads and writes.  [FileHdr] and
    [OptHdr] are pointers, [nil] until their stage has run. *)
Module File.
Section Def.
Context {D : Decls}.
Record t : Type := mk {
  FileHdr : option FileHeader.t;
  OptHdr : option OptHeader.t;
  DataDirs : list DataDirectory.t;
  SectHdrs : list SectionHeader.t;
  Imps : list ImportEntry.t;
  BaseRelocBlocks : list BaseRelocBlock.t;
  DbgData : list DebugData;
  Content : list byte
}.
(** [&File{Content: content}] *)
Definition new (content : list byte) : t :=
  mk None None [] [] [] [] [] content.
Definition setFileHdr (f : t) (x : FileHeader.t) : t :=
  mk (Some x) (OptHdr f) (DataDirs f) (SectHdrs f) (Imps f)
     (BaseRelocBlocks f) (DbgData f) (Content f).
Definition setOptHdr (f : t) (x : OptHeader.t) : t :=
  mk (FileHdr f) (Some x) (DataDirs f) (SectHdrs f) (Imps f)
     (BaseRelocBlocks f) (DbgData f) (Content f).
Definition setDataDirs (f : t) (x : list DataDirectory.t) : t :=
  mk (FileHdr f) (OptHdr f) x (SectHdrs f) (Imps f)
     (BaseRelocBlocks f) (DbgData f) (Content f).
Definition setSectHdrs (f : t) (x : list SectionHeader.t) : t :=
  mk (FileHdr f) (OptHdr f) (DataDirs f) x (Imps f)
     (BaseRelocBlocks f) (DbgData f) (Content f).
Definition setImps (f : t) (x : list ImportEntry.t) : t :=
  mk (FileHdr f) (OptHdr f) (DataDirs f) (SectHdrs f) x
     (BaseRelocBlocks f) (DbgData f) (Content f).
Definition setBaseRelocBlocks (f : t) (x : list BaseRelocBlock.t) : t :=
  mk (FileHdr f) (OptHdr f) (DataDirs f) (SectHdrs f) (Imps f)
     x (DbgData f) (Content f).
Definition setDbgData (f : t) (x : list DebugData) : t :=
  mk (FileHdr f) (OptHdr f) (DataDirs f) (SectHdrs f) (Imps f)
     (BaseRelocBlocks f) x (Content f).
End Def.
End File.

(** Methods of [File] that [pe.go] calls but does not define. *)
Class FileOps {D : Decls} : Type := {
  (** [file.ReadData(addr, size)]: the address translator.  It returns a
      byte slice only, so it can fail only by panicking. *)
  ReadData : File.t -> Z -> Z -> outcome (list byte);
  goImportDirectory : File.t -> RawImportDirectory.t -> ImportDirectory;
  goINTEntry32 : File.t -> Z -> INTEntry;
  goINTEntry64 : File.t -> Z -> INTEntry
}.

(* ===================================================================== *)
(** * raw.go: conversions *)
(* ===================================================================== *)

Section Conversions.
Context {D : Decls}.

Definition goFileHeader (raw : RawFileHeader.t) : FileHeader.t :=
  {| FileHeader.Machine := RawFileHeader.Machine raw;
     FileHeader.NSections := RawFileHeader.NSections raw;
     FileHeader.Date := parseDateFromEpoch (RawFileHeader.Date raw);
     FileHeader.SymbolTableOffset := RawFileHeader.SymbolTableOffset raw;
     FileHeader.NSymbols := RawFileHeader.NSymbols raw;
     FileHeader.OptHdrSize := RawFileHeader.OptHdrSize raw;
     FileHeader.Characteristics := RawFileHeader.Characteristics raw |}.

Definition goOptHeader32 (raw : RawOptHeader32.t) (magic : Z) : OptHeader.t :=
  {| OptHeader.Magic := magic;
     OptHeader.MajorLinkerVer := RawOptHeader32.MajorLinkerVer raw;
     OptHeader.MinorLinkerVer := RawOptHeader32.MinorLinkerVer raw;
     OptHeader.CodeSize := RawOptHeader32.CodeSize raw;
     OptHeader.InitializedDataSize := RawOptHeader32.InitializedDataSize raw;
     OptHeader.UninitializedDataSize := RawOptHeader32.UninitializedDataSize raw;
     OptHeader.EntryRelAddr := RawOptHeader32.EntryRelAddr raw;
     OptHeader.CodeBase := RawOptHeader32.CodeBase raw;
     OptHeader.DataBase := RawOptHeader32.DataBase raw;
     OptHeader.ImageBase := RawOptHeader32.ImageBase raw;
     OptHeader.SectionAlign := RawOptHeader32.SectionAlign raw;
     OptHeader.FileAlign := RawOptHeader32.FileAlign raw;
     OptHeader.MajorOSVer := RawOptHeader32.MajorOSVer raw;
     OptHeader.MinorOSVer := RawOptHeader32.MinorOSVer raw;
     OptHeader.MajorImageVer := RawOptHeader32.MajorImageVer raw;
     OptHeader.MinorImageVer := RawOptHeader32.MinorImageVer raw;
     OptHeader.MajorSubsystemVer := RawOptHeader32.MajorSubsystemVer raw;
     OptHeader.MinorSubsystemVer := RawOptHeader32.MinorSubsystemVer raw;
     OptHeader.Win32Ver := RawOptHeader32.Win32Ver raw;
     OptHeader.ImageSize := RawOptHeader32.ImageSize raw;
     OptHeader.HeadersSize := RawOptHeader32.HeadersSize raw;
     OptHeader.Checksum := RawOptHeader32.Checksum raw;
     OptHeader.Subsystem := RawOptHeader32.Subsystem raw;
     OptHeader.DLLCharacteristics := RawOptHeader32.DLLCharacteristics raw;
     OptHeader.ReservedStackSize := RawOptHeader32.ReservedStackSize raw;
     OptHeader.InitialStackSize := RawOptHeader32.InitialStackSize raw;
     OptHeader.ReservedHeapSize := RawOptHeader32.ReservedHeapSize raw;
     OptHeader.InitialHeapSize := RawOptHeader32.InitialHeapSize raw;
     OptHeader.LoaderFlags := RawOptHeader32.LoaderFlags raw;
     OptHeader.NDataDirs := RawOptHeader32.NDataDirs raw |}.

(** The 64-bit layout has no [DataBase]; the field keeps its zero value. *)
Definition goOptHeader64 (raw : RawOptHeader64.t) (magic : Z) : OptHeader.t :=
  {| OptHeader.Magic := magic;
     OptHeader.MajorLinkerVer := RawOptHeader64.MajorLinkerVer raw;
     OptHeader.MinorLinkerVer := RawOptHeader64.MinorLinkerVer raw;
     OptHeader.CodeSize := RawOptHeader64.CodeSize raw;
     OptHeader.InitializedDataSize := RawOptHeader64.InitializedDataSize raw;
     OptHeader.UninitializedDataSize := RawOptHeader64.UninitializedDataSize raw;
     OptHeader.EntryRelAddr := RawOptHeader64.EntryRelAddr raw;
     OptHeader.CodeBase := RawOptHeader64.CodeBase raw;
     OptHeader.DataBase := 0;
     OptHeader.ImageBase := RawOptHeader64.ImageBase raw;
     OptHeader.SectionAlign := RawOptHeader64.SectionAlign raw;
     OptHeader.FileAlign := RawOptHeader64.FileAlign raw;
     OptHeader.MajorOSVer := RawOptHeader64.MajorOSVer raw;
     OptHeader.MinorOSVer := RawOptHeader64.MinorOSVer raw;
     OptHeader.MajorImageVer := RawOptHeader64.MajorImageVer raw;
     OptHeader.MinorImageVer := RawOptHeader64.MinorImageVer raw;
     OptHeader.MajorSubsystemVer := RawOptHeader64.MajorSubsystemVer raw;
     OptHeader.MinorSubsystemVer := RawOptHeader64.MinorSubsystemVer raw;
     OptHeader.Win32Ver := RawOptHeader64.Win32Ver raw;
     OptHeader.ImageSize := RawOptHeader64.ImageSize raw;
     OptHeader.HeadersSize := RawOptHeader64.HeadersSize raw;
     OptHeader.Checksum := RawOptHeader64.Checksum raw;
     OptHeader.Subsystem := RawOptHeader64.Subsystem raw;
     OptHeader.DLLCharacteristics := RawOptHeader64.DLLCharacteristics raw;
     OptHeader.ReservedStackSize := RawOptHeader64.ReservedStackSize raw;
     OptHeader.InitialStackSize := RawOptHeader64.InitialStackSize raw;
     OptHeader.ReservedHeapSize := RawOptHeader64.ReservedHeapSize raw;
     OptHeader.InitialHeapSize := RawOptHeader64.InitialHeapSize raw;
     OptHeader.LoaderFlags := RawOptHeader64.LoaderFlags raw;
     OptHeader.NDataDirs := RawOptHeader64.NDataDirs raw |}.

Definition goSectionHeader (raw : RawSectionHeader.t) : SectionHeader.t :=
  {| SectionHeader.Name := parseCString (RawSectionHeader.Name raw);
     SectionHeader.VirtualSize := RawSectionHeader.VirtualSize raw;
     SectionHeader.RelAddr := RawSectionHeader.RelAddr raw;
     SectionHeader.DataSize := RawSectionHeader.DataSize raw;
     SectionHeader.DataOffset := RawSectionHeader.DataOffset raw;
     SectionHeader.RelocsOffset := RawSectionHeader.RelocsOffset raw;
     SectionHeader.LineNumsOffset := RawSectionHeader.LineNumsOffset raw;
     SectionHeader.NRelocs := RawSectionHeader.NRelocs raw;
     SectionHeader.NLineNums := RawSectionHeader.NLineNums raw;
     SectionHeader.Flags := RawSectionHeader.Flags raw |}.

Definition goDebugDirectory (raw : RawDebugDirectory.t) : DebugDirectory.t :=
  {| DebugDirectory.Characteristics := RawDebugDirectory.Characteristics raw;
     DebugDirectory.Date := parseDateFromEpoch (RawDebugDirectory.Date raw);
     DebugDirectory.MajorVer := RawDebugDirectory.MajorVer raw;
     DebugDirectory.MinorVer := RawDebugDirectory.MinorVer raw;
     DebugDirectory.Type_ := RawDebugDirectory.Type_ raw;
     DebugDirectory.Size := RawDebugDirectory.Size raw;
     DebugDirectory.RelAddr := RawDebugDirectory.RelAddr raw;
     DebugDirectory.Offset := RawDebugDirectory.Offset raw |}.

Definition goCodeViewInfo (raw : RawCodeViewInfo.t) (pdbPath : GoString)
  : CodeViewInfo.t :=
  {| CodeViewInfo.Signature := RawCodeViewInfo.Signature raw;
     CodeViewInfo.Offset := RawCodeViewInfo.Offset raw;
     CodeViewInfo.Date := parseDateFromEpoch (RawCodeViewInfo.Date raw);
     CodeViewInfo.Age := RawCodeViewInfo.Age raw;
     CodeViewInfo.PDBPath := pdbPath |}.

End Conversions.

(** [RawFPOData.FPOData].  In Go [&] and [>>] have the same precedence and
    associate to the left, so [b & 0x20 >> 5] is [(b & 0x20) >> 5]. *)
Definition goFPOData (raw : RawFPOData.t) : FPOData.t :=
  let b := RawFPOData.Bitfield raw in
  let regs := Z.land b 0x07 in
  let hasSEH := negb (Z.land b 0x08 =? 0) in
  let useBP := negb (Z.land b 0x10 =? 0) in
  let reserved := Z.shiftr (Z.land b 0x20) 5 in
  let frame := Z.shiftr (Z.land b 0xC0) 6 in
  {| FPOData.StartOffset := RawFPOData.StartOffset raw;
     FPOData.FuncSize := RawFPOData.FuncSize raw;
     FPOData.NLocals := wrap 64 (RawFPOData.NLocals raw * 4);
     FPOData.Params := wrap 32 (RawFPOData.Params raw * 4);
     FPOData.Prolog := RawFPOData.Prolog raw;
     FPOData.Regs := regs;
     FPOData.HasSEH := hasSEH;
     FPOData.UseBP := useBP;
     FPOData.Reserved := reserved;
     FPOData.Frame := frame |}.

(* ===================================================================== *)
(** * pe.go: the parser *)
(* ===================================================================== *)

Definition inspect {A} (a : A) : {b : A | a = b} := exist _ a eq_refl.

(** [errors.Cause(err) == io.EOF] *)
Definition isEOF (e : error) : bool :=
  match e with EOF => true | _ => false end.

(** [bytes.Equal] *)
Fixpoint bytesEqual (a b : list byte) : bool :=
  match a, b with
  | [], [] => true
  | x :: a', y :: b' => Byte.eqb x y && bytesEqual a' b'
  | _, _ => false
  end.

(** A successful [binary.Read] together with the reader it leaves. *)
Definition readValue {A} (n : nat) (dec : list byte -> A) (r : Reader)
  : outcome (A * Reader) :=
  let '(res, r') := binaryRead n dec r in
  x <- res ;; Ok (x, r').

(** [n] successive [binary.Read]s of one record each. *)
Fixpoint readN {A} (count n : nat) (dec : list byte -> A) (r : Reader)
  : outcome (list A * Reader) :=
  match count with
  | O => Ok ([], r)
  | S count' =>
      '(x, r1) <- readValue n dec r ;;
      '(xs, r2) <- readN count' n dec r1 ;;
      Ok (x :: xs, r2)
  end.

Lemma binaryRead_shorter {A} n (dec : list byte -> A) r a r' :
  (0 < n)%nat -> binaryRead n dec r = (Ok a, r') ->
  (List.length r' < List.length r)%nat.
Proof.
  unfold binaryRead, ReadFull. intros Hn.
  destruct r as [|b r0]; [discriminate|].
  destruct (n <=? List.length (b :: r0))%nat eqn:E; [|discriminate].
  intros H. inversion H; subst. apply Nat.leb_le in E.
  rewrite length_skipn. cbn [List.length] in *. lia.
Qed.

Lemma binaryReadLimited_shorter {A} n (dec : list byte -> A) lr a lr' :
  (0 < n)%nat -> binaryReadLimited n dec lr = (Ok a, lr') ->
  (List.length (lr_R lr') < List.length (lr_R lr))%nat.
Proof.
  unfold binaryReadLimited, ReadFull, limitedAvail. intros Hn.
  destruct (lr_N lr <=? 0); [discriminate|].
  destruct (firstn (Z.to_nat (lr_N lr)) (lr_R lr)) as [|b l] eqn:El; [discriminate|].
  destruct (n <=? List.length (b :: l))%nat eqn:E; [|discriminate].
  intros H. inversion H; subst. cbn [lr_R]. apply Nat.leb_le in E.
  assert (Hl : (List.length (b :: l) <= List.length (lr_R lr))%nat).
  { rewrite <- El, length_firstn. lia. }
  rewrite length_skipn. lia.
Qed.

Definition nilDereference : error :=
  RuntimeError "invalid memory address or nil pointer dereference".

Definition signature : list byte := [x50; x45; x00; x00].  (* PE\x00\x00 *)

Definition magic32 : Z := 0x010B.
Definition magic64 : Z := 0x020B.

Definition invalidMagic (magic : Z) : error :=
  Errorf "invalid optional header magic number; expected 0x%04X or 0x%04X, got 0x%04X"
         [IntArg magic32; IntArg magic64; IntArg magic].

Definition notImplemented (idx : nat) : error :=
  Errorf "support for data directory index %d not yet implemented"
         [IntArg (Z.of_nat idx)].

Section Parser.
Context {D : Decls} {Ops : FileOps}.

(** [file.OptHdr], dereferenced. *)
Definition derefOptHdr (file : File.t) : outcome OptHeader.t :=
  match File.OptHdr file with
  | Some h => Ok h
  | None => Panic nilDereference
  end.

Definition derefFileHdr (file : File.t) : outcome FileHeader.t :=
  match File.FileHdr file with
  | Some h => Ok h
  | None => Panic nilDereference
  end.

(** [parseFileHeader], called on a fresh [bytes.NewReader(content)].  The
    section reader delivers the bytes [0x3C..0x40) of the content, and
    [Seek] to the absolute [offset] leaves the content from there unread. *)
Definition parseFileHeader (content : list byte)
  : outcome (FileHeader.t * Reader) :=
  let sr := firstn 4 (skipn 0x3C content) in
  offset <- fst (binaryRead 4 le sr) ;;
  let r := skipn (Z.to_nat offset) content in
  '(sig, r) <- readValue 4 (fun bs => bs) r ;;
  if negb (bytesEqual signature sig) then
    Err (Errorf "invalid PE signature; expected %q, got %q"
                [BytesArg signature; BytesArg sig])
  else
    '(raw, r) <- readValue RawFileHeader.size RawFileHeader.decode r ;;
    Ok (goFileHeader raw, r).

Definition parseOptHeader (r : Reader) : outcome (OptHeader.t * Reader) :=
  '(magic, r) <- readValue 2 le r ;;
  if magic =? magic32 then
    '(raw, r) <- readValue RawOptHeader32.size RawOptHeader32.decode r ;;
    Ok (goOptHeader32 raw magic, r)
  else if magic =? magic64 then
    '(raw, r) <- readValue RawOptHeader64.size RawOptHeader64.decode r ;;
    Ok (goOptHeader64 raw magic, r)
  else Err (invalidMagic magic).

Definition parseDataDirs (file : File.t) (r : Reader)
  : outcome (list DataDirectory.t * Reader) :=
  oh <- derefOptHdr file ;;
  readN (Z.to_nat (OptHeader.NDataDirs oh)) DataDirectory.size
        DataDirectory.decode r.

Definition parseSectionHdrs (file : File.t) (r : Reader)
  : outcome (list SectionHeader.t * Reader) :=
  fh <- derefFileHdr file ;;
  '(raws, r) <- readN (Z.to_nat (FileHeader.NSections fh)) RawSectionHeader.size
                      RawSectionHeader.decode r ;;
  Ok (map goSectionHeader raws, r).

(* --------------------------------------------------------------------- *)
(** ** 1 - Import table *)

(** The loop of [parseImportDirs] over the reader [r] with the directories
    collected so far. *)
Equations? parseImportDirs_loop (file : File.t) (r : Reader)
  (impDirs : list ImportDirectory) : outcome (list ImportDirectory)
  by wf (List.length r) lt :=
  parseImportDirs_loop file r impDirs
    with inspect (binaryRead RawImportDirectory.size RawImportDirectory.decode r) => {
    | exist _ (Ok raw, r') eq :=
        if RawImportDirectory.eqb raw RawImportDirectory.zero then
          (* Last entry of table is zero. *)
          Ok impDirs
        else
          parseImportDirs_loop file r' (impDirs ++ [goImportDirectory file raw]);
    | exist _ (Err e, _) eq := if isEOF e then Ok impDirs else Err e;
    | exist _ (Panic e, _) eq := Panic e;
    | exist _ (OutOfFuel, _) eq := OutOfFuel }.
Proof.
  eapply binaryRead_shorter; [|exact eq]. unfold RawImportDirectory.size; lia.
Qed.

Definition parseImportDirs (file : File.t) (dataDir : DataDirectory.t)
  : outcome (list ImportDirectory) :=
  oh <- derefOptHdr file ;;
  let addr := wrap 64 (OptHeader.ImageBase oh + DataDirectory.RelAddr dataDir) in
  buf <- ReadData file addr (DataDirectory.Size dataDir) ;;
  parseImportDirs_loop file buf [].

(** The loop of [parseINTs].  Every round asks the address translator for
    the next entry, so the number of rounds is not bounded by a buffer;
    [fuel] bounds it in the model. *)
Fixpoint parseINTs_loop (fuel : nat) (file : File.t) (oh : OptHeader.t)
  (addr : Z) (ints : list INTEntry) : outcome (list INTEntry) :=
  match fuel with
  | O => OutOfFuel
  | S fuel' =>
      if OptHeader.Magic oh =? magic32 then
        (* PE32 (32-bit). *)
        buf <- ReadData file addr 4 ;;
        raw <- fst (binaryRead RawINTEntry32.size RawINTEntry32.decode buf) ;;
        if raw =? 0 then Ok ints
        else parseINTs_loop fuel' file oh (wrap 64 (addr + 4))
                            (ints ++ [goINTEntry32 file raw])
      else if OptHeader.Magic oh =? magic64 then
        (* PE32+ (64-bit). *)
        buf <- ReadData file addr 8 ;;
        raw <- fst (binaryRead RawINTEntry64.size RawINTEntry64.decode buf) ;;
        if raw =? 0 then Ok ints
        else parseINTs_loop fuel' file oh (wrap 64 (addr + 8))
                            (ints ++ [goINTEntry64 file raw])
      else Err (invalidMagic (OptHeader.Magic oh))
  end.

Definition parseINTs (fuel : nat) (file : File.t) (intRelAddr : Z)
  : outcome (list INTEntry) :=
  oh <- derefOptHdr file ;;
  let addr := wrap 64 (OptHeader.ImageBase oh + intRelAddr) in
  parseINTs_loop fuel file oh addr [].

Definition parseImportEntry (fuel : nat) (file : File.t)
  (impDir : ImportDirectory) : outcome ImportEntry.t :=
  ints <- (if negb (INTRelAddr impDir =? 0)
           then parseINTs fuel file (INTRelAddr impDir)
           else Ok []) ;;
  iats <- parseINTs fuel file (IATRelAddr impDir) ;;
  Ok {| ImportEntry.ImpDir := impDir;
        ImportEntry.INTs := ints;
        ImportEntry.IATs := iats |}.

Fixpoint parseImports_loop (fuel : nat) (file : File.t)
  (impDirs : list ImportDirectory) (imps : list ImportEntry.t)
  : outcome (list ImportEntry.t) :=
  match impDirs with
  | [] => Ok imps
  | impDir :: rest =>
      imp <- parseImportEntry fuel file impDir ;;
      parseImports_loop fuel file rest (imps ++ [imp])
  end.

Definition parseImports (fuel : nat) (file : File.t) (dataDir : DataDirectory.t)
  : outcome (list ImportEntry.t) :=
  impDirs <- parseImportDirs file dataDir ;;
  parseImports_loop fuel file impDirs [].

(* --------------------------------------------------------------------- *)
(** ** 5 - Base relocation table *)

(** The inner loop of [parseBaseRelocBlock] over the limited reader. *)
Equations? parseBaseRelocBlock_loop (lr : LimitedReader)
  (entries : list BaseRelocEntry)
  : outcome (list BaseRelocEntry) * LimitedReader
  by wf (List.length (lr_R lr)) lt :=
  parseBaseRelocBlock_loop lr entries
    with inspect (binaryReadLimited RawBaseRelocEntry.size RawBaseRelocEntry.decode lr) => {
    | exist _ (Ok rawEntry, lr') eq :=
        parseBaseRelocBlock_loop lr' (entries ++ [goBaseRelocEntry rawEntry]);
    | exist _ (Err e, lr') eq :=
        if isEOF e then (Ok entries, lr') else (Err e, lr');
    | exist _ (Panic e, lr') eq := (Panic e, lr');
    | exist _ (OutOfFuel, lr') eq := (OutOfFuel, lr') }.
Proof.
  eapply binaryReadLimited_shorter; [|exact eq].
  unfold RawBaseRelocEntry.size; lia.
Qed.

(** [parseBaseRelocBlock]: the result and the reader as the call leaves
    it. *)
Definition parseBaseRelocBlock (r : Reader)
  : outcome BaseRelocBlock.t * Reader :=
  match binaryRead RawBaseRelocBlock.size RawBaseRelocBlock.decode r with
  | (Ok raw, r1) =>
      let lr := {| lr_R := r1;
                   (* exclude size of RawBaseRelocBlock. *)
                   lr_N := RawBaseRelocBlock.BlockSize raw - 8 |} in
      let '(res, lr') := parseBaseRelocBlock_loop lr [] in
      (entries <- res ;;
       Ok {| BaseRelocBlock.PageRelAddr := RawBaseRelocBlock.PageRelAddr raw;
             BaseRelocBlock.BlockSize := RawBaseRelocBlock.BlockSize raw;
             BaseRelocBlock.Entries := entries |},
       lr_R lr')
  | (Err e, r1) => (Err e, r1)
  | (Panic e, r1) => (Panic e, r1)
  | (OutOfFuel, r1) => (OutOfFuel, r1)
  end.

Lemma binaryReadLimited_le {A} n (dec : list byte -> A) lr :
  (List.length (lr_R (snd (binaryReadLimited n dec lr)))
   <= List.length (lr_R lr))%nat.
Proof.
  unfold binaryReadLimited.
  destruct (ReadFull n (limitedAvail lr)) as [res k].
  cbn [snd lr_R]. rewrite length_skipn. lia.
Qed.

Lemma parseBaseRelocBlock_loop_le lr entries :
  (List.length (lr_R (snd (parseBaseRelocBlock_loop lr entries)))
   <= List.length (lr_R lr))%nat.
Proof.
  funelim (parseBaseRelocBlock_loop lr entries).
  all: match goal with
    | E : binaryReadLimited _ _ ?l = _ |- _ =>
        pose proof (binaryReadLimited_le RawBaseRelocEntry.size
                      RawBaseRelocEntry.decode l) as Hle;
        rewrite E in Hle; cbn [snd] in Hle
    end.
  - match goal with
    | E : binaryReadLimited _ _ _ = (Ok _, _) |- _ =>
        pose proof E as Hs;
        apply binaryReadLimited_shorter in Hs;
        [|unfold RawBaseRelocEntry.size; lia]
    end.
    lia.
  - destruct (isEOF e); cbn [snd]; exact Hle.
  - exact Hle.
  - exact Hle.
Qed.

Lemma parseBaseRelocBlock_shorter r block r' :
  parseBaseRelocBlock r = (Ok block, r') ->
  (List.length r' < List.length r)%nat.
Proof.
  unfold parseBaseRelocBlock.
  destruct (binaryRead RawBaseRelocBlock.size RawBaseRelocBlock.decode r)
    as [[raw| | |] r1] eqn:E; try discriminate.
  apply binaryRead_shorter in E; [|unfold RawBaseRelocBlock.size; lia].
  pose proof (parseBaseRelocBlock_loop_le
      {| lr_R := r1; lr_N := RawBaseRelocBlock.BlockSize raw - 8 |} []) as Hle.
  destruct (parseBaseRelocBlock_loop _ _) as [res lr'].
  cbn [snd lr_R] in Hle. intros H. inversion H; subst. lia.
Qed.

(** The loop of [parseBaseRelocBlocks]. *)
Equations? parseBaseRelocBlocks_loop (r : Reader)
  (blocks : list BaseRelocBlock.t) : outcome (list BaseRelocBlock.t)
  by wf (List.length r) lt :=
  parseBaseRelocBlocks_loop r blocks with inspect (parseBaseRelocBlock r) => {
    | exist _ (Ok block, r') eq := parseBaseRelocBlocks_loop r' (blocks ++ [block]);
    | exist _ (Err e, _) eq := if isEOF e then Ok blocks else Err e;
    | exist _ (Panic e, _) eq := Panic e;
    | exist _ (OutOfFuel, _) eq := OutOfFuel }.
Proof. eapply parseBaseRelocBlock_shorter; exact eq. Qed.

Definition parseBaseRelocBlocks (file : File.t) (dataDir : DataDirectory.t)
  : outcome (list BaseRelocBlock.t) :=
  oh <- derefOptHdr file ;;
  let addr := wrap 64 (OptHeader.ImageBase oh + DataDirectory.RelAddr dataDir) in
  buf <- ReadData file addr (DataDirectory.Size dataDir) ;;
  parseBaseRelocBlocks_loop buf [].

(* --------------------------------------------------------------------- *)
(** ** 6 - Debug *)

Equations? parseDebugDirs_loop (r : Reader) (dbgDirs : list DebugDirectory.t)
  : outcome (list DebugDirectory.t) by wf (List.length r) lt :=
  parseDebugDirs_loop r dbgDirs
    with inspect (binaryRead RawDebugDirectory.size RawDebugDirectory.decode r) => {
    | exist _ (Ok raw, r') eq :=
        parseDebugDirs_loop r' (dbgDirs ++ [goDebugDirectory raw]);
    | exist _ (Err e, _) eq := if isEOF e then Ok dbgDirs else Err e;
    | exist _ (Panic e, _) eq := Panic e;
    | exist _ (OutOfFuel, _) eq := OutOfFuel }.
Proof.
  eapply binaryRead_shorter; [|exact eq]. unfold RawDebugDirectory.size; lia.
Qed.

Definition parseDebugDirs (file : File.t) (dataDir : DataDirectory.t)
  : outcome (list DebugDirectory.t) :=
  oh <- derefOptHdr file ;;
  let addr := wrap 64 (OptHeader.ImageBase oh + DataDirectory.RelAddr dataDir) in
  buf <- ReadData file addr (DataDirectory.Size dataDir) ;;
  parseDebugDirs_loop buf [].

(** [readDebugData].  [start] and [end] are [uint32]; the sum wraps. *)
Definition readDebugData (file : File.t) (dbgDir : DebugDirectory.t)
  : outcome (list byte) :=
  if negb (DebugDirectory.RelAddr dbgDir =? 0) then
    oh <- derefOptHdr file ;;
    let addr := wrap 64 (OptHeader.ImageBase oh + DebugDirectory.RelAddr dbgDir) in
    ReadData file addr (DebugDirectory.Size dbgDir)
  else
    let start := DebugDirectory.Offset dbgDir in
    let end_ := wrap 32 (start + DebugDirectory.Size dbgDir) in
    slice (File.Content file) start end_.

Definition parseDebugCodeViewInfo (dbgDir : DebugDirectory.t) (buf : list byte)
  : outcome DebugData :=
  '(raw, r) <- readValue RawCodeViewInfo.size RawCodeViewInfo.decode buf ;;
  let b := r in  (* ioutil.ReadAll(r) *)
  let pdbPath := parseCString b in
  Ok (DebugCodeView dbgDir (goCodeViewInfo raw pdbPath)).

Equations? parseDebugFPO_loop (r : Reader) (fpoData : list FPOData.t)
  : outcome (list FPOData.t) by wf (List.length r) lt :=
  parseDebugFPO_loop r fpoData
    with inspect (binaryRead RawFPOData.size RawFPOData.decode r) => {
    | exist _ (Ok raw, r') eq := parseDebugFPO_loop r' (fpoData ++ [goFPOData raw]);
    | exist _ (Err e, _) eq := if isEOF e then Ok fpoData else Err e;
    | exist _ (Panic e, _) eq := Panic e;
    | exist _ (OutOfFuel, _) eq := OutOfFuel }.
Proof.
  eapply binaryRead_shorter; [|exact eq]. unfold RawFPOData.size; lia.
Qed.

Definition parseDebugFPO (dbgDir : DebugDirectory.t) (buf : list byte)
  : outcome DebugData :=
  fpoData <- parseDebugFPO_loop buf [] ;;
  Ok (DebugFPO dbgDir fpoData).

Fixpoint parseDebugData_loop (file : File.t) (dbgDirs : list DebugDirectory.t)
  (dbgData : list DebugData) : outcome (list DebugData) :=
  match dbgDirs with
  | [] => Ok dbgData
  | dbgDir :: rest =>
      buf <- readDebugData file dbgDir ;;
      let ty := DebugDirectory.Type_ dbgDir in
      if ty =? DebugTypeCodeView then
        dbgCodeView <- parseDebugCodeViewInfo dbgDir buf ;;
        parseDebugData_loop file rest (dbgData ++ [dbgCodeView])
      else if ty =? DebugTypeFPO then
        dbgFPO <- parseDebugFPO dbgDir buf ;;
        parseDebugData_loop file rest (dbgData ++ [dbgFPO])
      else if ty =? DebugTypeMisc then
        parseDebugData_loop file rest (dbgData ++ [DebugMisc dbgDir buf])
      else
        Panic (Errorf "support for debug data type %q not yet implemented"
                      [IntArg ty])
  end.

Definition parseDebugData (file : File.t) (dataDir : DataDirectory.t)
  : outcome (list DebugData) :=
  dbgDirs <- parseDebugDirs file dataDir ;;
  parseDebugData_loop file dbgDirs [].

(* --------------------------------------------------------------------- *)
(** ** The data directory dispatcher *)

(** One round of the loop of [parseDataDirsContent]: the directory
    [dataDir] at index [idx]. *)
Definition parseDataDir (fuel : nat) (file : File.t) (idx : nat)
  (dataDir : DataDirectory.t) : outcome File.t :=
  if DataDirectory.eqb dataDir DataDirectory.zero then Ok file
  else
    match idx with
    | 0%nat => (* Export Table *) Panic (notImplemented idx)
    | 1%nat => (* Import Table *)
        imps <- parseImports fuel file dataDir ;;
        Ok (File.setImps file imps)
    | 2%nat => (* Resource Table *) Ok file
    | 3%nat => (* Exception Table *) Panic (notImplemented idx)
    | 4%nat => (* Certificate Table *) Panic (notImplemented idx)
    | 5%nat => (* Base Relocation Table *)
        baseRelocBlocks <- parseBaseRelocBlocks file dataDir ;;
        Ok (File.setBaseRelocBlocks file baseRelocBlocks)
    | 6%nat => (* Debug data *)
        dbgData <- parseDebugData file dataDir ;;
        Ok (File.setDbgData file dbgData)
    | 7%nat => (* Architecture *) Panic (notImplemented idx)
    | 8%nat => (* Global Pointer Register *) Panic (notImplemented idx)
    | 9%nat => (* TLS Table *) Panic (notImplemented idx)
    | 10%nat => (* Load Config Table *) Panic (notImplemented idx)
    | 11%nat => (* Bound Import Table *) Panic (notImplemented idx)
    | 12%nat => (* Import Address Table *) Ok file
    | 13%nat => (* Delay Import Descriptor *) Panic (notImplemented idx)
    | 14%nat => (* CLR Header *) Panic (notImplemented idx)
    | 15%nat => (* Reserved *) Panic (notImplemented idx)
    | _ =>
        Panic (Errorf "invalid data directory index; expected < 16, got %d"
                      [IntArg (Z.of_nat idx)])
    end.

(** The loop over [file.DataDirs] from index [idx] on. *)
Fixpoint parseDataDirsContent_loop (fuel : nat) (file : File.t) (idx : nat)
  (dataDirs : list DataDirectory.t) : outcome File.t :=
  match dataDirs with
  | [] => Ok file
  | dataDir :: rest =>
      file' <- parseDataDir fuel file idx dataDir ;;
      parseDataDirsContent_loop fuel file' (S idx) rest
  end.

Definition parseDataDirsContent (fuel : nat) (file : File.t) : outcome File.t :=
  parseDataDirsContent_loop fuel file 0 (File.DataDirs file).

(** [parse]: the stages in order, each failure ending the parse. *)
Definition parse (fuel : nat) (content : list byte) : outcome File.t :=
  let file := File.new content in
  '(fileHdr, r) <- parseFileHeader content ;;
  let file := File.setFileHdr file fileHdr in
  '(optHdr, r) <- parseOptHeader r ;;
  let file := File.setOptHdr file optHdr in
  '(dataDirs, r) <- parseDataDirs file r ;;
  let file := File.setDataDirs file dataDirs in
  '(sectHdrs, r) <- parseSectionHdrs file r ;;
  let file := File.setSectHdrs file sectHdrs in
  parseDataDirsContent fuel file.

End Parser.

(* ===================================================================== *)
(** * The address translator *)
(* ===================================================================== *)

Section Translator.
Context {D : Decls}.

(** Modelled from the spec: the test of the translator (whose body is not
    among the sources) that [rva] lies in the section's range
    [VirtualAddress, VirtualAddress + VirtualSize). *)
Definition containsRVA (s : SectionHeader.t) (rva : Z) : bool :=
  (SectionHeader.RelAddr s <=? rva) &&
  (rva <? SectionHeader.RelAddr s + SectionHeader.VirtualSize s).

(** Modelled from the spec: the body of the address translator
    ([File.ReadData]) is not among the sources.  The section table is
    searched for the section whose virtual range contains [rva]; a
    translation resolves to exactly one containing section or fails with an
    address-resolution error.  The file offset is [DataOffset + (rva - VirtualAddress)] and
    the result is [content[offset .. offset+length)]; a range that exceeds
    the available content or the section's on-disk extent is a truncation
    error, never clamped. *)
Definition resolve (sections : list SectionHeader.t) (content : list byte)
  (rva length : Z) : outcome (list byte) :=
  match filter (fun s => containsRVA s rva) sections with
  | [s] =>
      let delta := rva - SectionHeader.RelAddr s in
      let offset := SectionHeader.DataOffset s + delta in
      if (offset + length <=? Z.of_nat (List.length content)) &&
         (delta + length <=? SectionHeader.DataSize s)
      then Ok (firstn (Z.to_nat length) (skipn (Z.to_nat offset) content))
      else Err (TruncationError offset length (Z.of_nat (List.length content)))
  | _ => Err (AddressResolutionError rva)
  end.

(** Modelled from the spec: [File.ReadData] as the parser calls it, with
    an absolute address [ImageBase + rva].  The Go method returns a byte
    slice only, so a failed translation is a panic. *)
Definition specReadData (file : File.t) (addr size : Z) : outcome (list byte) :=
  match File.OptHdr file with
  | None => Panic nilDereference
  | Some oh =>
      let rva := wrap 64 (addr - OptHeader.ImageBase oh) in
      match resolve (File.SectHdrs file) (File.Content file) rva size with
      | Err e => Panic e
      | res => res
      end
  end.

End Translator.

(* ===================================================================== *)
(** * Notions used in the statements *)
(* ===================================================================== *)

(** The bit field [b] of an FPO record, cut by the masks and shifts of
    [goFPOData], agrees with its bits and rebuilds [b]. *)
Definition fpoBitsCheck (b : Z) : bool :=
  (Z.land b 0x07 =? b mod 8) &&
  Bool.eqb (negb (Z.land b 0x08 =? 0)) (Z.testbit b 3) &&
  Bool.eqb (negb (Z.land b 0x10 =? 0)) (Z.testbit b 4) &&
  (Z.shiftr (Z.land b 0x20) 5 =? Z.b2z (Z.testbit b 5)) &&
  (Z.shiftr (Z.land b 0xC0) 6 =? b / 64) &&
  (b =? b mod 8 + 8 * Z.b2z (Z.testbit b 3) + 16 * Z.b2z (Z.testbit b 4)
        + 32 * Z.b2z (Z.testbit b 5) + 64 * (b / 64)).

(** A directory is populated unless both of its fields are zero. *)
Definition populated (d : DataDirectory.t) : Prop :=
  DataDirectory.RelAddr d <> 0 \/ DataDirectory.Size d <> 0.

(** The indices without a decoder: export table, exception table,
    certificate table, architecture, global pointer, TLS table,
    load-config table, bound imports, delay-import descriptor, CLR header,
    reserved. *)
Definition noDecoder : list nat := [0; 3; 4; 7; 8; 9; 10; 11; 13; 14; 15]%nat.

(** A 20-byte import descriptor record that is not all zero. *)
Definition nonZeroRecord (c : list byte) : Prop :=
  List.length c = 20%nat /\ c <> repeat x00 20.

(** The width of an import name table entry under the layout tag. *)
Definition entrySize (oh : OptHeader.t) : nat :=
  if OptHeader.Magic oh =? magic32 then RawINTEntry32.size
  else RawINTEntry64.size.

(** The address of the [k]-th entry of a table that starts at [addr]. *)
Definition entryAddr (oh : OptHeader.t) (addr : Z) (k : nat) : Z :=
  Nat.iter k (fun a => wrap 64 (a + Z.of_nat (entrySize oh))) addr.

(** The error of a [binary.Read] that cannot fill its record. *)
Definition shortRead (buf : list byte) : error :=
  match buf with [] => EOF | _ :: _ => ErrUnexpectedEOF end.

(** The 16-bit entries of a payload, in order; an odd last byte is left
    over. *)
Fixpoint pairs (payload : list byte) : list (list byte) :=
  match payload with
  | a :: b :: rest => [a; b] :: pairs rest
  | _ => []
  end.

(** The size of the optional header after the magic number. *)
Definition optBodySize (oh : OptHeader.t) : nat :=
  if OptHeader.Magic oh =? magic32 then RawOptHeader32.size
  else RawOptHeader64.size.

(** The file offset of the data directories, and of the section
    headers after them. *)
Definition dataDirsOffset (content : list byte) (oh : OptHeader.t) : nat :=
  Z.to_nat (le (firstn 4 (skipn 0x3C content))) + 24 + (2 + optBodySize oh).

Definition sectHdrsOffset (content : list byte) (oh : OptHeader.t) : nat :=
  dataDirsOffset content oh + 8 * Z.to_nat (OptHeader.NDataDirs oh).

Section StatementNotions.
Context {D : Decls} {Ops : FileOps}.

(** The descriptors decoded from a list of 20-byte records. *)
Definition goRecords (file : File.t) (records : list (list byte))
  : list ImportDirectory :=
  map (fun c => goImportDirectory file (RawImportDirectory.decode c)) records.

(** The entries decoded from the payload of a relocation block. *)
Definition goEntries (payload : list byte) : list BaseRelocEntry :=
  map (fun c => goBaseRelocEntry (RawBaseRelocEntry.decode c)) (pairs payload).

(** The dispatcher only writes the decoded directory contents. *)
Definition sameHeaders (f g : File.t) : Prop :=
  File.FileHdr g = File.FileHdr f /\ File.OptHdr g = File.OptHdr f /\
  File.DataDirs g = File.DataDirs f /\ File.SectHdrs g = File.SectHdrs f /\
  File.Content g = File.Content f.

End StatementNotions.

(* ===================================================================== *)
(** * A concrete instance, to run the parser on bytes *)
(* ===================================================================== *)

(** [parseCString]: the bytes before the first NUL. *)
Fixpoint untilNUL (bs : list byte) : list byte :=
  match bs with
  | [] => []
  | b :: bs' => if Byte.eqb b x00 then [] else b :: untilNUL bs'
  end.

(** The declarations left open are filled in the plainest way: times are
    seconds since the epoch, strings are byte lists, the debug type tags
    have their PE values, and entries stay in raw form. *)
#[export] Instance sampleDecls : Decls := {|
  Time := Z;
  parseDateFromEpoch := fun d => d;
  GoString := list byte;
  parseCString := untilNUL;
  DebugTypeCodeView := 2;
  DebugTypeFPO := 3;
  DebugTypeMisc := 4;
  ImportDirectory := RawImportDirectory.t;
  INTRelAddr := RawImportDirectory.INTRelAddr;
  IATRelAddr := RawImportDirectory.IATRelAddr;
  INTEntry := Z;
  BaseRelocEntry := Z;
  goBaseRelocEntry := fun raw => raw
|}.

#[export] Instance sampleOps : @FileOps sampleDecls := {|
  ReadData := specReadData;
  goImportDirectory := fun _ raw => raw;
  goINTEntry32 := fun _ raw => raw;
  goINTEntry64 := fun _ raw => raw
|}.

Definition byteOfZ (z : Z) : byte :=
  match Byte.of_N (Z.to_N (z mod 256)) with
  | Some b => b
  | None => x00
  end.

(** [n] bytes of [z], least significant first. *)
Fixpoint encLE (n : nat) (z : Z) : list byte :=
  match n with
  | O => []
  | S n' => byteOfZ z :: encLE n' (z / 256)
  end.

Definition sampleImportRecord : list byte :=
  encLE 4 0 ++ encLE 4 0 ++ encLE 4 0 ++ encLE 4 0 ++ encLE 4 0x1014.

(** A 32-bit image with two data directories (in [sampleImage] an empty
    export directory and an import directory of 20 bytes) and one section,
    which maps the
    RVAs from 0x1000 on to the 24 bytes at file offset 0xF0: one import
    descriptor, not followed by a zero descriptor, and the zero entry that
    ends its import address table. *)
Definition sampleImageWith (dataDirs : list byte) : list byte :=
  repeat x00 0x3C ++ encLE 4 0x40 ++
  signature ++
  (* COFF header *)
  encLE 2 0x14C ++ encLE 2 1 ++ encLE 4 0 ++ encLE 4 0 ++ encLE 4 0 ++
  encLE 2 0x70 ++ encLE 2 0x102 ++
  (* optional header *)
  encLE 2 0x010B ++ repeat x00 26 ++ encLE 4 0x400000 ++ repeat x00 60 ++
  encLE 4 2 ++
  (* data directories *)
  dataDirs ++
  (* section header *)
  [x2e; x69; x64; x61; x74; x61; x00; x00] ++
  encLE 4 0x1000 ++ encLE 4 0x1000 ++ encLE 4 24 ++ encLE 4 0xF0 ++
  encLE 4 0 ++ encLE 4 0 ++ encLE 2 0 ++ encLE 2 0 ++ encLE 4 0xC0000040 ++
  (* section data *)
  sampleImportRecord ++ encLE 4 0.

Definition sampleImage : list byte :=
  sampleImageWith (encLE 4 0 ++ encLE 4 0 ++ encLE 4 0x1000 ++ encLE 4 20).

(** The same image with a populated export directory. *)
Definition sampleImageExport : list byte :=
  sampleImageWith (encLE 4 0x1000 ++ encLE 4 4 ++ encLE 4 0x1000 ++ encLE 4 20).

Definition sampleFPO : RawFPOData.t :=
  {| RawFPOData.StartOffset := 0x1000; RawFPOData.FuncSize := 0x40;
     RawFPOData.NLocals := 3; RawFPOData.Params := 2;
     RawFPOData.Prolog := 5; RawFPOData.Bitfield := 0xD3 |}.

Definition sampleOptBody32 : list byte :=
  repeat x00 26 ++ encLE 4 0x400000 ++ repeat x00 60 ++ encLE 4 16.

(** A translator that clamps instead of failing, to exercise short reads. *)
Definition clampingOps : @FileOps sampleDecls := {|
  ReadData := fun file addr size =>
    Ok (firstn (Z.to_nat size) (skipn (Z.to_nat addr) (File.Content file)));
  goImportDirectory := fun _ raw => raw;
  goINTEntry32 := fun _ raw => raw;
  goINTEntry64 := fun _ raw => raw
|}.

Definition sampleOptHdr : OptHeader.t :=
  goOptHeader32 (RawOptHeader32.decode (firstn 94 sampleOptBody32)) 0x010B.

Definition recA : list byte :=
  encLE 4 0 ++ encLE 4 0 ++ encLE 4 0 ++ encLE 4 0 ++ encLE 4 0x103C.

Definition recB : list byte :=
  encLE 4 0x103C ++ encLE 4 0 ++ encLE 4 0 ++ encLE 4 0 ++ encLE 4 0x1040.

(** A file after the header stages: one section that maps the RVAs from
    0x1000 on to the whole content, which holds two import descriptors, the
    zero descriptor, and a table of one entry and the zero entry. *)
Definition sampleImportFile : File.t :=
  {| File.FileHdr := None;
     File.OptHdr := Some sampleOptHdr;
     File.DataDirs := [];
     File.SectHdrs :=
       [SectionHeader.mk [x2e; x69] 0x1000 0x1000 68 0 0 0 0 0 0];
     File.Imps := [];
     File.BaseRelocBlocks := [];
     File.DbgData := [];
     File.Content :=
       recA ++ recB ++ repeat x00 20 ++ encLE 4 0x80000005 ++ encLE 4 0 |}.

Definition sampleImportDir : DataDirectory.t := DataDirectory.mk 0x1000 60.

Definition sampleBlockHeader (blockSize : Z) : list byte :=
  encLE 4 0x1000 ++ encLE 4 blockSize.

Definition sampleDebugDir (relAddr offset size : Z) : DebugDirectory.t :=
  {| DebugDirectory.Characteristics := 0;
     DebugDirectory.Date := 0;
     DebugDirectory.MajorVer := 0;
     DebugDirectory.MinorVer := 0;
     DebugDirectory.Type_ := 4;
     DebugDirectory.Size := size;
     DebugDirectory.RelAddr := relAddr;
     DebugDirectory.Offset := offset |}.

(** The file that [parse] builds from [sampleImage]. *)
Definition sampleParsed : File.t :=
  Eval vm_compute in
    match parse 5 sampleImage with
    | Ok file => file
    | _ => File.new []
    end.

(* ===================================================================== *)
(** * Generated label tables (stringer) *)
(* ===================================================================== *)

(** A Go string slice [s[lo:hi]] with constant bounds inside the string. *)
Definition sliceString (s : string) (lo hi : nat) : string :=
  substring lo (hi - lo) s.

(** A Go map literal whose keys are distinct constants, as the list of its
    entries; [mapLookup] is the two-result index expression [m[k]]. *)
Fixpoint mapLookup (m : list (Z * string)) (k : Z) : option string :=
  match m with
  | [] => None
  | (k', v) :: m' => if k =? k' then Some v else mapLookup m' k
  end.

(** [strconv.FormatInt(z, 10)] *)
Definition FormatInt10 (z : Z) : string :=
  if z <? 0 then ("-" ++ fmtd (- z))%string else fmtd z.

Definition _SectionFlag_name : string :=
  "Reserved00000000Reserved00000001Reserved00000002Reserved00000004TypeNoPadReserved00000010ContainsCodeContainsInitializedDataContainsUninitializedDataLinkOtherLinkInfoReserved00000400LinkRemoveLinkComdatGPRelMemPurgeableMemLockedMemPreloadAlign1Align2Align4Align8Align16Align32Align64Align128Align256Align512Align1024Align2048Align4096Align8192LinkNRelocOverflowMemDiscardableMemNotCachedMemNotPagedMemSharedMemExecuteMemReadMemWrite".

Definition _SectionFlag_map : list (Z * string) :=
  [ (0, sliceString _SectionFlag_name 0 16);
    (1, sliceString _SectionFlag_name 16 32);
    (2, sliceString _SectionFlag_name 32 48);
    (4, sliceString _SectionFlag_name 48 64);
    (8, sliceString _SectionFlag_name 64 73);
    (16, sliceString _SectionFlag_name 73 89);
    (32, sliceString _SectionFlag_name 89 101);
    (64, sliceString _SectionFlag_name 101 124);
    (128, sliceString _SectionFlag_name 124 149);
    (256, sliceString _SectionFlag_name 149 158);
    (512, sliceString _SectionFlag_name 158 166);
    (1024, sliceString _SectionFlag_name 166 182);
    (2048, sliceString _SectionFlag_name 182 192);
    (4096, sliceString _SectionFlag_name 192 202);
    (32768, sliceString _SectionFlag_name 202 207);
    (131072, sliceString _SectionFlag_name 207 219);
    (262144, sliceString _SectionFlag_name 219 228);
    (524288, sliceString _SectionFlag_name 228 238);
    (1048576, sliceString _SectionFlag_name 238 244);
    (2097152, sliceString _SectionFlag_name 244 250);
    (3145728, sliceString _SectionFlag_name 250 256);
    (4194304, sliceString _SectionFlag_name 256 262);
    (5242880, sliceString _SectionFlag_name 262 269);
    (6291456, sliceString _SectionFlag_name 269 276);
    (7340032, sliceString _SectionFlag_name 276 283);
    (8388608, sliceString _SectionFlag_name 283 291);
    (9437184, sliceString _SectionFlag_name 291 299);
    (10485760, sliceString _SectionFlag_name 299 307);
    (11534336, sliceString _SectionFlag_name 307 316);
    (12582912, sliceString _SectionFlag_name 316 325);
    (13631488, sliceString _SectionFlag_name 325 334);
    (14680064, sliceString _SectionFlag_name 334 343);
    (16777216, sliceString _SectionFlag_name 343 361);
    (33554432, sliceString _SectionFlag_name 361 375);
    (67108864, sliceString _SectionFlag_name 375 387);
    (134217728, sliceString _SectionFlag_name 387 398);
    (268435456, sliceString _SectionFlag_name 398 407);
    (536870912, sliceString _SectionFlag_name 407 417);
    (1073741824, sliceString _SectionFlag_name 417 424);
    (2147483648, sliceString _SectionFlag_name 424 432) ].

Definition _Characteristic_name : string :=
  "RelocsStrippedExecutableImageLineNumsStrippedLocalSymsStrippedAggressiveWSTrimLargeAddressAwareReserved0040BytesReversedLo32bitMachineDebugStrippedRemovableRunFromSwapNetRunFromSwapSystemDLLUpSystemOnlyBytesReversedHi".

Definition _Characteristic_map : list (Z * string) :=
  [ (1, sliceString _Characteristic_name 0 14);
    (2, sliceString _Characteristic_name 14 29);
    (4, sliceString _Characteristic_name 29 45);
    (8, sliceString _Characteristic_name 45 62);
    (16, sliceString _Characteristic_name 62 78);
    (32, sliceString _Characteristic_name 78 95);
    (64, sliceString _Characteristic_name 95 107);
    (128, sliceString _Characteristic_name 107 122);
    (256, sliceString _Characteristic_name 122 134);
    (512, sliceString _Characteristic_name 134 147);
    (1024, sliceString _Characteristic_name 147 167);
    (2048, sliceString _Characteristic_name 167 181);
    (4096, sliceString _Characteristic_name 181 187);
    (8192, sliceString _Characteristic_name 187 190);
    (16384, sliceString _Characteristic_name 190 202);
    (32768, sliceString _Characteristic_name 202 217) ].

(** [SectionFlag.String] *)
Definition SectionFlag_String (i : Z) : string :=
  match mapLookup _SectionFlag_map i with
  | Some str => str
  | None => ("SectionFlag(" ++ FormatInt10 i ++ ")")%string
  end.

(** [Characteristic.String] *)
Definition Characteristic_String (i : Z) : string :=
  match mapLookup _Characteristic_map i with
  | Some str => str
  | None => ("Characteristic(" ++ FormatInt10 i ++ ")")%string
  end.

(** The optional header of [sampleParsed]. *)
Definition sampleOptHdrParsed : OptHeader.t :=
  Eval vm_compute in
    match File.OptHdr sampleParsed with
    | Some oh => oh
    | None => sampleOptHdr
    end.

(** [sampleImage] after the header stages, before the dispatch. *)
Definition sampleHeadersFile : File.t := File.setImps sampleParsed [].

(* ===================================================================== *)
(** * Further notions used in the statements *)
(* ===================================================================== *)

(** The error of [readN] on a reader that is too short: the reads stop at
    the first record that is not complete. *)
Definition exhausted (n : nat) (r : Reader) : error :=
  if (List.length r mod n =? 0)%nat then EOF else ErrUnexpectedEOF.

(** The records of a buffer: its consecutive pieces of [size] bytes, each
    decoded and converted. *)
Definition recordsOf {A B} (size : nat) (dec : list byte -> A) (go : A -> B)
  (buf : list byte) : list B :=
  map (fun i => go (dec (firstn size (skipn (size * i) buf))))
      (seq 0 (List.length buf / size)).

(** Whether a table of labels gives different keys different labels. *)
Definition labelsDistinct (m : list (Z * string)) : bool :=
  forallb (fun p =>
    forallb (fun q => implb (String.eqb (snd p) (snd q)) (fst p =? fst q)) m) m.

(** The call came back to its caller, with a value or with an error: it
    did not panic (and the model did not run out of steps). *)
Definition returned {A} (m : outcome A) : Prop :=
  match m with
  | Ok _ | Err _ => True
  | Panic _ | OutOfFuel => False
  end.

(** The entry at index [k] of a directory table is empty or missing. *)
Definition emptyEntry (dataDirs : list DataDirectory.t) (k : nat) : Prop :=
  forall d, nth_error dataDirs k = Some d ->
            DataDirectory.eqb d DataDirectory.zero = true.

Section FurtherNotions.
Context {D : Decls} {Ops : FileOps}.

(** The directory descriptor that a debug record wraps. *)
Definition debugDirOf (d : DebugData) : DebugDirectory.t :=
  match d with
  | DebugCodeView dbgDir _ => dbgDir
  | DebugFPO dbgDir _ => dbgDir
  | DebugMisc dbgDir _ => dbgDir
  end.

(** The translator delivers, at address [a], a buffer that holds a whole
    table entry of value [raw]. *)
Definition entryAt (file : File.t) (oh : OptHeader.t) (a : Z) (raw : Z) : Prop :=
  exists buf,
    ReadData file a (Z.of_nat (entrySize oh)) = Ok buf /\
    (entrySize oh <= List.length buf)%nat /\
    le (firstn (entrySize oh) buf) = raw.

(** The conversion of a table entry under the layout tag. *)
Definition goINTEntry (file : File.t) (oh : OptHeader.t) (raw : Z) : INTEntry :=
  if OptHeader.Magic oh =? magic32 then goINTEntry32 file raw
  else goINTEntry64 file raw.

(** The tables of an import entry were parsed at the addresses of its own
    descriptor; without a name table address there are no names. *)
Definition tablesOf (fuel : nat) (file : File.t) (imp : ImportEntry.t) : Prop :=
  let impDir := ImportEntry.ImpDir imp in
  parseINTs fuel file (IATRelAddr impDir) = Ok (ImportEntry.IATs imp) /\
  (if INTRelAddr impDir =? 0 then ImportEntry.INTs imp = []
   else parseINTs fuel file (INTRelAddr impDir) = Ok (ImportEntry.INTs imp)).

(** A relocation block as bytes: its 8-byte header and its payload. *)
Definition blockBytes (b : list byte * list byte) : list byte :=
  fst b ++ snd b.

(** The header declares the size of header and payload together, and the
    payload is a whole number of 16-bit entries. *)
Definition wellFormedBlock (b : list byte * list byte) : Prop :=
  List.length (fst b) = 8%nat /\
  RawBaseRelocBlock.BlockSize (RawBaseRelocBlock.decode (fst b))
  = 8 + Z.of_nat (List.length (snd b)) /\
  Nat.even (List.length (snd b)) = true.

Definition blockOf (b : list byte * list byte) : BaseRelocBlock.t :=
  {| BaseRelocBlock.PageRelAddr :=
       RawBaseRelocBlock.PageRelAddr (RawBaseRelocBlock.decode (fst b));
     BaseRelocBlock.BlockSize :=
       RawBaseRelocBlock.BlockSize (RawBaseRelocBlock.decode (fst b));
     BaseRelocBlock.Entries := goEntries (snd b) |}.

(** A debug record was decoded from the payload of the directory it
    wraps, by the decoder that the directory's type selects. *)
Definition decodedFrom (file : File.t) (d : DebugData) : Prop :=
  exists buf,
    readDebugData file (debugDirOf d) = Ok buf /\
    match d with
    | DebugCodeView dbgDir _ =>
        DebugDirectory.Type_ dbgDir = DebugTypeCodeView /\
        parseDebugCodeViewInfo dbgDir buf = Ok d
    | DebugFPO dbgDir _ =>
        DebugDirectory.Type_ dbgDir = DebugTypeFPO /\
        parseDebugFPO dbgDir buf = Ok d
    | DebugMisc dbgDir content =>
        DebugDirectory.Type_ dbgDir = DebugTypeMisc /\ content = buf
    end.

End FurtherNotions.

(** A file whose content is one debug directory of type [ty], which
    places its four payload bytes right behind itself in the file. *)
Definition sampleDebugFile (ty : Z) : File.t :=
  {| File.FileHdr := None;
     File.OptHdr := Some sampleOptHdr;
     File.DataDirs := [];
     File.SectHdrs :=
       [SectionHeader.mk [x2e; x64] 0x1000 0x1000 32 0 0 0 0 0 0];
     File.Imps := [];
     File.BaseRelocBlocks := [];
     File.DbgData := [];
     File.Content :=
       encLE 4 0 ++ encLE 4 0 ++ encLE 2 0 ++ encLE 2 0 ++ encLE 4 ty ++
       encLE 4 4 ++ encLE 4 0 ++ encLE 4 28 ++ [x01; x02; x03; x04] |}.

(** A file with the given content, mapped from the RVA 0x1000 on by its
    one section. *)
Definition sampleFileOf (content : list byte) : File.t :=
  {| File.FileHdr := None;
     File.OptHdr := Some sampleOptHdr;
     File.DataDirs := [];
     File.SectHdrs :=
       [SectionHeader.mk [x2e; x72] 0x1000 0x1000
                         (Z.of_nat (List.length content)) 0 0 0 0 0 0];
     File.Imps := [];
     File.BaseRelocBlocks := [];
     File.DbgData := [];
     File.Content := content |}.
(* ===================================================================== *)
(** * Basic facts about bytes and readers *)
(* ===================================================================== *)

Lemma u8_range b : 0 <= u8 b < 256.
Proof.
  unfold u8. pose proof (Byte.to_N_bounded b). lia.
Qed.

Lemma u8_zero b : u8 b = 0 -> b = x00.
Proof.
  unfold u8. intros H.
  assert (E : Byte.to_N b = Byte.to_N x00) by (cbn; lia).
  pose proof (Byte.of_to_N b) as Hb. rewrite E in Hb.
  rewrite Byte.of_to_N in Hb. congruence.
Qed.

Lemma le_nonneg bs : 0 <= le bs.
Proof.
  induction bs as [|b bs IH]; cbn [le]; [lia|].
  pose proof (u8_range b). lia.
Qed.

Lemma le_bound bs : le bs < 256 ^ Z.of_nat (List.length bs).
Proof.
  induction bs as [|b bs IH]; [cbn; lia|].
  cbn [le List.length]. rewrite Nat2Z.inj_succ, Z.pow_succ_r by lia.
  pose proof (u8_range b). pose proof (le_nonneg bs). lia.
Qed.

(** A little-endian integer is zero exactly when all its bytes are. *)
Lemma le_zero_iff bs : le bs = 0 <-> bs = repeat x00 (List.length bs).
Proof.
  induction bs as [|b bs IH]; cbn [le List.length repeat]; [tauto|].
  pose proof (u8_range b). pose proof (le_nonneg bs).
  split.
  - intros H1. assert (u8 b = 0) by lia. assert (le bs = 0) by lia.
    f_equal; [now apply u8_zero | now apply IH].
  - intros H1. inversion H1 as [[Hb Hbs]]. rewrite <- Hbs.
    apply IH in Hbs. rewrite Hbs. reflexivity.
Qed.

Lemma firstn_app_exact {A} (c rest : list A) n :
  List.length c = n -> firstn n (c ++ rest) = c.
Proof.
  intros <-. rewrite firstn_app, Nat.sub_diag, firstn_O, app_nil_r.
  apply firstn_all.
Qed.

Lemma skipn_app_exact {A} (c rest : list A) n :
  List.length c = n -> skipn n (c ++ rest) = rest.
Proof.
  intros <-. rewrite skipn_app, Nat.sub_diag, skipn_O, skipn_all.
  reflexivity.
Qed.

Lemma readValue_ok {A} n (dec : list byte -> A) r :
  (0 < n)%nat -> (n <= List.length r)%nat ->
  readValue n dec r = Ok (dec (firstn n r), skipn n r).
Proof.
  intros Hn Hl. unfold readValue, binaryRead, ReadFull.
  destruct r as [|b r0]; [cbn in Hl; lia|].
  destruct (Nat.leb_spec n (List.length (b :: r0))); [reflexivity|lia].
Qed.

Lemma binaryRead_ok {A} n (dec : list byte -> A) r :
  (0 < n)%nat -> (n <= List.length r)%nat ->
  binaryRead n dec r = (Ok (dec (firstn n r)), skipn n r).
Proof.
  intros Hn Hl. unfold binaryRead, ReadFull.
  destruct r as [|b r0]; [cbn in Hl; lia|].
  destruct (Nat.leb_spec n (List.length (b :: r0))); [reflexivity|lia].
Qed.

Lemma binaryRead_empty {A} n (dec : list byte -> A) :
  binaryRead n dec [] = (Err EOF, []).
Proof. unfold binaryRead, ReadFull. now rewrite skipn_nil. Qed.

Lemma binaryRead_short {A} n (dec : list byte -> A) r :
  r <> [] -> (List.length r < n)%nat ->
  binaryRead n dec r = (Err ErrUnexpectedEOF, []).
Proof.
  intros Hr Hl. unfold binaryRead, ReadFull.
  destruct r as [|b r0]; [congruence|].
  destruct (Nat.leb_spec n (List.length (b :: r0))); [lia|].
  cbn [bind]. now rewrite skipn_all.
Qed.

(** Every value of a byte satisfies a property that a check accepts on
    0..255. *)
Lemma byte_cases (check : Z -> bool) :
  forallb check (map Z.of_nat (seq 0 256)) = true ->
  forall b, 0 <= b < 256 -> check b = true.
Proof.
  intros H b Hb. rewrite forallb_forall in H. apply H.
  apply in_map_iff. exists (Z.to_nat b). split; [lia|].
  apply in_seq. lia.
Qed.

(* ===================================================================== *)
(** * Properties: FPO records *)
(* ===================================================================== *)

Lemma fpoBits b : 0 <= b < 256 -> fpoBitsCheck b = true.
Proof. apply byte_cases. vm_compute. reflexivity. Qed.

(** C5, as amended.  For every raw FPO record (fields within their Go
    types), the decoded record has [NLocals] and [Params] equal to the
    on-disk values times 4, and the bit field is split into the register
    count (bits 0-2), the SEH flag (bit 3), the frame pointer flag (bit 4),
    the reserved bit (bit 5) and the frame type (bits 6-7), which together
    rebuild the byte; for the byte 0b11010011 this gives Regs = 3,
    HasSEH = false, UseBP = true, Reserved = 0 and Frame = 3. *)
Theorem goFPOData_fields (raw : RawFPOData.t) :
  0 <= RawFPOData.NLocals raw < 2 ^ 32 ->
  0 <= RawFPOData.Params raw < 2 ^ 16 ->
  0 <= RawFPOData.Bitfield raw < 2 ^ 8 ->
  let b := RawFPOData.Bitfield raw in
  let fpo := goFPOData raw in
  FPOData.NLocals fpo = RawFPOData.NLocals raw * 4 /\
  FPOData.Params fpo = RawFPOData.Params raw * 4 /\
  FPOData.Regs fpo = b mod 8 /\
  FPOData.HasSEH fpo = Z.testbit b 3 /\
  FPOData.UseBP fpo = Z.testbit b 4 /\
  FPOData.Reserved fpo = Z.b2z (Z.testbit b 5) /\
  FPOData.Frame fpo = b / 64 /\
  0 <= FPOData.Frame fpo < 4 /\
  b = FPOData.Regs fpo + 8 * Z.b2z (FPOData.HasSEH fpo)
      + 16 * Z.b2z (FPOData.UseBP fpo) + 32 * FPOData.Reserved fpo
      + 64 * FPOData.Frame fpo /\
  (b = 0xD3 ->
   FPOData.Regs fpo = 3 /\ FPOData.HasSEH fpo = false /\
   FPOData.UseBP fpo = true /\ FPOData.Reserved fpo = 0 /\
   FPOData.Frame fpo = 3).
Proof.
  intros HL HP HB b fpo.
  pose proof (fpoBits b HB) as Hc. unfold fpoBitsCheck in Hc.
  apply andb_prop in Hc as [Hc H6]. apply andb_prop in Hc as [Hc H5].
  apply andb_prop in Hc as [Hc H4]. apply andb_prop in Hc as [Hc H3].
  apply andb_prop in Hc as [H1 H2].
  apply Z.eqb_eq in H1, H4, H5, H6. apply Bool.eqb_prop in H2, H3.
  assert (HF : 0 <= b / 64 < 4).
  { split; [apply Z.div_pos; lia | apply Z.div_lt_upper_bound; lia]. }
  subst fpo. unfold goFPOData. cbn [FPOData.NLocals FPOData.Params
    FPOData.Regs FPOData.HasSEH FPOData.UseBP FPOData.Reserved FPOData.Frame].
  fold b. rewrite H1, H2, H3, H4, H5.
  split; [unfold wrap; apply Z.mod_small; lia|].
  split; [unfold wrap; apply Z.mod_small; lia|].
  do 5 (split; [reflexivity|]).
  split; [exact HF|].
  split; [exact H6|].
  intros E. rewrite E. repeat split; reflexivity.
Qed.

Lemma goFPOData_fields_witness :
  FPOData.NLocals (goFPOData sampleFPO) = 12 /\
  FPOData.Params (goFPOData sampleFPO) = 8 /\
  FPOData.Reserved (goFPOData sampleFPO) = 0.
Proof.
  pose proof (goFPOData_fields sampleFPO
                ltac:(cbn; lia) ltac:(cbn; lia) ltac:(cbn; lia)) as H.
  cbv zeta in H.
  destruct H as (H1 & H2 & _ & _ & _ & _ & _ & _ & _ & H3).
  destruct (H3 eq_refl) as (_ & _ & _ & H4 & _).
  exact (conj H1 (conj H2 H4)).
Defined.

(** C5 as stated fails on its own literal: bit 5 of 0b11010011 is clear,
    so the decoded [Reserved] is 0 and not 1. *)
Lemma goFPOData_literal_counterexample :
  ~ (FPOData.Regs (goFPOData sampleFPO) = 3 /\
     FPOData.HasSEH (goFPOData sampleFPO) = false /\
     FPOData.UseBP (goFPOData sampleFPO) = true /\
     FPOData.Reserved (goFPOData sampleFPO) = 1 /\
     FPOData.Frame (goFPOData sampleFPO) = 3).
Proof.
  intros (_ & _ & _ & H & _). vm_compute in H. discriminate H.
Qed.

(* ===================================================================== *)
(** * Properties: the optional header *)
(* ===================================================================== *)

Section OptionalHeader.
Context {D : Decls} {Ops : FileOps}.

Lemma append_empty (s : string) : (s ++ "")%string = s.
Proof. induction s as [|c s IH]; cbn; [reflexivity | now rewrite IH]. Qed.

Lemma invalidMagic_format a b c :
  Sprintf "invalid optional header magic number; expected 0x%04X or 0x%04X, got 0x%04X"
          [IntArg a; IntArg b; IntArg c] =
  Some ("invalid optional header magic number; expected 0x" ++ fmt04X a
        ++ " or 0x" ++ fmt04X b ++ ", got 0x" ++ fmt04X c)%string.
Proof.
  cbv -[fmt04X String.append]. rewrite append_empty. reflexivity.
Qed.

Lemma invalidMagic_message magic :
  Error_string (invalidMagic magic) =
  Some ("invalid optional header magic number; expected 0x010B or 0x020B, got 0x"
        ++ fmt04X magic)%string.
Proof.
  unfold invalidMagic, Error_string. rewrite invalidMagic_format. reflexivity.
Qed.

Lemma parseOptHeader_cases (m0 m1 : byte) (body : list byte) :
  parseOptHeader (m0 :: m1 :: body) =
  let magic := le [m0; m1] in
  if magic =? magic32 then
    '(raw, r) <- readValue RawOptHeader32.size RawOptHeader32.decode body ;;
    Ok (goOptHeader32 raw magic, r)
  else if magic =? magic64 then
    '(raw, r) <- readValue RawOptHeader64.size RawOptHeader64.decode body ;;
    Ok (goOptHeader64 raw magic, r)
  else Err (invalidMagic magic).
Proof.
  unfold parseOptHeader.
  rewrite readValue_ok by (cbn [List.length]; lia).
  reflexivity.
Qed.

(** C6.  The optional header starts with a 2-byte magic value: 0x010B
    selects and decodes the 32-bit layout, 0x020B the 64-bit layout, and
    every other value (0x0000 for one) ends the parse with an error whose
    message names 0x010B, 0x020B and the value found. *)
Theorem parseOptHeader_magic (m0 m1 : byte) (body : list byte) :
  let magic := le [m0; m1] in
  let r := m0 :: m1 :: body in
  (magic = 0x010B -> (94 <= List.length body)%nat ->
   parseOptHeader r =
   Ok (goOptHeader32 (RawOptHeader32.decode (firstn 94 body)) 0x010B,
       skipn 94 body)) /\
  (magic = 0x020B -> (110 <= List.length body)%nat ->
   parseOptHeader r =
   Ok (goOptHeader64 (RawOptHeader64.decode (firstn 110 body)) 0x020B,
       skipn 110 body)) /\
  (magic <> 0x010B -> magic <> 0x020B ->
   parseOptHeader r = Err (invalidMagic magic) /\
   Error_string (invalidMagic magic) =
   Some ("invalid optional header magic number; expected 0x010B or 0x020B, got 0x"
         ++ fmt04X magic)%string /\
   forall fuel content fh,
     parseFileHeader content = Ok (fh, r) ->
     parse fuel content = Err (invalidMagic magic)) /\
  (magic = 0x0000 ->
   parseOptHeader r = Err (invalidMagic 0) /\
   Error_string (invalidMagic 0) =
   Some "invalid optional header magic number; expected 0x010B or 0x020B, got 0x0000"%string).
Proof.
  intros magic r. subst r.
  pose proof (parseOptHeader_cases m0 m1 body) as Hc. cbv zeta in Hc.
  fold magic in Hc.
  assert (Hbad : magic <> 0x010B -> magic <> 0x020B ->
                 parseOptHeader (m0 :: m1 :: body) = Err (invalidMagic magic)).
  { intros H1 H2. rewrite Hc.
    destruct (Z.eqb_spec magic magic32); [contradiction|].
    destruct (Z.eqb_spec magic magic64); [contradiction|]. reflexivity. }
  split; [|split; [|split]].
  - intros E Hl. rewrite Hc, E. cbn [Z.eqb magic32 Pos.eqb].
    rewrite readValue_ok by (unfold RawOptHeader32.size; lia). reflexivity.
  - intros E Hl. rewrite Hc, E. cbn [Z.eqb magic32 magic64 Pos.eqb].
    rewrite readValue_ok by (unfold RawOptHeader64.size; lia). reflexivity.
  - intros H1 H2. split; [|split].
    + apply Hbad; assumption.
    + apply invalidMagic_message.
    + intros fuel content fh Hfh. unfold parse. rewrite Hfh. cbn [bind].
      rewrite Hbad by assumption. reflexivity.
  - intros E. split; [|reflexivity].
    rewrite Hbad by (rewrite E; unfold magic32, magic64; lia).
    rewrite E. reflexivity.
Qed.

End OptionalHeader.

Lemma parseOptHeader_magic_witness :
  OptHeader.NDataDirs
    (goOptHeader32 (RawOptHeader32.decode (firstn 94 sampleOptBody32)) 0x010B)
  = 16 /\
  parseOptHeader (x0b :: x01 :: sampleOptBody32) =
  Ok (goOptHeader32 (RawOptHeader32.decode (firstn 94 sampleOptBody32)) 0x010B,
      skipn 94 sampleOptBody32) /\
  parseOptHeader (x0b :: x02 :: repeat x01 110) =
  Ok (goOptHeader64 (RawOptHeader64.decode (firstn 110 (repeat x01 110))) 0x020B,
      skipn 110 (repeat x01 110)) /\
  parseOptHeader (x00 :: x00 :: sampleOptBody32) = Err (invalidMagic 0) /\
  parseOptHeader (x0b :: x03 :: sampleOptBody32) = Err (invalidMagic 0x030B).
Proof.
  split; [reflexivity|].
  split.
  { apply (proj1 (parseOptHeader_magic x0b x01 sampleOptBody32));
      [reflexivity | cbn; lia]. }
  split.
  { apply (proj1 (proj2 (parseOptHeader_magic x0b x02 (repeat x01 110))));
      [reflexivity | cbn; lia]. }
  split.
  { apply (proj2 (proj2 (proj2 (parseOptHeader_magic x00 x00 sampleOptBody32)))).
    reflexivity. }
  apply (proj1 (proj2 (proj2 (parseOptHeader_magic x0b x03 sampleOptBody32))));
    cbn; lia.
Defined.

(* ===================================================================== *)
(** * Properties: the data directory dispatcher *)
(* ===================================================================== *)

Lemma DataDirectory_eqb_zero d :
  DataDirectory.eqb d DataDirectory.zero = false <-> populated d.
Proof.
  unfold DataDirectory.eqb, populated. cbn [DataDirectory.zero
    DataDirectory.RelAddr DataDirectory.Size].
  rewrite andb_false_iff, !Z.eqb_neq. reflexivity.
Qed.

Lemma DataDirectory_eqb_zero_true d :
  DataDirectory.RelAddr d = 0 -> DataDirectory.Size d = 0 ->
  DataDirectory.eqb d DataDirectory.zero = true.
Proof.
  intros H1 H2. unfold DataDirectory.eqb. rewrite H1, H2. reflexivity.
Qed.

Lemma notImplemented_message idx :
  Error_string (notImplemented idx) =
  Some ("support for data directory index " ++ fmtd (Z.of_nat idx)
        ++ " not yet implemented")%string.
Proof.
  unfold notImplemented, Error_string.
  generalize (Z.of_nat idx) as z. intros z.
  cbv -[fmtd String.append]. reflexivity.
Qed.

Section Dispatcher.
Context {D : Decls} {Ops : FileOps}.

Lemma parseDataDir_panics (fuel : nat) (file : File.t) (idx : nat)
  (dataDir : DataDirectory.t) :
  In idx noDecoder -> populated dataDir ->
  parseDataDir fuel file idx dataDir = Panic (notImplemented idx).
Proof.
  intros Hin Hp. apply DataDirectory_eqb_zero in Hp.
  unfold parseDataDir. rewrite Hp.
  unfold noDecoder in Hin. cbn [In] in Hin.
  repeat (destruct Hin as [<-|Hin]; [reflexivity|]). contradiction.
Qed.

Lemma parseDataDir_skips (fuel : nat) (file : File.t) (idx : nat)
  (dataDir : DataDirectory.t) :
  DataDirectory.RelAddr dataDir = 0 -> DataDirectory.Size dataDir = 0 ->
  parseDataDir fuel file idx dataDir = Ok file.
Proof.
  intros H1 H2. unfold parseDataDir.
  now rewrite DataDirectory_eqb_zero_true.
Qed.

(** C2.  At an index without a decoder, the round of the dispatcher
    panics with the error naming that index if and only if the directory
    is populated, and so does the loop that has reached the index; a
    directory whose two fields are zero is skipped at any index: the round
    returns the file as it was, without error, and the loop goes on to the
    next index. *)
Theorem parseDataDir_noDecoder (fuel : nat) (file : File.t) (idx : nat)
  (dataDir : DataDirectory.t) (rest : list DataDirectory.t) :
  In idx noDecoder ->
  (parseDataDir fuel file idx dataDir = Panic (notImplemented idx)
   <-> populated dataDir) /\
  (populated dataDir ->
   parseDataDirsContent_loop fuel file idx (dataDir :: rest)
   = Panic (notImplemented idx)) /\
  Error_string (notImplemented idx) =
  Some ("support for data directory index " ++ fmtd (Z.of_nat idx)
        ++ " not yet implemented")%string /\
  (forall (i : nat) (d : DataDirectory.t),
     DataDirectory.RelAddr d = 0 -> DataDirectory.Size d = 0 ->
     parseDataDir fuel file i d = Ok file /\
     parseDataDirsContent_loop fuel file i (d :: rest)
     = parseDataDirsContent_loop fuel file (S i) rest).
Proof.
  intros Hin.
  split; [|split; [|split]].
  - split; [|now apply parseDataDir_panics].
    intros Hp.
    destruct (DataDirectory.eqb dataDir DataDirectory.zero) eqn:E.
    + unfold parseDataDir in Hp. rewrite E in Hp. discriminate Hp.
    + now apply DataDirectory_eqb_zero.
  - intros Hp. cbn [parseDataDirsContent_loop].
    now rewrite parseDataDir_panics.
  - apply notImplemented_message.
  - intros i d H1 H2. split; [now apply parseDataDir_skips|].
    cbn [parseDataDirsContent_loop]. now rewrite parseDataDir_skips.
Qed.

Lemma parseDataDirsContent_loop_skip (fuel : nat) (file : File.t) (idx : nat)
  (pre rest : list DataDirectory.t) :
  Forall (fun d => DataDirectory.eqb d DataDirectory.zero = true) pre ->
  parseDataDirsContent_loop fuel file idx (pre ++ rest)
  = parseDataDirsContent_loop fuel file (idx + List.length pre) rest.
Proof.
  intros Hpre. revert idx.
  induction Hpre as [|d pre Hd Hpre IH]; intros idx.
  - cbn [List.length app]. now rewrite Nat.add_0_r.
  - cbn [List.length app parseDataDirsContent_loop].
    unfold parseDataDir at 1. rewrite Hd. cbn [bind].
    rewrite IH. f_equal. lia.
Qed.

(** The panic of a round ends the whole dispatch; empty directories before
    the index do not matter. *)
Lemma parseDataDirsContent_noDecoder (fuel : nat) (file : File.t)
  (pre rest : list DataDirectory.t) (dataDir : DataDirectory.t) :
  Forall (fun d => DataDirectory.eqb d DataDirectory.zero = true) pre ->
  In (List.length pre) noDecoder ->
  populated dataDir ->
  File.DataDirs file = pre ++ dataDir :: rest ->
  parseDataDirsContent fuel file = Panic (notImplemented (List.length pre)).
Proof.
  intros Hpre Hin Hp Hdirs. unfold parseDataDirsContent. rewrite Hdirs.
  rewrite parseDataDirsContent_loop_skip by assumption.
  cbn [Nat.add parseDataDirsContent_loop].
  now rewrite parseDataDir_panics.
Qed.

End Dispatcher.

Lemma parseDataDir_noDecoder_witness :
  let d := DataDirectory.mk 0x2000 0x10 in
  parseDataDir 0 (File.new []) 3 d = Panic (notImplemented 3) /\
  parseDataDirsContent_loop 0 (File.new []) 3 [d; DataDirectory.zero]
  = Panic (notImplemented 3) /\
  Error_string (notImplemented 3)
  = Some "support for data directory index 3 not yet implemented"%string /\
  parseDataDir 0 (File.new []) 3 DataDirectory.zero = Ok (File.new []).
Proof.
  intros d.
  destruct (parseDataDir_noDecoder 0 (File.new []) 3 d [DataDirectory.zero])
    as (H1 & H2 & H3 & H4).
  { unfold noDecoder. cbn [In]. tauto. }
  assert (Hp : populated d) by (left; cbn; lia).
  split; [apply H1; exact Hp|].
  split; [apply H2; exact Hp|].
  split; [exact H3|].
  apply (H4 3%nat DataDirectory.zero); reflexivity.
Defined.

Example parse_sampleImageExport :
  parse 5 sampleImageExport = Panic (notImplemented 0).
Proof. vm_compute. reflexivity. Qed.

(* ===================================================================== *)
(** * Properties: the import table *)
(* ===================================================================== *)

(** A 20-byte record decodes to the zero descriptor exactly when all its
    bytes are zero. *)
Lemma RawImportDirectory_zero_iff (c : list byte) :
  List.length c = 20%nat ->
  (RawImportDirectory.eqb (RawImportDirectory.decode c) RawImportDirectory.zero
   = true <-> c = repeat x00 20).
Proof.
  intros Hl.
  do 20 (destruct c as [|? c]; [discriminate Hl|]).
  destruct c; [|discriminate Hl]. clear Hl.
  unfold RawImportDirectory.eqb, RawImportDirectory.decode, runDec, dbind,
    dret, uint32, uint.
  cbn [firstn skipn fst RawImportDirectory.zero
       RawImportDirectory.INTRelAddr RawImportDirectory.Date
       RawImportDirectory.ForwarderChain RawImportDirectory.NameRelAddr
       RawImportDirectory.IATRelAddr].
  rewrite !andb_true_iff, !Z.eqb_eq, !le_zero_iff.
  cbn [List.length repeat].
  split.
  - intros ((((H1 & H2) & H3) & H4) & H5).
    inversion H1; inversion H2; inversion H3; inversion H4; inversion H5.
    reflexivity.
  - intros H. inversion H. repeat split; reflexivity.
Qed.

Lemma nonZeroRecord_eqb c :
  nonZeroRecord c ->
  RawImportDirectory.eqb (RawImportDirectory.decode c) RawImportDirectory.zero
  = false.
Proof.
  intros [Hl Hz].
  destruct (RawImportDirectory.eqb _ _) eqn:E; [|reflexivity].
  apply RawImportDirectory_zero_iff in E; [contradiction|assumption].
Qed.

Section ImportTable.
Context {D : Decls} {Ops : FileOps}.

Lemma parseImportDirs_loop_step file r impDirs :
  parseImportDirs_loop file r impDirs =
  match binaryRead RawImportDirectory.size RawImportDirectory.decode r with
  | (Ok raw, r') =>
      if RawImportDirectory.eqb raw RawImportDirectory.zero then Ok impDirs
      else parseImportDirs_loop file r' (impDirs ++ [goImportDirectory file raw])
  | (Err e, _) => if isEOF e then Ok impDirs else Err e
  | (Panic e, _) => Panic e
  | (OutOfFuel, _) => OutOfFuel
  end.
Proof.
  funelim (parseImportDirs_loop file r impDirs).
  all: match goal with E : binaryRead _ _ _ = _ |- _ => rewrite E end.
  all: reflexivity.
Qed.

(** Non-zero records are read one after the other and collected in
    order. *)
Lemma parseImportDirs_loop_records file records tail impDirs :
  Forall nonZeroRecord records ->
  parseImportDirs_loop file (List.concat records ++ tail) impDirs
  = parseImportDirs_loop file tail (impDirs ++ goRecords file records).
Proof.
  intros H. revert impDirs.
  induction H as [|c records Hc Hrec IH]; intros impDirs.
  - cbn [List.concat app goRecords map]. now rewrite app_nil_r.
  - rewrite parseImportDirs_loop_step.
    cbn [List.concat]. rewrite <- app_assoc.
    destruct Hc as [Hl Hz].
    rewrite binaryRead_ok
      by (unfold RawImportDirectory.size; rewrite ?length_app; lia).
    unfold RawImportDirectory.size.
    rewrite firstn_app_exact, skipn_app_exact by assumption.
    rewrite nonZeroRecord_eqb by (split; assumption).
    rewrite IH. cbn [goRecords map]. now rewrite <- app_assoc.
Qed.

Lemma parseImportDirs_loop_sentinel file rest impDirs :
  parseImportDirs_loop file (repeat x00 20 ++ rest) impDirs = Ok impDirs.
Proof.
  rewrite parseImportDirs_loop_step.
  rewrite binaryRead_ok
    by (unfold RawImportDirectory.size; rewrite ?length_app, ?repeat_length; lia).
  unfold RawImportDirectory.size.
  rewrite firstn_app_exact by apply repeat_length.
  reflexivity.
Qed.

Lemma parseImportEntry_ImpDir fuel file impDir imp :
  parseImportEntry fuel file impDir = Ok imp -> ImportEntry.ImpDir imp = impDir.
Proof.
  unfold parseImportEntry.
  destruct (if negb (INTRelAddr impDir =? 0) then _ else _); try discriminate.
  cbn [bind].
  destruct (parseINTs fuel file (IATRelAddr impDir)); try discriminate.
  cbn [bind]. intros H. inversion H. reflexivity.
Qed.

Lemma parseImports_loop_ImpDir fuel file impDirs imps res :
  parseImports_loop fuel file impDirs imps = Ok res ->
  map ImportEntry.ImpDir res = map ImportEntry.ImpDir imps ++ impDirs.
Proof.
  revert imps. induction impDirs as [|d impDirs IH]; intros imps.
  - cbn. intros H. inversion H. now rewrite app_nil_r.
  - cbn [parseImports_loop].
    destruct (parseImportEntry fuel file d) as [imp| | |] eqn:E; try discriminate.
    cbn [bind]. intros H. apply IH in H. rewrite H.
    rewrite map_app. cbn [map]. rewrite <- app_assoc. cbn [app].
    now rewrite (parseImportEntry_ImpDir _ _ _ _ E).
Qed.

(** C3.  When the bytes of the import directory are K non-zero descriptor
    records followed by an all-zero record, the descriptors parsed are
    exactly those K records, in order; the zero record ends the traversal
    and yields no entry, whatever follows it.  The import entries of a
    successful parse are built from these K descriptors, in the same
    order. *)
Theorem parseImportDirs_sentinel (file : File.t) (dataDir : DataDirectory.t)
  (oh : OptHeader.t) (buf : list byte) (records : list (list byte))
  (rest : list byte) :
  File.OptHdr file = Some oh ->
  ReadData file (wrap 64 (OptHeader.ImageBase oh + DataDirectory.RelAddr dataDir))
           (DataDirectory.Size dataDir) = Ok buf ->
  Forall nonZeroRecord records ->
  buf = List.concat records ++ repeat x00 20 ++ rest ->
  parseImportDirs file dataDir = Ok (goRecords file records) /\
  List.length (goRecords file records) = List.length records /\
  forall fuel imps,
    parseImports fuel file dataDir = Ok imps ->
    map ImportEntry.ImpDir imps = goRecords file records /\
    List.length imps = List.length records.
Proof.
  intros Hoh Hread Hrec Hbuf.
  assert (Hdirs : parseImportDirs file dataDir = Ok (goRecords file records)).
  { unfold parseImportDirs, derefOptHdr. rewrite Hoh. cbn [bind].
    rewrite Hread. cbn [bind]. rewrite Hbuf.
    rewrite parseImportDirs_loop_records by assumption.
    now rewrite parseImportDirs_loop_sentinel. }
  split; [exact Hdirs|].
  split; [unfold goRecords; apply length_map|].
  intros fuel imps H. unfold parseImports in H. rewrite Hdirs in H.
  cbn [bind] in H. apply parseImports_loop_ImpDir in H. cbn [map app] in H.
  split; [exact H|].
  rewrite <- (length_map ImportEntry.ImpDir), H. unfold goRecords.
  apply length_map.
Qed.

End ImportTable.

Lemma binaryRead_Ok_inv {A} n (dec : list byte -> A) buf a :
  fst (binaryRead n dec buf) = Ok a ->
  (n <= List.length buf)%nat /\ a = dec (firstn n buf).
Proof.
  unfold binaryRead, ReadFull.
  destruct buf as [|b buf]; [discriminate|].
  destruct (Nat.leb_spec n (List.length (b :: buf))) as [Hle|Hlt]; [|discriminate].
  cbn [fst bind]. intros Hx. inversion Hx. split; [assumption|reflexivity].
Qed.

Lemma binaryRead_short_fst {A} n (dec : list byte -> A) buf :
  (List.length buf < n)%nat ->
  fst (binaryRead n dec buf) = Err (shortRead buf).
Proof.
  intros Hl. destruct buf as [|b buf].
  - now rewrite binaryRead_empty.
  - rewrite binaryRead_short by (try discriminate; assumption). reflexivity.
Qed.

Section ImportTraversal.
Context {D : Decls} {Ops : FileOps}.

Lemma parseINTs_loop_short fuel file oh addr ints buf :
  OptHeader.Magic oh = magic32 \/ OptHeader.Magic oh = magic64 ->
  ReadData file addr (Z.of_nat (entrySize oh)) = Ok buf ->
  (List.length buf < entrySize oh)%nat ->
  parseINTs_loop (S fuel) file oh addr ints = Err (shortRead buf).
Proof.
  unfold entrySize. intros [Hm|Hm] Hr Hl; cbn [parseINTs_loop]; rewrite Hm in *.
  - cbn [Z.eqb magic32 Pos.eqb] in *.
    change 4 with (Z.of_nat RawINTEntry32.size). rewrite Hr. cbn [bind].
    rewrite binaryRead_short_fst by assumption. reflexivity.
  - cbn [Z.eqb magic32 magic64 Pos.eqb] in *.
    change 8 with (Z.of_nat RawINTEntry64.size). rewrite Hr. cbn [bind].
    rewrite binaryRead_short_fst by assumption. reflexivity.
Qed.

Lemma parseINTs_loop_panic fuel file oh addr ints e :
  OptHeader.Magic oh = magic32 \/ OptHeader.Magic oh = magic64 ->
  ReadData file addr (Z.of_nat (entrySize oh)) = Panic e ->
  parseINTs_loop (S fuel) file oh addr ints = Panic e.
Proof.
  unfold entrySize. intros [Hm|Hm] Hr; cbn [parseINTs_loop]; rewrite Hm in *.
  - cbn [Z.eqb magic32 Pos.eqb] in *.
    change 4 with (Z.of_nat RawINTEntry32.size). now rewrite Hr.
  - cbn [Z.eqb magic32 magic64 Pos.eqb] in *.
    change 8 with (Z.of_nat RawINTEntry64.size). now rewrite Hr.
Qed.

Lemma parseINTs_loop_sentinel fuel file oh addr ints res :
  parseINTs_loop fuel file oh addr ints = Ok res ->
  exists more buf,
    res = ints ++ more /\
    ReadData file (entryAddr oh addr (List.length more))
             (Z.of_nat (entrySize oh)) = Ok buf /\
    (entrySize oh <= List.length buf)%nat /\
    le (firstn (entrySize oh) buf) = 0.
Proof.
  revert addr ints. induction fuel as [|fuel IH]; intros addr ints; [discriminate|].
  cbn [parseINTs_loop]. unfold entryAddr, entrySize.
  destruct (OptHeader.Magic oh =? magic32) eqn:E32;
    [|destruct (OptHeader.Magic oh =? magic64) eqn:E64; [|discriminate]].
  - change 4 with (Z.of_nat RawINTEntry32.size) at 1.
    destruct (ReadData file addr (Z.of_nat RawINTEntry32.size)) as [buf| | |] eqn:Hr;
      try discriminate.
    cbn [bind].
    destruct (fst (binaryRead RawINTEntry32.size RawINTEntry32.decode buf))
      as [raw| | |] eqn:Hb; try discriminate.
    apply binaryRead_Ok_inv in Hb as [Hl Hraw]. cbn [bind].
    destruct (Z.eqb_spec raw 0) as [Hz|Hz].
    + intros H. inversion H. subst res. exists [], buf.
      rewrite app_nil_r. cbn [List.length Nat.iter].
      repeat split; try assumption. rewrite Hraw in Hz. exact Hz.
    + intros H. apply IH in H as (more & buf' & Hres & Hr' & Hl' & Hz').
      exists (goINTEntry32 file raw :: more), buf'.
      rewrite <- app_assoc in Hres. cbn [app] in Hres.
      split; [exact Hres|].
      cbn [List.length]. rewrite Nat.iter_succ_r.
      unfold entryAddr, entrySize in Hr', Hl', Hz'. rewrite E32 in Hr', Hl', Hz'.
      repeat split; assumption.
  - change 8 with (Z.of_nat RawINTEntry64.size) at 1.
    destruct (ReadData file addr (Z.of_nat RawINTEntry64.size)) as [buf| | |] eqn:Hr;
      try discriminate.
    cbn [bind].
    destruct (fst (binaryRead RawINTEntry64.size RawINTEntry64.decode buf))
      as [raw| | |] eqn:Hb; try discriminate.
    apply binaryRead_Ok_inv in Hb as [Hl Hraw]. cbn [bind].
    destruct (Z.eqb_spec raw 0) as [Hz|Hz].
    + intros H. inversion H. subst res. exists [], buf.
      rewrite app_nil_r. cbn [List.length Nat.iter].
      repeat split; try assumption. rewrite Hraw in Hz. exact Hz.
    + intros H. apply IH in H as (more & buf' & Hres & Hr' & Hl' & Hz').
      exists (goINTEntry64 file raw :: more), buf'.
      rewrite <- app_assoc in Hres. cbn [app] in Hres.
      split; [exact Hres|].
      cbn [List.length]. rewrite Nat.iter_succ_r.
      unfold entryAddr, entrySize in Hr', Hl', Hz'.
      rewrite E32, ?E64 in Hr', Hl', Hz'.
      repeat split; assumption.
Qed.

(** C8, as amended.  In the descriptor array a record of which only a part
    is left fails the parse with an unexpected-EOF error, but bytes that
    end exactly at a record boundary end the traversal successfully with
    the descriptors read so far.  In the name and address tables a read
    that cannot fill an entry fails the parse with an EOF or
    unexpected-EOF error, a read that the address translator refuses
    fails the parse with the translator's error, and a table is only
    parsed successfully by reading a complete zero entry. *)
Theorem import_traversal_end (file : File.t) :
  (forall records tail,
     Forall nonZeroRecord records ->
     (tail = [] ->
      parseImportDirs_loop file (List.concat records ++ tail) []
      = Ok (goRecords file records)) /\
     (tail <> [] -> (List.length tail < 20)%nat ->
      parseImportDirs_loop file (List.concat records ++ tail) []
      = Err ErrUnexpectedEOF)) /\
  (forall fuel oh addr ints buf,
     OptHeader.Magic oh = magic32 \/ OptHeader.Magic oh = magic64 ->
     ReadData file addr (Z.of_nat (entrySize oh)) = Ok buf ->
     (List.length buf < entrySize oh)%nat ->
     parseINTs_loop (S fuel) file oh addr ints = Err (shortRead buf)) /\
  (forall fuel oh addr ints e,
     OptHeader.Magic oh = magic32 \/ OptHeader.Magic oh = magic64 ->
     ReadData file addr (Z.of_nat (entrySize oh)) = Panic e ->
     parseINTs_loop (S fuel) file oh addr ints = Panic e) /\
  (forall fuel oh addr ints res,
     parseINTs_loop fuel file oh addr ints = Ok res ->
     exists more buf,
       res = ints ++ more /\
       ReadData file (entryAddr oh addr (List.length more))
                (Z.of_nat (entrySize oh)) = Ok buf /\
       (entrySize oh <= List.length buf)%nat /\
       le (firstn (entrySize oh) buf) = 0).
Proof.
  split; [|split; [|split]].
  - intros records tail Hrec.
    rewrite parseImportDirs_loop_records by assumption. cbn [app].
    split.
    + intros ->. rewrite parseImportDirs_loop_step, binaryRead_empty.
      reflexivity.
    + intros Hne Hl. rewrite parseImportDirs_loop_step.
      rewrite binaryRead_short by (unfold RawImportDirectory.size; assumption).
      reflexivity.
  - intros fuel oh addr ints buf. apply parseINTs_loop_short.
  - intros fuel oh addr ints e. apply parseINTs_loop_panic.
  - intros fuel oh addr ints res. apply parseINTs_loop_sentinel.
Qed.

End ImportTraversal.

Lemma parseImportDirs_sentinel_witness :
  parseImportDirs sampleImportFile sampleImportDir
  = Ok [RawImportDirectory.decode recA; RawImportDirectory.decode recB] /\
  exists imps,
    parseImports 3 sampleImportFile sampleImportDir = Ok imps /\
    List.length imps = 2%nat.
Proof.
  destruct (parseImportDirs_sentinel sampleImportFile sampleImportDir
              sampleOptHdr
              (recA ++ recB ++ repeat x00 20)
              [recA; recB] []) as (H1 & H2 & H3).
  - reflexivity.
  - vm_compute. reflexivity.
  - repeat constructor; discriminate.
  - vm_compute. reflexivity.
  - split; [exact H1|].
    eexists. split; [vm_compute; reflexivity|].
    apply (H3 3%nat). vm_compute. reflexivity.
Defined.

Lemma import_traversal_end_witness :
  parseImportDirs_loop sampleImportFile (recA ++ [x01]) []
  = Err ErrUnexpectedEOF /\
  parseImportDirs_loop sampleImportFile (recA ++ recB) []
  = Ok [RawImportDirectory.decode recA; RawImportDirectory.decode recB] /\
  parseINTs_loop (Ops := clampingOps) 1 sampleImportFile sampleOptHdr 66 []
  = Err ErrUnexpectedEOF /\
  parseINTs_loop (Ops := clampingOps) 1 sampleImportFile sampleOptHdr 68 []
  = Err EOF /\
  parseINTs_loop 1 sampleImportFile sampleOptHdr 0x401042 []
  = Panic (TruncationError 66 4 68) /\
  exists buf,
    ReadData sampleImportFile 0x401040 4 = Ok buf /\ le (firstn 4 buf) = 0.
Proof.
  pose proof (import_traversal_end (Ops := sampleOps) sampleImportFile)
    as (H1 & _ & H4 & H3).
  pose proof (import_traversal_end (Ops := clampingOps) sampleImportFile)
    as (_ & H2 & _).
  assert (HA : Forall nonZeroRecord [recA])
    by (repeat constructor; discriminate).
  assert (HAB : Forall nonZeroRecord [recA; recB])
    by (repeat constructor; discriminate).
  split.
  { apply (proj2 (H1 [recA] [x01] HA)); [discriminate | vm_compute; lia]. }
  split.
  { pose proof (proj1 (H1 [recA; recB] [] HAB) eq_refl) as H.
    cbn [List.concat] in H. rewrite !app_nil_r in H. exact H. }
  split.
  { apply (H2 0%nat sampleOptHdr 66 [] [x00; x00]);
      [left; vm_compute; reflexivity | vm_compute; reflexivity
      | vm_compute; lia]. }
  split.
  { apply (H2 0%nat sampleOptHdr 68 [] []);
      [left; vm_compute; reflexivity | vm_compute; reflexivity
      | vm_compute; lia]. }
  split.
  { apply (H4 0%nat sampleOptHdr 0x401042 []);
      [left; vm_compute; reflexivity | vm_compute; reflexivity]. }
  destruct (H3 3%nat sampleOptHdr 0x40103C [] [0x80000005]) as
    (more & buf & Hres & Hread & Hlen & Hzero).
  { vm_compute. reflexivity. }
  exists buf. cbn [app] in Hres. subst more.
  split; [exact Hread | exact Hzero].
Defined.

(** C8 as stated fails on the descriptor array: the import directory of
    [sampleImage] is one non-zero descriptor with no zero descriptor after
    it, the traversal runs out of bytes, and the parse succeeds with one
    import entry. *)
Lemma import_traversal_counterexample :
  sampleImportRecord <> repeat x00 20 /\
  parseImportDirs_loop (File.new sampleImage) sampleImportRecord []
  = Ok [RawImportDirectory.decode sampleImportRecord] /\
  exists file,
    parse 5 sampleImage = Ok file /\
    ReadData file 0x401000 20 = Ok sampleImportRecord /\
    File.Imps file =
    [{| ImportEntry.ImpDir := RawImportDirectory.decode sampleImportRecord;
        ImportEntry.INTs := [];
        ImportEntry.IATs := [] |}].
Proof.
  split; [discriminate|].
  split; [vm_compute; reflexivity|].
  eexists. split; [vm_compute; reflexivity|].
  split; vm_compute; reflexivity.
Qed.

(* ===================================================================== *)
(** * Properties: base relocation blocks *)
(* ===================================================================== *)

Lemma pairs_length payload :
  List.length (pairs payload) = Nat.div2 (List.length payload).
Proof.
  revert payload.
  fix IH 1. intros [|a [|b rest]]; [reflexivity | reflexivity |].
  cbn [pairs List.length Nat.div2]. now rewrite IH.
Qed.

Section BaseReloc.
Context {D : Decls} {Ops : FileOps}.

Lemma parseBaseRelocBlock_loop_step lr entries :
  parseBaseRelocBlock_loop lr entries =
  match binaryReadLimited RawBaseRelocEntry.size RawBaseRelocEntry.decode lr with
  | (Ok rawEntry, lr') =>
      parseBaseRelocBlock_loop lr' (entries ++ [goBaseRelocEntry rawEntry])
  | (Err e, lr') => if isEOF e then (Ok entries, lr') else (Err e, lr')
  | (Panic e, lr') => (Panic e, lr')
  | (OutOfFuel, lr') => (OutOfFuel, lr')
  end.
Proof.
  funelim (parseBaseRelocBlock_loop lr entries).
  all: match goal with E : binaryReadLimited _ _ _ = _ |- _ => rewrite E end.
  all: reflexivity.
Qed.

(** A budget that is used up, or was never positive, ends the loop at
    once. *)
Lemma parseBaseRelocBlock_loop_exhausted r n entries :
  n <= 0 ->
  parseBaseRelocBlock_loop {| lr_R := r; lr_N := n |} entries
  = (Ok entries, {| lr_R := r; lr_N := n |}).
Proof.
  intros Hn. rewrite parseBaseRelocBlock_loop_step.
  unfold binaryReadLimited, limitedAvail. cbn [lr_N lr_R].
  destruct (Z.leb_spec n 0); [|lia].
  cbn [ReadFull bind isEOF skipn]. now rewrite Z.sub_0_r.
Qed.

(** The loop over a limited reader whose budget is exactly the payload. *)
Lemma parseBaseRelocBlock_loop_payload payload :
  forall rest entries,
  parseBaseRelocBlock_loop
    {| lr_R := payload ++ rest; lr_N := Z.of_nat (List.length payload) |} entries
  = (if Nat.even (List.length payload)
     then Ok (entries ++ goEntries payload)
     else Err ErrUnexpectedEOF,
     {| lr_R := rest; lr_N := 0 |}).
Proof.
  revert payload. fix IH 1. intros [|a [|b payload]] rest entries.
  - cbn [List.length app Nat.even goEntries pairs map].
    rewrite parseBaseRelocBlock_loop_exhausted by (cbn; lia).
    now rewrite app_nil_r.
  - rewrite parseBaseRelocBlock_loop_step. reflexivity.
  - rewrite parseBaseRelocBlock_loop_step.
    unfold binaryReadLimited, limitedAvail. cbn [lr_N lr_R].
    destruct (Z.leb_spec (Z.of_nat (List.length (a :: b :: payload))) 0) as [H|H];
      [cbn [List.length] in H; lia|].
    rewrite Nat2Z.id. cbn [List.length app firstn ReadFull].
    destruct (Nat.leb_spec RawBaseRelocEntry.size
                (S (S (List.length (firstn (List.length payload) (payload ++ rest))))))
      as [H2|H2]; [|unfold RawBaseRelocEntry.size in H2; lia].
    cbn [bind RawBaseRelocEntry.size skipn firstn].
    replace (Z.of_nat (S (S (List.length payload)))
             - Z.of_nat RawBaseRelocEntry.size)
      with (Z.of_nat (List.length payload))
      by (unfold RawBaseRelocEntry.size; lia).
    rewrite IH. cbn [Nat.even goEntries pairs map].
    rewrite <- app_assoc. reflexivity.
Qed.

Lemma parity_of_nat n :
  Z.even (Z.of_nat n) = Nat.even n /\ Z.odd (Z.of_nat n) = Nat.odd n.
Proof.
  induction n as [|n [IHe IHo]]; [split; reflexivity|].
  rewrite Nat2Z.inj_succ, Z.even_succ, Z.odd_succ, Nat.even_succ, Nat.odd_succ.
  split; assumption.
Qed.

Lemma goEntries_length payload :
  Z.of_nat (List.length (goEntries payload)) = Z.of_nat (List.length payload) / 2.
Proof.
  unfold goEntries. rewrite length_map, pairs_length.
  now rewrite Nat2Z.inj_div2, Z.div2_div.
Qed.

Lemma parseBaseRelocBlock_header hdr tail :
  List.length hdr = 8%nat ->
  parseBaseRelocBlock (hdr ++ tail) =
  let raw := RawBaseRelocBlock.decode hdr in
  let '(res, lr') :=
    parseBaseRelocBlock_loop
      {| lr_R := tail; lr_N := RawBaseRelocBlock.BlockSize raw - 8 |} [] in
  (entries <- res ;;
   Ok {| BaseRelocBlock.PageRelAddr := RawBaseRelocBlock.PageRelAddr raw;
         BaseRelocBlock.BlockSize := RawBaseRelocBlock.BlockSize raw;
         BaseRelocBlock.Entries := entries |},
   lr_R lr').
Proof.
  intros Hl. unfold parseBaseRelocBlock.
  rewrite binaryRead_ok
    by (unfold RawBaseRelocBlock.size; rewrite ?length_app; lia).
  unfold RawBaseRelocBlock.size.
  rewrite firstn_app_exact, skipn_app_exact by assumption.
  reflexivity.
Qed.

(** C4, as amended.  For a block whose declared size B is at least 8 and
    whose B - 8 payload bytes follow the 8-byte header: when B - 8 is even
    the parser returns a block with exactly (B - 8) / 2 entries, the 16-bit
    integers of the payload in order, and leaves the reader after the
    payload; when B - 8 is odd the parse of the block fails with an
    unexpected-EOF error.  A block with B = 10 has exactly one entry. *)
Theorem parseBaseRelocBlock_entries (hdr payload rest : list byte) :
  List.length hdr = 8%nat ->
  let raw := RawBaseRelocBlock.decode hdr in
  let B := RawBaseRelocBlock.BlockSize raw in
  8 <= B ->
  Z.of_nat (List.length payload) = B - 8 ->
  (Z.even (B - 8) = true ->
   parseBaseRelocBlock (hdr ++ payload ++ rest) =
   (Ok {| BaseRelocBlock.PageRelAddr := RawBaseRelocBlock.PageRelAddr raw;
          BaseRelocBlock.BlockSize := B;
          BaseRelocBlock.Entries := goEntries payload |}, rest) /\
   Z.of_nat (List.length (goEntries payload)) = (B - 8) / 2) /\
  (Z.even (B - 8) = false ->
   parseBaseRelocBlock (hdr ++ payload ++ rest) = (Err ErrUnexpectedEOF, rest)) /\
  (B = 10 -> exists e, goEntries payload = [e]).
Proof.
  intros Hl raw B HB Hp.
  pose proof (parseBaseRelocBlock_header hdr (payload ++ rest) Hl) as Hh.
  cbv zeta in Hh. fold raw in Hh. fold B in Hh.
  rewrite <- Hp in Hh. rewrite parseBaseRelocBlock_loop_payload in Hh.
  cbn [lr_R] in Hh.
  rewrite <- Hp. rewrite (proj1 (parity_of_nat _)).
  split; [|split].
  - intros He. rewrite He in Hh. cbn [bind app] in Hh.
    split; [exact Hh | apply goEntries_length].
  - intros He. rewrite He in Hh. exact Hh.
  - intros E. assert (Hlen : List.length payload = 2%nat) by lia.
    destruct payload as [|a [|b [|c payload]]]; try discriminate Hlen.
    eexists. reflexivity.
Qed.

(** C10.  A block whose declared size is at most 8 (0 included) parses
    without error into a block without entries: the budget B - 8 of the
    limited reader is not positive, which reads as an empty payload.  The
    reader is left right after the 8-byte header. *)
Theorem parseBaseRelocBlock_small (hdr rest : list byte) :
  List.length hdr = 8%nat ->
  let raw := RawBaseRelocBlock.decode hdr in
  RawBaseRelocBlock.BlockSize raw <= 8 ->
  parseBaseRelocBlock (hdr ++ rest) =
  (Ok {| BaseRelocBlock.PageRelAddr := RawBaseRelocBlock.PageRelAddr raw;
         BaseRelocBlock.BlockSize := RawBaseRelocBlock.BlockSize raw;
         BaseRelocBlock.Entries := [] |}, rest).
Proof.
  intros Hl raw HB.
  rewrite (parseBaseRelocBlock_header hdr rest Hl). cbv zeta. fold raw.
  rewrite parseBaseRelocBlock_loop_exhausted by lia.
  reflexivity.
Qed.

End BaseReloc.

Lemma parseBaseRelocBlock_entries_witness :
  parseBaseRelocBlock (sampleBlockHeader 12 ++ [x10; x30; x20; x30] ++ [x07])
  = (Ok {| BaseRelocBlock.PageRelAddr := 0x1000;
           BaseRelocBlock.BlockSize := 12;
           BaseRelocBlock.Entries := [0x3010; 0x3020] |}, [x07]) /\
  parseBaseRelocBlock (sampleBlockHeader 10 ++ [x10; x30] ++ [])
  = (Ok {| BaseRelocBlock.PageRelAddr := 0x1000;
           BaseRelocBlock.BlockSize := 10;
           BaseRelocBlock.Entries := [0x3010] |}, []) /\
  parseBaseRelocBlock (sampleBlockHeader 11 ++ [x10; x30; x20] ++ [x07])
  = (Err ErrUnexpectedEOF, [x07]).
Proof.
  split; [|split].
  - destruct (parseBaseRelocBlock_entries (sampleBlockHeader 12)
                [x10; x30; x20; x30] [x07] eq_refl
                ltac:(vm_compute; congruence) ltac:(vm_compute; reflexivity))
      as (H & _ & _).
    destruct (H ltac:(vm_compute; reflexivity)) as [H1 _].
    rewrite H1. vm_compute. reflexivity.
  - destruct (parseBaseRelocBlock_entries (sampleBlockHeader 10)
                [x10; x30] [] eq_refl
                ltac:(vm_compute; congruence) ltac:(vm_compute; reflexivity))
      as (H & _ & _).
    destruct (H ltac:(vm_compute; reflexivity)) as [H1 _].
    rewrite H1. vm_compute. reflexivity.
  - destruct (parseBaseRelocBlock_entries (sampleBlockHeader 11)
                [x10; x30; x20] [x07] eq_refl
                ltac:(vm_compute; congruence) ltac:(vm_compute; reflexivity))
      as (_ & H & _).
    apply H. vm_compute. reflexivity.
Defined.

(** C4 as stated fails for an odd payload: a block of declared size 11
    with its 3 payload bytes is not parsed into a block with (11 - 8) / 2
    = 1 entry; the parse of the block, and of the relocation table, fails. *)
Lemma parseBaseRelocBlock_odd_counterexample :
  parseBaseRelocBlock (sampleBlockHeader 11 ++ [x10; x30; x20])
  = (Err ErrUnexpectedEOF, []) /\
  parseBaseRelocBlocks_loop (sampleBlockHeader 11 ++ [x10; x30; x20]) []
  = Err ErrUnexpectedEOF.
Proof. split; vm_compute; reflexivity. Qed.

Lemma parseBaseRelocBlock_small_witness :
  parseBaseRelocBlock (sampleBlockHeader 0 ++ [x10; x30])
  = (Ok {| BaseRelocBlock.PageRelAddr := 0x1000;
           BaseRelocBlock.BlockSize := 0;
           BaseRelocBlock.Entries := [] |}, [x10; x30]) /\
  parseBaseRelocBlock (sampleBlockHeader 8 ++ [])
  = (Ok {| BaseRelocBlock.PageRelAddr := 0x1000;
           BaseRelocBlock.BlockSize := 8;
           BaseRelocBlock.Entries := [] |}, []).
Proof.
  split.
  - rewrite (parseBaseRelocBlock_small (sampleBlockHeader 0) [x10; x30] eq_refl
               ltac:(vm_compute; congruence)).
    vm_compute. reflexivity.
  - rewrite (parseBaseRelocBlock_small (sampleBlockHeader 8) [] eq_refl
               ltac:(vm_compute; congruence)).
    vm_compute. reflexivity.
Defined.

(* ===================================================================== *)
(** * Properties: debug data addressing *)
(* ===================================================================== *)

Section DebugAddressing.
Context {D : Decls} {Ops : FileOps}.

Lemma slice_in_range (s : list byte) (lo len : Z) :
  0 <= lo -> 0 <= len -> lo + len <= Z.of_nat (List.length s) ->
  slice s lo (lo + len)
  = Ok (firstn (Z.to_nat len) (skipn (Z.to_nat lo) s)).
Proof.
  intros H1 H2 H3. unfold slice.
  destruct (Z.leb_spec 0 lo); [|lia].
  destruct (Z.leb_spec lo (lo + len)); [|lia].
  destruct (Z.leb_spec (lo + len) (Z.of_nat (List.length s))); [|lia].
  cbn [andb]. do 3 f_equal. lia.
Qed.

(** C7.  The payload of a debug directory is fetched through the address
    translator exactly when the descriptor's RVA field is not zero.  When
    it is zero the payload is the slice of the content from [Offset] to
    [Offset + Size]: the translator plays no part in the result, and for a
    range inside the content the payload is those [Size] bytes. *)
Theorem readDebugData_addressing (file : File.t) (dbgDir : DebugDirectory.t) :
  (DebugDirectory.RelAddr dbgDir <> 0 ->
   readDebugData file dbgDir =
   (oh <- derefOptHdr file ;;
    ReadData file
      (wrap 64 (OptHeader.ImageBase oh + DebugDirectory.RelAddr dbgDir))
      (DebugDirectory.Size dbgDir))) /\
  (DebugDirectory.RelAddr dbgDir = 0 ->
   readDebugData file dbgDir =
   slice (File.Content file) (DebugDirectory.Offset dbgDir)
         (wrap 32 (DebugDirectory.Offset dbgDir + DebugDirectory.Size dbgDir)) /\
   (forall Ops' : FileOps,
      readDebugData (Ops := Ops') file dbgDir
      = readDebugData (Ops := Ops) file dbgDir) /\
   (0 <= DebugDirectory.Offset dbgDir ->
    0 <= DebugDirectory.Size dbgDir ->
    DebugDirectory.Offset dbgDir + DebugDirectory.Size dbgDir < 2 ^ 32 ->
    DebugDirectory.Offset dbgDir + DebugDirectory.Size dbgDir
    <= Z.of_nat (List.length (File.Content file)) ->
    readDebugData file dbgDir =
    Ok (firstn (Z.to_nat (DebugDirectory.Size dbgDir))
          (skipn (Z.to_nat (DebugDirectory.Offset dbgDir))
             (File.Content file))))).
Proof.
  split.
  - intros Hne. unfold readDebugData.
    destruct (Z.eqb_spec (DebugDirectory.RelAddr dbgDir) 0); [contradiction|].
    reflexivity.
  - intros Hz.
    assert (Hs : forall Ops' : FileOps,
              readDebugData (Ops := Ops') file dbgDir =
              slice (File.Content file) (DebugDirectory.Offset dbgDir)
                (wrap 32 (DebugDirectory.Offset dbgDir
                          + DebugDirectory.Size dbgDir))).
    { intros Ops'. unfold readDebugData. rewrite Hz. reflexivity. }
    split; [apply Hs|].
    split; [intros Ops'; now rewrite !Hs|].
    intros H1 H2 H3 H4. rewrite Hs. unfold wrap.
    rewrite Z.mod_small by lia.
    now apply slice_in_range.
Qed.

End DebugAddressing.

Lemma readDebugData_addressing_witness :
  readDebugData sampleImportFile (sampleDebugDir 0 60 4)
  = Ok [x05; x00; x00; x80] /\
  readDebugData sampleImportFile (sampleDebugDir 0x1010 60 4)
  = Ok [x3c; x10; x00; x00] /\
  readDebugData sampleImportFile (sampleDebugDir 0x3000 60 4)
  = Panic (AddressResolutionError 0x3000).
Proof.
  split; [|split].
  - destruct (readDebugData_addressing sampleImportFile (sampleDebugDir 0 60 4))
      as [_ H].
    destruct (H eq_refl) as (_ & _ & H').
    rewrite H' by (vm_compute; congruence). vm_compute. reflexivity.
  - destruct (readDebugData_addressing sampleImportFile
                (sampleDebugDir 0x1010 60 4)) as [H _].
    rewrite H by (vm_compute; congruence). vm_compute. reflexivity.
  - destruct (readDebugData_addressing sampleImportFile
                (sampleDebugDir 0x3000 60 4)) as [H _].
    rewrite H by (vm_compute; congruence). vm_compute. reflexivity.
Defined.

(* ===================================================================== *)
(** * Properties: the address translator *)
(* ===================================================================== *)

Lemma filter_none {A} (f : A -> bool) (l : list A) :
  (forall x, In x l -> f x = false) -> filter f l = [].
Proof.
  induction l as [|a l IH]; intros H; [reflexivity|].
  cbn [filter]. rewrite (H a (or_introl eq_refl)).
  apply IH. intros x Hx. apply H. now right.
Qed.

Lemma filter_unique {A} (f : A -> bool) (l : list A) (i : nat) (x : A) :
  nth_error l i = Some x ->
  f x = true ->
  (forall j y, j <> i -> nth_error l j = Some y -> f y = false) ->
  filter f l = [x].
Proof.
  revert i. induction l as [|a l IH]; intros i Hi Hx Hother.
  - destruct i; discriminate Hi.
  - destruct i as [|i].
    + cbn in Hi. inversion Hi; subst a. cbn [filter]. rewrite Hx.
      f_equal. apply filter_none. intros y Hy.
      apply In_nth_error in Hy as [j Hj].
      apply (Hother (S j) y); [lia | exact Hj].
    + cbn in Hi. cbn [filter].
      rewrite (Hother 0%nat a ltac:(lia) eq_refl).
      apply (IH i Hi Hx). intros j y Hj Hy.
      apply (Hother (S j) y); [lia | exact Hy].
Qed.

Section TranslatorSpec.
Context {D : Decls}.

(** C1.  When exactly one section [i] of the table contains the RVA [r],
    [resolve r len] is the slice of the content of length [len] at file
    offset [DataOffset + (r - VirtualAddress)] of that section, provided
    the range lies within the content and within the section's data on
    disk; otherwise it fails with a truncation error.  When no section
    contains [r] it fails with an address-resolution error. *)
Theorem resolve_spec (sections : list SectionHeader.t) (content : list byte)
  (r len : Z) :
  (forall (i : nat) (s : SectionHeader.t),
     nth_error sections i = Some s ->
     containsRVA s r = true ->
     (forall j s', j <> i -> nth_error sections j = Some s' ->
                   containsRVA s' r = false) ->
     let delta := r - SectionHeader.RelAddr s in
     let offset := SectionHeader.DataOffset s + delta in
     (offset + len <= Z.of_nat (List.length content) ->
      delta + len <= SectionHeader.DataSize s ->
      resolve sections content r len
      = Ok (firstn (Z.to_nat len) (skipn (Z.to_nat offset) content)) /\
      (0 <= SectionHeader.DataOffset s -> 0 <= len ->
       resolve sections content r len = slice content offset (offset + len))) /\
     (Z.of_nat (List.length content) < offset + len \/
      SectionHeader.DataSize s < delta + len ->
      resolve sections content r len
      = Err (TruncationError offset len (Z.of_nat (List.length content))))) /\
  ((forall s, In s sections -> containsRVA s r = false) ->
   resolve sections content r len = Err (AddressResolutionError r)).
Proof.
  split.
  - intros i s Hi Hs Hother delta offset.
    pose proof (filter_unique (fun s => containsRVA s r) sections i s
                  Hi Hs Hother) as Hf.
    unfold resolve. rewrite Hf. fold delta. fold offset.
    split.
    + intros H1 H2.
      destruct (Z.leb_spec (offset + len) (Z.of_nat (List.length content))); [|lia].
      destruct (Z.leb_spec (delta + len) (SectionHeader.DataSize s)); [|lia].
      cbn [andb]. split; [reflexivity|].
      intros H3 H4. symmetry. apply slice_in_range; [|assumption|assumption].
      unfold containsRVA in Hs. apply andb_prop in Hs as [Hs _].
      apply Z.leb_le in Hs. subst offset delta. lia.
    + intros H.
      destruct (Z.leb_spec (offset + len) (Z.of_nat (List.length content)));
        destruct (Z.leb_spec (delta + len) (SectionHeader.DataSize s));
        cbn [andb]; try reflexivity; lia.
  - intros Hnone. unfold resolve. rewrite filter_none by assumption.
    reflexivity.
Qed.

(** The translator as the parser calls it: the address is the image base
    plus the RVA, and a failed translation is a panic. *)
Lemma specReadData_resolve (file : File.t) (oh : OptHeader.t) (rva size : Z) :
  File.OptHdr file = Some oh ->
  0 <= OptHeader.ImageBase oh < 2 ^ 64 -> 0 <= rva < 2 ^ 64 ->
  specReadData file (wrap 64 (OptHeader.ImageBase oh + rva)) size =
  match resolve (File.SectHdrs file) (File.Content file) rva size with
  | Err e => Panic e
  | res => res
  end.
Proof.
  intros Hoh Hb Hr. unfold specReadData. rewrite Hoh. unfold wrap.
  rewrite Zminus_mod_idemp_l.
  replace (OptHeader.ImageBase oh + rva - OptHeader.ImageBase oh) with rva by lia.
  rewrite Z.mod_small by lia. reflexivity.
Qed.

End TranslatorSpec.

Lemma resolve_spec_witness :
  resolve (File.SectHdrs sampleImportFile) (File.Content sampleImportFile)
          0x103C 4 = Ok [x05; x00; x00; x80] /\
  resolve (File.SectHdrs sampleImportFile) (File.Content sampleImportFile)
          0x103C 12 = Err (TruncationError 60 12 68) /\
  resolve (File.SectHdrs sampleImportFile) (File.Content sampleImportFile)
          0x3000 4 = Err (AddressResolutionError 0x3000).
Proof.
  destruct (resolve_spec (File.SectHdrs sampleImportFile)
              (File.Content sampleImportFile) 0x103C 4) as [H1 _].
  destruct (resolve_spec (File.SectHdrs sampleImportFile)
              (File.Content sampleImportFile) 0x103C 12) as [H2 _].
  destruct (resolve_spec (File.SectHdrs sampleImportFile)
              (File.Content sampleImportFile) 0x3000 4) as [_ H3].
  assert (Hother : forall (j : nat) (s' : SectionHeader.t),
             j <> 0%nat ->
             nth_error (File.SectHdrs sampleImportFile) j = Some s' ->
             containsRVA s' 0x103C = false).
  { intros [|[|j]] s' Hj Hn; [congruence | discriminate Hn | discriminate Hn]. }
  split; [|split].
  - destruct (H1 0%nat _ eq_refl ltac:(vm_compute; reflexivity) Hother)
      as [Hin _].
    destruct (Hin ltac:(vm_compute; congruence) ltac:(vm_compute; congruence))
      as [Hok _].
    rewrite Hok. vm_compute. reflexivity.
  - destruct (H2 0%nat _ eq_refl ltac:(vm_compute; reflexivity) Hother)
      as [_ Hout].
    rewrite Hout by (left; vm_compute; reflexivity).
    vm_compute. reflexivity.
  - apply H3. intros s [<-|[]]. vm_compute. reflexivity.
Defined.

(* ===================================================================== *)
(** * Properties: the header stages of [parse] *)
(* ===================================================================== *)

Lemma readValue_Ok_inv {A} n (dec : list byte -> A) r x r' :
  readValue n dec r = Ok (x, r') ->
  (n <= List.length r)%nat /\ x = dec (firstn n r) /\ r' = skipn n r.
Proof.
  unfold readValue, binaryRead, ReadFull.
  destruct r as [|b r0]; [discriminate|].
  destruct (Nat.leb_spec n (List.length (b :: r0))) as [Hle|Hlt]; [|discriminate].
  cbn [bind]. intros Hx. inversion Hx. auto.
Qed.

(** [readN] reads [count] consecutive records of [n] bytes, in order. *)
Lemma readN_spec {A} count n (dec : list byte -> A) r xs r' :
  readN count n dec r = Ok (xs, r') ->
  xs = map (fun i => dec (firstn n (skipn (n * i) r))) (seq 0 count) /\
  r' = skipn (n * count) r.
Proof.
  revert r xs r'. induction count as [|count IH]; intros r xs r'.
  - cbn [readN]. intros H. inversion H. cbn [seq map].
    now rewrite Nat.mul_0_r.
  - cbn [readN].
    destruct (readValue n dec r) as [[x r1]| | |] eqn:E; try discriminate.
    apply readValue_Ok_inv in E as (_ & Hx & Hr1). cbn [bind].
    destruct (readN count n dec r1) as [[xs' r2]| | |] eqn:E2; try discriminate.
    cbn [bind]. intros H. inversion H. subst xs r'.
    apply IH in E2 as [Hxs Hr2]. subst.
    split.
    + cbn [seq map]. rewrite Nat.mul_0_r, skipn_O. f_equal.
      rewrite <- seq_shift, map_map. apply map_ext. intros i.
      rewrite skipn_skipn. do 3 f_equal. lia.
    + rewrite skipn_skipn. f_equal. lia.
Qed.

Lemma readN_length {A} count n (dec : list byte -> A) r xs r' :
  readN count n dec r = Ok (xs, r') -> List.length xs = count.
Proof.
  intros H. apply readN_spec in H as [-> _].
  now rewrite length_map, length_seq.
Qed.

Section ParseStages.
Context {D : Decls} {Ops : FileOps}.

Lemma parseDataDir_sameHeaders fuel file idx dataDir file' :
  parseDataDir fuel file idx dataDir = Ok file' -> sameHeaders file file'.
Proof.
  unfold parseDataDir, sameHeaders.
  destruct (DataDirectory.eqb dataDir DataDirectory.zero).
  { intros H. inversion H. repeat split. }
  do 16 (destruct idx as [|idx]; [
    try discriminate;
    try (intros H; inversion H; repeat split; fail);
    match goal with
    | |- bind ?m _ = _ -> _ =>
        destruct m; try discriminate; cbn [bind];
        intros H; inversion H; repeat split
    end |]).
  discriminate.
Qed.

Lemma parseDataDirsContent_loop_sameHeaders fuel dataDirs :
  forall file idx file',
  parseDataDirsContent_loop fuel file idx dataDirs = Ok file' ->
  sameHeaders file file'.
Proof.
  induction dataDirs as [|d dataDirs IH]; intros file idx file'.
  - cbn. intros H. inversion H. repeat split.
  - cbn [parseDataDirsContent_loop].
    destruct (parseDataDir fuel file idx d) as [f1| | |] eqn:E; try discriminate.
    cbn [bind]. intros H. apply IH in H.
    apply parseDataDir_sameHeaders in E.
    unfold sameHeaders in *. intuition congruence.
Qed.

Lemma parseFileHeader_inv content fh r :
  parseFileHeader content = Ok (fh, r) ->
  0 <= FileHeader.NSections fh /\
  r = skipn (Z.to_nat (le (firstn 4 (skipn 0x3C content))) + 24) content.
Proof.
  unfold parseFileHeader.
  destruct (fst (binaryRead 4 le (firstn 4 (skipn 60 content))))
    as [offset| | |] eqn:E; try discriminate.
  apply binaryRead_Ok_inv in E as [Hl Hoff]. cbn [bind].
  rewrite firstn_firstn in Hoff. cbn [Nat.min] in Hoff.
  destruct (readValue 4 (fun bs => bs) _) as [[sig r1]| | |] eqn:E1;
    try discriminate.
  apply readValue_Ok_inv in E1 as (_ & _ & Hr1). cbn [bind].
  destruct (negb (bytesEqual signature sig)); [discriminate|].
  destruct (readValue RawFileHeader.size RawFileHeader.decode r1)
    as [[raw r2]| | |] eqn:E2; try discriminate.
  apply readValue_Ok_inv in E2 as (_ & Hraw & Hr2). cbn [bind].
  intros H. inversion H. subst fh r. split.
  - subst raw. unfold goFileHeader, RawFileHeader.decode, runDec, dbind, dret,
      uint16, uint32, uint.
    cbn [fst FileHeader.NSections RawFileHeader.NSections]. apply le_nonneg.
  - subst r2 r1 offset. unfold RawFileHeader.size.
    rewrite !skipn_skipn. f_equal. lia.
Qed.

Lemma parseOptHeader_inv r oh r' :
  parseOptHeader r = Ok (oh, r') ->
  0 <= OptHeader.NDataDirs oh /\ r' = skipn (2 + optBodySize oh) r.
Proof.
  unfold parseOptHeader.
  destruct (readValue 2 le r) as [[magic r1]| | |] eqn:E; try discriminate.
  apply readValue_Ok_inv in E as (_ & _ & Hr1). cbn [bind].
  destruct (Z.eqb_spec magic magic32) as [E32|E32];
    [|destruct (Z.eqb_spec magic magic64) as [E64|E64]; [|discriminate]].
  - destruct (readValue RawOptHeader32.size RawOptHeader32.decode r1)
      as [[raw r2]| | |] eqn:E2; try discriminate.
    apply readValue_Ok_inv in E2 as (_ & Hraw & Hr2). cbn [bind].
    intros H. inversion H. subst oh r'. split.
    + subst raw. unfold goOptHeader32, RawOptHeader32.decode, runDec, dbind,
        dret, uint8, uint16, uint32, uint.
      cbn [fst OptHeader.NDataDirs RawOptHeader32.NDataDirs]. apply le_nonneg.
    + unfold optBodySize. cbn [goOptHeader32 OptHeader.Magic].
      rewrite E32. cbn [Z.eqb magic32 Pos.eqb].
      subst r2 r1. rewrite skipn_skipn. f_equal; lia.
  - destruct (readValue RawOptHeader64.size RawOptHeader64.decode r1)
      as [[raw r2]| | |] eqn:E2; try discriminate.
    apply readValue_Ok_inv in E2 as (_ & Hraw & Hr2). cbn [bind].
    intros H. inversion H. subst oh r'. split.
    + subst raw. unfold goOptHeader64, RawOptHeader64.decode, runDec, dbind,
        dret, uint8, uint16, uint32, uint64, uint.
      cbn [fst OptHeader.NDataDirs RawOptHeader64.NDataDirs]. apply le_nonneg.
    + unfold optBodySize. cbn [goOptHeader64 OptHeader.Magic].
      rewrite E64. cbn [Z.eqb magic32 magic64 Pos.eqb].
      subst r2 r1. rewrite skipn_skipn. f_equal; lia.
Qed.

(** C9.  After a successful parse the data directory table has exactly
    [NDataDirs] entries and the section table exactly [NSections] entries
    (both counts as the decoded headers give them), and the section
    headers are the consecutive 40-byte records that follow the data
    directories in the file, in file order. *)
Theorem parse_table_lengths (fuel : nat) (content : list byte) (file : File.t) :
  parse fuel content = Ok file ->
  exists fh oh,
    File.FileHdr file = Some fh /\ File.OptHdr file = Some oh /\
    File.Content file = content /\
    Z.of_nat (List.length (File.DataDirs file)) = OptHeader.NDataDirs oh /\
    Z.of_nat (List.length (File.SectHdrs file)) = FileHeader.NSections fh /\
    File.DataDirs file =
    map (fun i => DataDirectory.decode
                    (firstn 8 (skipn (dataDirsOffset content oh + 8 * i) content)))
        (seq 0 (Z.to_nat (OptHeader.NDataDirs oh))) /\
    File.SectHdrs file =
    map (fun i => goSectionHeader
                    (RawSectionHeader.decode
                       (firstn 40 (skipn (sectHdrsOffset content oh + 40 * i)
                                     content))))
        (seq 0 (Z.to_nat (FileHeader.NSections fh))).
Proof.
  unfold parse.
  destruct (parseFileHeader content) as [[fh r1]| | |] eqn:E1; try discriminate.
  cbn [bind].
  destruct (parseOptHeader r1) as [[oh r2]| | |] eqn:E2; try discriminate.
  cbn [bind].
  destruct (parseDataDirs _ r2) as [[dataDirs r3]| | |] eqn:E3; try discriminate.
  cbn [bind].
  destruct (parseSectionHdrs _ r3) as [[sectHdrs r4]| | |] eqn:E4;
    try discriminate.
  cbn [bind]. intros Hc.
  apply parseDataDirsContent_loop_sameHeaders in Hc.
  destruct Hc as (HF & HO & HD & HS & HC). cbn in HF, HO, HD, HS, HC.
  apply parseFileHeader_inv in E1 as [Hns Hr1].
  apply parseOptHeader_inv in E2 as [Hnd Hr2].
  unfold parseDataDirs, derefOptHdr in E3.
  cbn [File.setOptHdr File.OptHdr bind] in E3.
  pose proof (readN_length _ _ _ _ _ _ E3) as Hl3.
  apply readN_spec in E3 as [Hd Hr3].
  unfold parseSectionHdrs, derefFileHdr in E4.
  cbn [File.setDataDirs File.setOptHdr File.setFileHdr File.FileHdr bind] in E4.
  destruct (readN _ RawSectionHeader.size RawSectionHeader.decode r3)
    as [[raws r5]| | |] eqn:E5; try discriminate.
  cbn [bind] in E4. inversion E4 as [[Hs4 Hr4]]. clear E4.
  rewrite <- Hs4 in HS. clear Hs4 Hr4.
  pose proof (readN_length _ _ _ _ _ _ E5) as Hl5.
  apply readN_spec in E5 as [Hraws _].
  exists fh, oh.
  rewrite HF, HO, HD, HS, HC.
  split; [reflexivity|]. split; [reflexivity|]. split; [reflexivity|].
  split; [rewrite Hl3; lia|].
  split; [rewrite length_map, Hl5; lia|].
  split.
  - rewrite Hd. apply map_ext. intros i. subst r2 r1.
    rewrite !skipn_skipn. unfold dataDirsOffset, DataDirectory.size.
    do 3 f_equal. lia.
  - rewrite Hraws, map_map. apply map_ext. intros i. subst r3 r2 r1.
    rewrite !skipn_skipn.
    unfold sectHdrsOffset, dataDirsOffset, DataDirectory.size,
      RawSectionHeader.size.
    do 4 f_equal. lia.
Qed.

End ParseStages.

Lemma parse_table_lengths_witness :
  parse 5 sampleImage = Ok sampleParsed /\
  List.length (File.DataDirs sampleParsed) = 2%nat /\
  List.length (File.SectHdrs sampleParsed) = 1%nat /\
  exists fh oh,
    File.FileHdr sampleParsed = Some fh /\
    File.OptHdr sampleParsed = Some oh /\
    Z.of_nat (List.length (File.DataDirs sampleParsed)) = OptHeader.NDataDirs oh /\
    Z.of_nat (List.length (File.SectHdrs sampleParsed)) = FileHeader.NSections fh.
Proof.
  assert (E : parse 5 sampleImage = Ok sampleParsed)
    by (vm_compute; reflexivity).
  split; [exact E|].
  split; [reflexivity|]. split; [reflexivity|].
  destruct (parse_table_lengths 5 sampleImage sampleParsed E)
    as (fh & oh & HF & HO & _ & HD & HS & _ & _).
  exists fh, oh. repeat split; assumption.
Defined.

(* ===================================================================== *)
(** * Properties: the label tables *)
(* ===================================================================== *)

Lemma fmtd_injective (a b : Z) :
  0 <= a -> 0 <= b -> fmtd a = fmtd b -> a = b.
Proof.
  unfold fmtd. intros Ha Hb H.
  assert (Hn : forall n, N.to_uint n <> Decimal.Nil).
  { intros [|p]; [discriminate|]. cbn.
    apply DecimalPos.Unsigned.to_uint_nonnil. }
  assert (E : Some (N.to_uint (Z.to_N a)) = Some (N.to_uint (Z.to_N b))).
  { rewrite <- (NilZero.usu _ (Hn (Z.to_N a))),
            <- (NilZero.usu _ (Hn (Z.to_N b))).
    now rewrite H. }
  inversion E as [E'].
  apply (f_equal N.of_uint) in E'.
  rewrite !DecimalN.Unsigned.of_to in E'. lia.
Qed.

Lemma prefix_append (p s : string) : prefix p (p ++ s) = true.
Proof.
  induction p as [|c p IH]; cbn; [now destruct s|].
  destruct (ascii_dec c c); [exact IH | contradiction].
Qed.

Lemma append_injective_r (p s t : string) :
  (p ++ s)%string = (p ++ t)%string -> s = t.
Proof.
  induction p as [|c p IH]; cbn; [auto|]. intros H. inversion H. auto.
Qed.

Lemma length_append (s t : string) :
  String.length (s ++ t) = (String.length s + String.length t)%nat.
Proof. induction s as [|c s IH]; cbn; [reflexivity | now rewrite IH]. Qed.

Lemma append_injective_l (s t e : string) :
  (s ++ e)%string = (t ++ e)%string -> s = t.
Proof.
  revert t. induction s as [|c s IH]; intros [|d t] H; cbn in H.
  - reflexivity.
  - apply (f_equal String.length) in H. cbn in H.
    rewrite length_append in H. lia.
  - apply (f_equal String.length) in H. cbn in H.
    rewrite length_append in H. lia.
  - inversion H. f_equal. auto.
Qed.

Lemma mapLookup_In m k v : mapLookup m k = Some v -> In (k, v) m.
Proof.
  induction m as [|[k' v'] m IH]; cbn; [discriminate|].
  destruct (Z.eqb_spec k k') as [->|Hne].
  - intros H. inversion H. now left.
  - intros H. right. auto.
Qed.

Lemma labelsDistinct_spec m p q :
  labelsDistinct m = true -> In p m -> In q m -> snd p = snd q -> fst p = fst q.
Proof.
  unfold labelsDistinct. intros H Hp Hq E.
  rewrite forallb_forall in H. specialize (H p Hp).
  rewrite forallb_forall in H. specialize (H q Hq).
  rewrite E, String.eqb_refl in H. cbn in H. now apply Z.eqb_eq.
Qed.

(** Injectivity of a stringer method, from three facts about its table. *)
Lemma stringer_injective (m : list (Z * string)) (tag : string) (i j : Z) :
  labelsDistinct m = true ->
  forallb (fun p => negb (prefix tag (snd p))) m = true ->
  0 <= i -> 0 <= j ->
  match mapLookup m i with
  | Some str => str
  | None => (tag ++ FormatInt10 i ++ ")")%string
  end =
  match mapLookup m j with
  | Some str => str
  | None => (tag ++ FormatInt10 j ++ ")")%string
  end ->
  i = j.
Proof.
  intros Hd Hp Hi Hj.
  rewrite forallb_forall in Hp.
  destruct (mapLookup m i) as [si|] eqn:Ei;
    destruct (mapLookup m j) as [sj|] eqn:Ej; intros H.
  - apply mapLookup_In in Ei, Ej.
    apply (labelsDistinct_spec m (i, si) (j, sj) Hd Ei Ej H).
  - apply mapLookup_In in Ei. specialize (Hp _ Ei). cbn in Hp.
    rewrite H, prefix_append in Hp. discriminate Hp.
  - apply mapLookup_In in Ej. specialize (Hp _ Ej). cbn in Hp.
    rewrite <- H, prefix_append in Hp. discriminate Hp.
  - apply append_injective_r, append_injective_l in H.
    unfold FormatInt10 in H.
    destruct (Z.ltb_spec i 0); [lia|]. destruct (Z.ltb_spec j 0); [lia|].
    now apply fmtd_injective.
Qed.

(** X1.  [SectionFlag.String] never gives two different flag values the
    same text: the labels of the table are pairwise different, none of them
    looks like the fallback text, and the fallback prints the value in
    decimal. *)
Theorem SectionFlag_String_injective (i j : Z) :
  0 <= i -> 0 <= j ->
  SectionFlag_String i = SectionFlag_String j -> i = j.
Proof.
  intros Hi Hj. unfold SectionFlag_String.
  apply stringer_injective; try assumption; vm_compute; reflexivity.
Qed.

Lemma SectionFlag_String_injective_witness :
  SectionFlag_String 32 = "ContainsCode"%string /\
  SectionFlag_String 3 = "SectionFlag(3)"%string /\
  (SectionFlag_String 32 = SectionFlag_String 3 -> 32 = 3).
Proof.
  split; [vm_compute; reflexivity|]. split; [vm_compute; reflexivity|].
  apply (SectionFlag_String_injective 32 3); lia.
Defined.

(** X2.  [Characteristic.String] never gives two different values the
    same text. *)
Theorem Characteristic_String_injective (i j : Z) :
  0 <= i -> 0 <= j ->
  Characteristic_String i = Characteristic_String j -> i = j.
Proof.
  intros Hi Hj. unfold Characteristic_String.
  apply stringer_injective; try assumption; vm_compute; reflexivity.
Qed.

Lemma Characteristic_String_injective_witness :
  Characteristic_String 8192 = "DLL"%string /\
  Characteristic_String 3 = "Characteristic(3)"%string /\
  (Characteristic_String 8192 = Characteristic_String 3 -> 8192 = 3).
Proof.
  split; [vm_compute; reflexivity|]. split; [vm_compute; reflexivity|].
  apply (Characteristic_String_injective 8192 3); lia.
Defined.

(* ===================================================================== *)
(** * Properties: truncated and malformed headers *)
(* ===================================================================== *)

Lemma readValue_short {A} n (dec : list byte -> A) r :
  (List.length r < n)%nat -> readValue n dec r = Err (shortRead r).
Proof.
  intros Hl. unfold readValue.
  destruct r as [|b r0].
  - now rewrite binaryRead_empty.
  - rewrite binaryRead_short by (try discriminate; assumption). reflexivity.
Qed.

Lemma bytesEqual_eq (a b : list byte) : bytesEqual a b = true <-> a = b.
Proof.
  revert b. induction a as [|x a IH]; intros [|y b]; cbn;
    try (split; [discriminate | discriminate || reflexivity]); try tauto.
  rewrite andb_true_iff, IH. split.
  - intros [H1 ->]. apply Byte.byte_dec_bl in H1. now subst.
  - intros H. inversion H. split; [now apply Byte.byte_dec_lb | reflexivity].
Qed.

Lemma readN_enough {A} count n (dec : list byte -> A) r :
  (0 < n)%nat -> (n * count <= List.length r)%nat ->
  readN count n dec r =
  Ok (map (fun i => dec (firstn n (skipn (n * i) r))) (seq 0 count),
      skipn (n * count) r).
Proof.
  intros Hn. revert r. induction count as [|count IH]; intros r Hl.
  - cbn [readN seq map]. now rewrite Nat.mul_0_r.
  - cbn [readN]. rewrite readValue_ok by lia. cbn [bind].
    rewrite IH by (rewrite length_skipn; lia). cbn [bind seq map].
    rewrite Nat.mul_0_r, skipn_O, skipn_skipn. do 2 f_equal.
    + f_equal. rewrite <- seq_shift, map_map. apply map_ext. intros i.
      rewrite skipn_skipn. do 3 f_equal. lia.
    + f_equal. lia.
Qed.

Lemma readN_exhausted {A} count n (dec : list byte -> A) r :
  (0 < n)%nat -> (List.length r < n * count)%nat ->
  readN count n dec r = Err (exhausted n r).
Proof.
  intros Hn. revert r. induction count as [|count IH]; intros r Hl; [lia|].
  cbn [readN]. destruct (Nat.le_gt_cases n (List.length r)) as [Hge|Hlt].
  - rewrite readValue_ok by lia. cbn [bind].
    rewrite IH by (rewrite length_skipn; lia). cbn [bind].
    unfold exhausted. rewrite length_skipn.
    replace (List.length r) with ((List.length r - n) + 1 * n)%nat at 2 by lia.
    now rewrite Nat.Div0.mod_add.
  - rewrite readValue_short by assumption. cbn [bind]. unfold exhausted.
    destruct r as [|b r0]; [now rewrite Nat.Div0.mod_0_l|].
    rewrite Nat.mod_small by assumption. reflexivity.
Qed.

Section Headers.
Context {D : Decls} {Ops : FileOps}.

(** X3.  A content that ends before the pointer at offset 0x3C is complete
    is refused without a panic: with EOF when no byte of the pointer is
    there, with unexpected EOF when only a part of it is. *)
Theorem parseFileHeader_short (content : list byte) :
  ((List.length content <= 0x3C)%nat -> parseFileHeader content = Err EOF) /\
  ((0x3C < List.length content < 0x40)%nat ->
   parseFileHeader content = Err ErrUnexpectedEOF).
Proof.
  unfold parseFileHeader.
  split; intros Hl.
  - rewrite skipn_all2 by exact Hl. reflexivity.
  - rewrite binaryRead_short.
    + reflexivity.
    + intros E. apply (f_equal (@List.length byte)) in E.
      rewrite length_firstn, length_skipn in E. cbn [List.length] in E. lia.
    + rewrite length_firstn, length_skipn. lia.
Qed.

(** X4.  With the pointer complete, [parseFileHeader] goes to the file
    offset it holds: fewer than 4 bytes there is an EOF error, 4 bytes
    other than the signature is the signature error that carries the
    expected and the found bytes, the signature with fewer than 20 bytes
    after it is an EOF error, and otherwise the result is the header decoded
    from the 20 bytes after the signature, with the reader left after
    them. *)
Theorem parseFileHeader_cases (content : list byte) :
  (0x40 <= List.length content)%nat ->
  let p := Z.to_nat (le (firstn 4 (skipn 0x3C content))) in
  let rest := skipn p content in
  ((List.length rest < 4)%nat ->
   parseFileHeader content = Err (shortRead rest)) /\
  ((4 <= List.length rest)%nat -> firstn 4 rest <> signature ->
   parseFileHeader content
   = Err (Errorf "invalid PE signature; expected %q, got %q"
                 [BytesArg signature; BytesArg (firstn 4 rest)])) /\
  (firstn 4 rest = signature -> (List.length rest < 24)%nat ->
   parseFileHeader content = Err (shortRead (skipn 4 rest))) /\
  (firstn 4 rest = signature -> (24 <= List.length rest)%nat ->
   parseFileHeader content
   = Ok (goFileHeader (RawFileHeader.decode (firstn 20 (skipn 4 rest))),
         skipn 24 rest)).
Proof.
  intros Hl p rest.
  assert (Hsr : fst (binaryRead 4 le (firstn 4 (skipn 60 content)))
                = Ok (le (firstn 4 (skipn 60 content)))).
  { rewrite binaryRead_ok
      by (rewrite ?length_firstn, ?length_skipn; lia).
    cbn [fst]. now rewrite firstn_firstn. }
  assert (Hsig : forall s, firstn 4 rest = s -> (List.length s = 4)%nat ->
                   (4 <= List.length rest)%nat).
  { intros s E Hs. rewrite <- E, length_firstn in Hs. lia. }
  unfold parseFileHeader. change (Pos.to_nat 60) with 60%nat.
  rewrite Hsr. cbn [bind]. fold p. fold rest.
  split; [|split; [|split]].
  - intros H4. now rewrite readValue_short.
  - intros H4 Hne. rewrite readValue_ok by lia. cbn [bind].
    destruct (bytesEqual signature (firstn 4 rest)) eqn:E; [|reflexivity].
    apply bytesEqual_eq in E. congruence.
  - intros E H24. pose proof (Hsig _ E eq_refl) as H4.
    rewrite readValue_ok by lia. cbn [bind].
    rewrite E. cbn [bytesEqual Byte.eqb andb negb].
    replace (bytesEqual signature signature) with true
      by (symmetry; now apply bytesEqual_eq).
    cbn [negb]. rewrite readValue_short
      by (unfold RawFileHeader.size; rewrite length_skipn; lia).
    reflexivity.
  - intros E H24. rewrite readValue_ok by lia. cbn [bind].
    rewrite E.
    replace (bytesEqual signature signature) with true
      by (symmetry; now apply bytesEqual_eq).
    cbn [negb]. rewrite readValue_ok
      by (unfold RawFileHeader.size; rewrite ?length_skipn; lia).
    cbn [bind]. unfold RawFileHeader.size. rewrite skipn_skipn.
    reflexivity.
Qed.

End Headers.

Lemma parseFileHeader_short_witness :
  parseFileHeader [] = Err EOF /\
  parseFileHeader (repeat x00 0x3E) = Err ErrUnexpectedEOF.
Proof.
  split.
  - apply (proj1 (parseFileHeader_short [])). cbn. lia.
  - apply (proj2 (parseFileHeader_short (repeat x00 0x3E))).
    rewrite repeat_length. lia.
Defined.

Lemma parseFileHeader_cases_witness :
  parseFileHeader (repeat x00 0x44)
  = Err (Errorf "invalid PE signature; expected %q, got %q"
                [BytesArg signature; BytesArg [x00; x00; x00; x00]]) /\
  FileHeader.NSections (fst (match parseFileHeader sampleImage with
                             | Ok x => x
                             | _ => (goFileHeader (RawFileHeader.decode []), [])
                             end)) = 1.
Proof.
  split.
  - destruct (parseFileHeader_cases (repeat x00 0x44)
                ltac:(rewrite repeat_length; lia)) as (_ & H & _ & _).
    rewrite H; [reflexivity | vm_compute; lia | vm_compute; discriminate].
  - destruct (parseFileHeader_cases sampleImage ltac:(vm_compute; lia))
      as (_ & _ & _ & H).
    rewrite H; [vm_compute; reflexivity | vm_compute; reflexivity
               | vm_compute; lia].
Defined.

Section HeaderTables.
Context {D : Decls} {Ops : FileOps}.

(** X5.  An optional header that is cut short is an error, never a header
    filled with zeroes: a reader with fewer than 2 bytes fails on the magic
    value, and a body shorter than the 94 bytes of the 32-bit layout or the
    110 bytes of the 64-bit layout fails with EOF (nothing left) or
    unexpected EOF. *)
Theorem parseOptHeader_truncated (r : Reader) :
  ((List.length r < 2)%nat -> parseOptHeader r = Err (shortRead r)) /\
  (forall m0 m1 body,
     r = m0 :: m1 :: body ->
     (le [m0; m1] = magic32 /\ (List.length body < 94)%nat) \/
     (le [m0; m1] = magic64 /\ (List.length body < 110)%nat) ->
     parseOptHeader r = Err (shortRead body)).
Proof.
  split.
  - intros Hl. unfold parseOptHeader. now rewrite readValue_short.
  - intros m0 m1 body -> H. unfold parseOptHeader.
    rewrite readValue_ok by (cbn [List.length]; lia).
    cbn [bind firstn skipn].
    destruct H as [[E Hl]|[E Hl]]; rewrite E.
    + cbn [Z.eqb magic32 Pos.eqb].
      now rewrite readValue_short.
    + cbn [Z.eqb magic32 magic64 Pos.eqb].
      now rewrite readValue_short.
Qed.

(** X6.  [parseDataDirs] succeeds exactly when the reader holds the
    [NDataDirs] records of 8 bytes: it then returns them in order and
    leaves the reader after them; on a shorter reader it fails, with EOF
    when the bytes end on a record boundary and unexpected EOF otherwise.
    It never pads the table. *)
Theorem parseDataDirs_enough (file : File.t) (oh : OptHeader.t) (r : Reader) :
  File.OptHdr file = Some oh ->
  let n := Z.to_nat (OptHeader.NDataDirs oh) in
  ((8 * n <= List.length r)%nat ->
   parseDataDirs file r =
   Ok (map (fun i => DataDirectory.decode (firstn 8 (skipn (8 * i) r)))
           (seq 0 n),
       skipn (8 * n) r)) /\
  ((List.length r < 8 * n)%nat ->
   parseDataDirs file r = Err (exhausted 8 r)).
Proof.
  intros Hoh n. unfold parseDataDirs, derefOptHdr. rewrite Hoh. cbn [bind].
  fold n. unfold DataDirectory.size. split; intros Hl.
  - apply readN_enough; [lia | assumption].
  - apply readN_exhausted; [lia | assumption].
Qed.

(** X7.  [parseSectionHdrs] succeeds exactly when the reader holds the
    [NSections] records of 40 bytes, which it converts in order; on a
    shorter reader it fails with EOF or unexpected EOF and returns no
    partial table. *)
Theorem parseSectionHdrs_enough (file : File.t) (fh : FileHeader.t)
  (r : Reader) :
  File.FileHdr file = Some fh ->
  let n := Z.to_nat (FileHeader.NSections fh) in
  ((40 * n <= List.length r)%nat ->
   parseSectionHdrs file r =
   Ok (map (fun i => goSectionHeader
                       (RawSectionHeader.decode (firstn 40 (skipn (40 * i) r))))
           (seq 0 n),
       skipn (40 * n) r)) /\
  ((List.length r < 40 * n)%nat ->
   parseSectionHdrs file r = Err (exhausted 40 r)).
Proof.
  intros Hfh n. unfold parseSectionHdrs, derefFileHdr. rewrite Hfh.
  cbn [bind]. fold n. unfold RawSectionHeader.size. split; intros Hl.
  - rewrite readN_enough by (lia || assumption). cbn [bind].
    now rewrite map_map.
  - rewrite readN_exhausted by (lia || assumption). reflexivity.
Qed.

End HeaderTables.

Lemma parseOptHeader_truncated_witness :
  parseOptHeader [x0b] = Err ErrUnexpectedEOF /\
  parseOptHeader [x0b; x01] = Err EOF /\
  parseOptHeader (x0b :: x02 :: repeat x00 94) = Err ErrUnexpectedEOF.
Proof.
  split; [|split].
  - apply (proj1 (parseOptHeader_truncated [x0b])). cbn. lia.
  - apply (proj2 (parseOptHeader_truncated [x0b; x01]) x0b x01 [] eq_refl).
    left. split; [reflexivity | cbn; lia].
  - apply (proj2 (parseOptHeader_truncated (x0b :: x02 :: repeat x00 94))
             x0b x02 (repeat x00 94) eq_refl).
    right. split; [reflexivity | rewrite repeat_length; lia].
Defined.

Lemma parseDataDirs_enough_witness :
  parseDataDirs sampleImportFile (encLE 4 0x1000 ++ encLE 4 60 ++ repeat x00 120)
  = Ok (DataDirectory.mk 0x1000 60 :: repeat DataDirectory.zero 15, []) /\
  parseDataDirs sampleImportFile (repeat x00 20) = Err ErrUnexpectedEOF /\
  parseDataDirs sampleImportFile (repeat x00 16) = Err EOF.
Proof.
  pose proof (fun r => parseDataDirs_enough sampleImportFile sampleOptHdr r
                         eq_refl) as H.
  split; [|split].
  - rewrite (proj1 (H _)) by (vm_compute; lia). vm_compute. reflexivity.
  - rewrite (proj2 (H _)) by (vm_compute; lia). vm_compute. reflexivity.
  - rewrite (proj2 (H _)) by (vm_compute; lia). vm_compute. reflexivity.
Defined.

Lemma parseSectionHdrs_enough_witness :
  (exists s, parseSectionHdrs sampleParsed (skipn 0xC8 sampleImage)
             = Ok ([s], skipn 0xF0 sampleImage)) /\
  parseSectionHdrs sampleParsed (repeat x00 39) = Err ErrUnexpectedEOF /\
  parseSectionHdrs sampleParsed [] = Err EOF.
Proof.
  assert (Hfh : exists fh, File.FileHdr sampleParsed = Some fh /\
                           Z.to_nat (FileHeader.NSections fh) = 1%nat).
  { eexists. split; [reflexivity | vm_compute; reflexivity]. }
  destruct Hfh as (fh & Hfh & Hn).
  pose proof (fun r => parseSectionHdrs_enough sampleParsed fh r Hfh) as H.
  cbv zeta in H. rewrite Hn in H.
  split; [|split].
  - eexists. rewrite (proj1 (H _)) by (vm_compute; lia).
    vm_compute. reflexivity.
  - rewrite (proj2 (H _)) by (vm_compute; lia). vm_compute. reflexivity.
  - rewrite (proj2 (H _)) by (vm_compute; lia). vm_compute. reflexivity.
Defined.

(* ===================================================================== *)
(** * Properties: the dispatcher beyond the indices without a decoder *)
(* ===================================================================== *)

Lemma invalidIndex_message (idx : nat) :
  Error_string
    (Errorf "invalid data directory index; expected < 16, got %d"
            [IntArg (Z.of_nat idx)])
  = Some ("invalid data directory index; expected < 16, got "
          ++ fmtd (Z.of_nat idx))%string.
Proof.
  unfold Error_string. generalize (Z.of_nat idx) as z. intros z.
  cbv -[fmtd String.append]. now rewrite append_empty.
Qed.

Section DispatcherMore.
Context {D : Decls} {Ops : FileOps}.

(** X8.  The resource table (index 2) and the import address table
    (index 12) are accepted and ignored whatever they hold: the round
    returns the file unchanged and the loop goes on to the next index. *)
Theorem parseDataDir_ignored (fuel : nat) (file : File.t) (idx : nat)
  (dataDir : DataDirectory.t) (rest : list DataDirectory.t) :
  idx = 2%nat \/ idx = 12%nat ->
  parseDataDir fuel file idx dataDir = Ok file /\
  parseDataDirsContent_loop fuel file idx (dataDir :: rest)
  = parseDataDirsContent_loop fuel file (S idx) rest.
Proof.
  intros Hidx.
  assert (H : parseDataDir fuel file idx dataDir = Ok file).
  { unfold parseDataDir.
    destruct (DataDirectory.eqb dataDir DataDirectory.zero); [reflexivity|].
    destruct Hidx as [-> | ->]; reflexivity. }
  split; [exact H|]. cbn [parseDataDirsContent_loop]. now rewrite H.
Qed.

(** X9.  A directory table longer than 16 entries is only accepted when
    the entries from index 16 on are empty: a populated entry there makes
    the round panic with the error that names the index, an empty one is
    skipped. *)
Theorem parseDataDir_invalidIndex (fuel : nat) (file : File.t) (idx : nat)
  (dataDir : DataDirectory.t) :
  (16 <= idx)%nat ->
  (populated dataDir ->
   parseDataDir fuel file idx dataDir
   = Panic (Errorf "invalid data directory index; expected < 16, got %d"
                   [IntArg (Z.of_nat idx)]) /\
   Error_string
     (Errorf "invalid data directory index; expected < 16, got %d"
             [IntArg (Z.of_nat idx)])
   = Some ("invalid data directory index; expected < 16, got "
           ++ fmtd (Z.of_nat idx))%string) /\
  (~ populated dataDir -> parseDataDir fuel file idx dataDir = Ok file).
Proof.
  intros Hidx. split.
  - intros Hp. split; [|apply invalidIndex_message].
    apply DataDirectory_eqb_zero in Hp. unfold parseDataDir. rewrite Hp.
    do 16 (destruct idx as [|idx]; [lia|]). reflexivity.
  - intros Hn. unfold parseDataDir.
    destruct (DataDirectory.eqb dataDir DataDirectory.zero) eqn:E;
      [reflexivity|].
    apply DataDirectory_eqb_zero in E. contradiction.
Qed.

(** What a round may write: the imports at index 1, the relocation blocks
    at index 5, the debug data at index 6, and nothing else. *)
Lemma parseDataDir_writes fuel file idx dataDir file' :
  parseDataDir fuel file idx dataDir = Ok file' ->
  (idx <> 1%nat -> File.Imps file' = File.Imps file) /\
  (idx <> 5%nat -> File.BaseRelocBlocks file' = File.BaseRelocBlocks file) /\
  (idx <> 6%nat -> File.DbgData file' = File.DbgData file) /\
  (DataDirectory.eqb dataDir DataDirectory.zero = true -> file' = file).
Proof.
  unfold parseDataDir.
  destruct (DataDirectory.eqb dataDir DataDirectory.zero).
  { intros H. inversion H. repeat split. }
  do 16 (destruct idx as [|idx]; [
    try discriminate;
    try (intros H; inversion H; repeat split; congruence);
    match goal with
    | |- bind ?m _ = _ -> _ =>
        destruct m; try discriminate; cbn [bind];
        intros H; inversion H; repeat split; (congruence || discriminate)
    end |]).
  discriminate.
Qed.

Lemma parseDataDirsContent_loop_writes fuel dataDirs :
  forall file idx file',
  parseDataDirsContent_loop fuel file idx dataDirs = Ok file' ->
  forall empty : nat -> Prop,
  (forall k, empty k <->
     ((idx <= k)%nat -> emptyEntry dataDirs (k - idx))) ->
  (empty 1%nat -> File.Imps file' = File.Imps file) /\
  (empty 5%nat -> File.BaseRelocBlocks file' = File.BaseRelocBlocks file) /\
  (empty 6%nat -> File.DbgData file' = File.DbgData file).
Proof.
  induction dataDirs as [|d dataDirs IH]; intros file idx file'.
  - cbn. intros H. inversion H. repeat split.
  - cbn [parseDataDirsContent_loop].
    destruct (parseDataDir fuel file idx d) as [f1| | |] eqn:E;
      try discriminate.
    cbn [bind]. intros H empty Hempty.
    apply parseDataDir_writes in E as (W1 & W5 & W6 & Wz).
    destruct (IH _ _ _ H
                (fun k => (S idx <= k)%nat -> emptyEntry dataDirs (k - S idx))
                ltac:(intros k; reflexivity)) as (I1 & I5 & I6).
    assert (Hstep : forall k, empty k ->
              ((S idx <= k)%nat -> emptyEntry dataDirs (k - S idx)) /\
              (k = idx -> f1 = file)).
    { intros k Hk0. pose proof (proj1 (Hempty k) Hk0) as Hk. split.
      - intros Hle d0 Hd0. apply (Hk ltac:(lia) d0).
        replace (k - idx)%nat with (S (k - S idx)) by lia. exact Hd0.
      - intros ->. apply Wz. apply (Hk ltac:(lia) d).
        now rewrite Nat.sub_diag. }
    split; [|split]; intros Hk; destruct (Hstep _ Hk) as [Hrest Hhere].
    + rewrite I1 by exact Hrest.
      destruct (Nat.eq_dec idx 1) as [->|Hne];
        [now rewrite Hhere | now apply W1].
    + rewrite I5 by exact Hrest.
      destruct (Nat.eq_dec idx 5) as [->|Hne];
        [now rewrite Hhere | now apply W5].
    + rewrite I6 by exact Hrest.
      destruct (Nat.eq_dec idx 6) as [->|Hne];
        [now rewrite Hhere | now apply W6].
Qed.

(** X10.  A successful dispatch leaves the content, both headers, the
    directory table and the section table as they were, and it writes the
    decoded imports, relocation blocks and debug data only when the entry
    at index 1, 5 respectively 6 is populated. *)
Theorem parseDataDirsContent_writes (fuel : nat) (file file' : File.t) :
  parseDataDirsContent fuel file = Ok file' ->
  let empty := emptyEntry (File.DataDirs file) in
  File.Content file' = File.Content file /\
  File.FileHdr file' = File.FileHdr file /\
  File.OptHdr file' = File.OptHdr file /\
  File.DataDirs file' = File.DataDirs file /\
  File.SectHdrs file' = File.SectHdrs file /\
  (empty 1%nat -> File.Imps file' = File.Imps file) /\
  (empty 5%nat -> File.BaseRelocBlocks file' = File.BaseRelocBlocks file) /\
  (empty 6%nat -> File.DbgData file' = File.DbgData file).
Proof.
  intros H. cbv zeta. unfold parseDataDirsContent in H.
  set (empty := emptyEntry (File.DataDirs file)).
  pose proof (parseDataDirsContent_loop_sameHeaders _ _ _ _ _ H)
    as (HF & HO & HD & HS & HC).
  pose proof (parseDataDirsContent_loop_writes _ _ _ _ _ H empty)
    as (W1 & W5 & W6).
  { intros k. rewrite Nat.sub_0_r. subst empty. split; [auto|].
    intros Hk. apply Hk. lia. }
  split; [exact HC|]. split; [exact HF|]. split; [exact HO|].
  split; [exact HD|]. split; [exact HS|]. split; [exact W1|].
  split; [exact W5 | exact W6].
Qed.

(** X11.  A directory table in which every entry is empty (the empty table
    included) dispatches to nothing: the file comes back as it was, for any
    step budget. *)
Theorem parseDataDirsContent_all_empty (fuel : nat) (file : File.t) :
  Forall (fun d => DataDirectory.eqb d DataDirectory.zero = true)
         (File.DataDirs file) ->
  parseDataDirsContent fuel file = Ok file.
Proof.
  intros H. unfold parseDataDirsContent.
  rewrite <- (app_nil_r (File.DataDirs file)).
  now rewrite parseDataDirsContent_loop_skip.
Qed.

End DispatcherMore.

Lemma parseDataDir_ignored_witness :
  parseDataDir 0 sampleImportFile 2 (DataDirectory.mk 0x7000 0x100)
  = Ok sampleImportFile /\
  parseDataDir 0 sampleImportFile 12 (DataDirectory.mk 0x103C 8)
  = Ok sampleImportFile.
Proof.
  split.
  - apply (parseDataDir_ignored 0 sampleImportFile 2
             (DataDirectory.mk 0x7000 0x100) []). now left.
  - apply (parseDataDir_ignored 0 sampleImportFile 12
             (DataDirectory.mk 0x103C 8) []). now right.
Defined.

Lemma parseDataDir_invalidIndex_witness :
  parseDataDir 0 sampleImportFile 16 (DataDirectory.mk 0x1000 4)
  = Panic (Errorf "invalid data directory index; expected < 16, got %d"
                  [IntArg 16]) /\
  parseDataDir 0 sampleImportFile 16 DataDirectory.zero = Ok sampleImportFile.
Proof.
  destruct (parseDataDir_invalidIndex 0 sampleImportFile 16
              (DataDirectory.mk 0x1000 4) ltac:(lia)) as [H1 _].
  destruct (parseDataDir_invalidIndex 0 sampleImportFile 16
              DataDirectory.zero ltac:(lia)) as [_ H2].
  split.
  - apply H1. left. cbn. lia.
  - apply H2. intros [H|H]; cbn in H; congruence.
Defined.

Lemma parseDataDirsContent_writes_witness :
  parseDataDirsContent 5 sampleHeadersFile = Ok sampleParsed /\
  File.Content sampleParsed = File.Content sampleHeadersFile /\
  File.BaseRelocBlocks sampleParsed = File.BaseRelocBlocks sampleHeadersFile /\
  File.DbgData sampleParsed = File.DbgData sampleHeadersFile.
Proof.
  assert (E : parseDataDirsContent 5 sampleHeadersFile = Ok sampleParsed)
    by (vm_compute; reflexivity).
  split; [exact E|].
  destruct (parseDataDirsContent_writes 5 sampleHeadersFile sampleParsed E)
    as (HC & _ & _ & _ & _ & _ & H5 & H6).
  split; [exact HC|].
  split.
  - apply H5. intros d Hd. vm_compute in Hd. discriminate Hd.
  - apply H6. intros d Hd. vm_compute in Hd. discriminate Hd.
Defined.

Lemma parseDataDirsContent_all_empty_witness :
  parseDataDirsContent 0
    (File.setDataDirs sampleImportFile (repeat DataDirectory.zero 16))
  = Ok (File.setDataDirs sampleImportFile (repeat DataDirectory.zero 16)).
Proof.
  apply parseDataDirsContent_all_empty.
  cbn [File.DataDirs File.setDataDirs]. apply Forall_forall.
  intros d Hd. apply repeat_spec in Hd. now subst.
Defined.

(* ===================================================================== *)
(** * Properties: [parse] as a whole *)
(* ===================================================================== *)

Lemma le_firstn_range n bs : 0 <= le (firstn n bs) < 256 ^ Z.of_nat n.
Proof.
  split; [apply le_nonneg|].
  eapply Z.lt_le_trans; [apply le_bound|].
  apply Z.pow_le_mono_r; [lia|]. rewrite length_firstn. lia.
Qed.

Lemma returned_readValue {A} n (dec : list byte -> A) r :
  returned (readValue n dec r).
Proof.
  unfold readValue, binaryRead, ReadFull.
  destruct r as [|b r0]; [exact I|].
  destruct (n <=? List.length (b :: r0))%nat; exact I.
Qed.

Lemma returned_readN {A} count n (dec : list byte -> A) r :
  returned (readN count n dec r).
Proof.
  revert r. induction count as [|count IH]; intros r; [exact I|].
  cbn [readN]. pose proof (returned_readValue n dec r) as H.
  destruct (readValue n dec r) as [[x r1]| | |]; try exact H. cbn [bind].
  specialize (IH r1).
  destruct (readN count n dec r1) as [[xs r2]| | |]; try exact IH; try exact I.
Qed.

Section ParseWhole.
Context {D : Decls} {Ops : FileOps}.

Lemma returned_parseFileHeader content : returned (parseFileHeader content).
Proof.
  unfold parseFileHeader.
  pose proof (returned_readValue 4 le (firstn 4 (skipn 60 content))) as H0.
  unfold readValue in H0.
  destruct (binaryRead 4 le (firstn 4 (skipn 60 content))) as [[o| | |] r0];
    try exact H0; try exact I.
  cbn [fst bind].
  match goal with |- context [readValue 4 ?f ?r] =>
    pose proof (returned_readValue 4 f r) as H1;
    destruct (readValue 4 f r) as [[sig r1]| | |]; try exact H1
  end.
  cbn [bind]. destruct (negb (bytesEqual signature sig)); [exact I|].
  pose proof (returned_readValue RawFileHeader.size RawFileHeader.decode r1)
    as H2.
  destruct (readValue RawFileHeader.size RawFileHeader.decode r1)
    as [[raw r2]| | |]; try exact H2; try exact I.
Qed.

(** The two shapes of a decoded optional header. *)
Lemma parseOptHeader_Ok_form r oh r' :
  parseOptHeader r = Ok (oh, r') ->
  (exists raw, oh = goOptHeader32 (RawOptHeader32.decode raw) magic32) \/
  (exists raw, oh = goOptHeader64 (RawOptHeader64.decode raw) magic64).
Proof.
  unfold parseOptHeader.
  destruct (readValue 2 le r) as [[magic r1]| | |]; try discriminate.
  cbn [bind].
  destruct (Z.eqb_spec magic magic32) as [E32|E32];
    [|destruct (Z.eqb_spec magic magic64) as [E64|E64]; [|discriminate]].
  - destruct (readValue RawOptHeader32.size RawOptHeader32.decode r1)
      as [[raw r2]| | |] eqn:E2; try discriminate.
    apply readValue_Ok_inv in E2 as (_ & Hraw & _). cbn [bind].
    intros H. inversion H. left. eexists. rewrite Hraw, E32. reflexivity.
  - destruct (readValue RawOptHeader64.size RawOptHeader64.decode r1)
      as [[raw r2]| | |] eqn:E2; try discriminate.
    apply readValue_Ok_inv in E2 as (_ & Hraw & _). cbn [bind].
    intros H. inversion H. right. eexists. rewrite Hraw, E64. reflexivity.
Qed.

Lemma returned_parseOptHeader r : returned (parseOptHeader r).
Proof.
  unfold parseOptHeader.
  pose proof (returned_readValue 2 le r) as H0.
  destruct (readValue 2 le r) as [[magic r1]| | |]; try exact H0.
  cbn [bind].
  destruct (magic =? magic32).
  - pose proof (returned_readValue RawOptHeader32.size RawOptHeader32.decode r1)
      as H1.
    destruct (readValue RawOptHeader32.size RawOptHeader32.decode r1)
      as [[raw r2]| | |]; try exact H1; try exact I.
  - destruct (magic =? magic64); [|exact I].
    pose proof (returned_readValue RawOptHeader64.size RawOptHeader64.decode r1)
      as H1.
    destruct (readValue RawOptHeader64.size RawOptHeader64.decode r1)
      as [[raw r2]| | |]; try exact H1; try exact I.
Qed.

(** [parse] is the header stages followed by the dispatch. *)
Lemma parse_stages fuel content :
  (exists e, parse fuel content = Err e) \/
  (exists fh r1 oh r2 dataDirs r3 sectHdrs r4,
     parseFileHeader content = Ok (fh, r1) /\
     parseOptHeader r1 = Ok (oh, r2) /\
     readN (Z.to_nat (OptHeader.NDataDirs oh)) DataDirectory.size
           DataDirectory.decode r2 = Ok (dataDirs, r3) /\
     readN (Z.to_nat (FileHeader.NSections fh)) RawSectionHeader.size
           RawSectionHeader.decode r3 = Ok (sectHdrs, r4) /\
     parse fuel content =
     parseDataDirsContent fuel
       (File.mk (Some fh) (Some oh) dataDirs (map goSectionHeader sectHdrs)
                [] [] [] content)).
Proof.
  unfold parse.
  pose proof (returned_parseFileHeader content) as H1.
  destruct (parseFileHeader content) as [[fh r1]|e| |] eqn:E1;
    try contradiction; [|left; now exists e].
  cbn [bind]. pose proof (returned_parseOptHeader r1) as H2.
  destruct (parseOptHeader r1) as [[oh r2]|e| |] eqn:E2;
    try contradiction; [|left; now exists e].
  cbn [bind]. unfold parseDataDirs, derefOptHdr.
  cbn [File.setOptHdr File.OptHdr bind].
  pose proof (returned_readN (Z.to_nat (OptHeader.NDataDirs oh))
                DataDirectory.size DataDirectory.decode r2) as H3.
  destruct (readN _ DataDirectory.size DataDirectory.decode r2)
    as [[dataDirs r3]|e| |] eqn:E3; try contradiction; [|left; now exists e].
  cbn [bind]. unfold parseSectionHdrs, derefFileHdr.
  cbn [File.setDataDirs File.setOptHdr File.setFileHdr File.FileHdr bind].
  pose proof (returned_readN (Z.to_nat (FileHeader.NSections fh))
                RawSectionHeader.size RawSectionHeader.decode r3) as H4.
  destruct (readN _ RawSectionHeader.size RawSectionHeader.decode r3)
    as [[sectHdrs r4]|e| |] eqn:E4; try contradiction; [|left; now exists e].
  cbn [bind]. right.
  exists fh, r1, oh, r2, dataDirs, r3, sectHdrs, r4.
  repeat split; assumption || reflexivity.
Qed.

(** X12.  The header stages of [parse] never panic: a parse that does not
    return an error is the dispatch run on a file that holds the content,
    both headers, and no decoded directory contents yet.  So a panic of
    [parse] is always a panic of the dispatch. *)
Theorem parse_panics_in_dispatch (fuel : nat) (content : list byte) :
  (exists e, parse fuel content = Err e) \/
  (exists file fh oh,
     File.FileHdr file = Some fh /\ File.OptHdr file = Some oh /\
     File.Content file = content /\
     File.Imps file = [] /\ File.BaseRelocBlocks file = [] /\
     File.DbgData file = [] /\
     parse fuel content = parseDataDirsContent fuel file).
Proof.
  destruct (parse_stages fuel content)
    as [He|(fh & r1 & oh & r2 & dd & r3 & sh & r4 & _ & _ & _ & _ & H)].
  - now left.
  - right.
    exists (File.mk (Some fh) (Some oh) dd (map goSectionHeader sh)
                    [] [] [] content), fh, oh.
    rewrite H. repeat split.
Qed.

(** X13.  The optional header of a parsed file has one of the two accepted
    magic values.  In the 32-bit layout the image base and the stack and
    heap sizes, stored as 64-bit fields, are below 2^32; in the 64-bit
    layout the image base is below 2^64 and [DataBase], which that layout
    does not have, is 0. *)
Theorem parse_optHdr_layout (fuel : nat) (content : list byte) (file : File.t) :
  parse fuel content = Ok file ->
  exists oh,
    File.OptHdr file = Some oh /\
    ((OptHeader.Magic oh = magic32 /\
      0 <= OptHeader.ImageBase oh < 2 ^ 32 /\
      0 <= OptHeader.ReservedStackSize oh < 2 ^ 32 /\
      0 <= OptHeader.InitialStackSize oh < 2 ^ 32 /\
      0 <= OptHeader.ReservedHeapSize oh < 2 ^ 32 /\
      0 <= OptHeader.InitialHeapSize oh < 2 ^ 32) \/
     (OptHeader.Magic oh = magic64 /\
      OptHeader.DataBase oh = 0 /\
      0 <= OptHeader.ImageBase oh < 2 ^ 64)).
Proof.
  intros H.
  destruct (parse_stages fuel content)
    as [[e He]|(fh & r1 & oh & r2 & dd & r3 & sh & r4 & _ & Hoh & _ & _ & Hp)];
    [congruence|].
  rewrite Hp in H. unfold parseDataDirsContent in H.
  apply parseDataDirsContent_loop_sameHeaders in H as (_ & HO & _).
  cbn [File.OptHdr] in HO. exists oh. split; [exact HO|].
  apply parseOptHeader_Ok_form in Hoh as [[raw ->]|[raw ->]]; [left|right].
  - split; [reflexivity|].
    unfold goOptHeader32, RawOptHeader32.decode, runDec, dbind, dret,
      uint8, uint16, uint32, uint.
    cbn [fst OptHeader.ImageBase OptHeader.ReservedStackSize
         OptHeader.InitialStackSize OptHeader.ReservedHeapSize
         OptHeader.InitialHeapSize RawOptHeader32.ImageBase
         RawOptHeader32.ReservedStackSize RawOptHeader32.InitialStackSize
         RawOptHeader32.ReservedHeapSize RawOptHeader32.InitialHeapSize].
    repeat split; apply (le_firstn_range 4).
  - split; [reflexivity|]. split; [reflexivity|].
    unfold goOptHeader64, RawOptHeader64.decode, runDec, dbind, dret,
      uint8, uint16, uint32, uint64, uint.
    cbn [fst OptHeader.ImageBase RawOptHeader64.ImageBase].
    apply (le_firstn_range 8).
Qed.

End ParseWhole.

Lemma parse_optHdr_layout_witness :
  exists oh,
    File.OptHdr sampleParsed = Some oh /\
    OptHeader.Magic oh = magic32 /\ OptHeader.ImageBase oh = 0x400000.
Proof.
  assert (E : parse 5 sampleImage = Ok sampleParsed)
    by (vm_compute; reflexivity).
  destruct (parse_optHdr_layout 5 sampleImage sampleParsed E)
    as (oh & Hoh & _).
  exists oh. split; [exact Hoh|].
  assert (Hs : File.OptHdr sampleParsed = Some sampleOptHdrParsed)
    by reflexivity.
  rewrite Hs in Hoh. inversion Hoh. split; vm_compute; reflexivity.
Defined.

(* ===================================================================== *)
(** * Properties: record arrays that end with the buffer *)
(* ===================================================================== *)

(** The loops of [parseDebugDirs] and [parseDebugFPO] have one shape: read
    a record, convert and append it, stop without error when the reader is
    at its end.  What such a loop returns is settled once, from its step
    equation. *)
Section UntilEOF.
Context {A B : Type}.
Variables (size : nat) (dec : list byte -> A) (go : A -> B).
Variable loop : Reader -> list B -> outcome (list B).
Hypothesis size_pos : (0 < size)%nat.
Hypothesis loop_step : forall r acc,
  loop r acc =
  match binaryRead size dec r with
  | (Ok raw, r') => loop r' (acc ++ [go raw])
  | (Err e, _) => if isEOF e then Ok acc else Err e
  | (Panic e, _) => Panic e
  | (OutOfFuel, _) => OutOfFuel
  end.

Lemma recordsOf_step buf :
  (size <= List.length buf)%nat ->
  recordsOf size dec go buf
  = go (dec (firstn size buf)) :: recordsOf size dec go (skipn size buf).
Proof.
  intros Hl. unfold recordsOf. rewrite length_skipn.
  replace (List.length buf / size)%nat
    with (S ((List.length buf - size) / size)).
  - cbn [seq map]. rewrite Nat.mul_0_r, skipn_O. f_equal.
    rewrite <- seq_shift, map_map. apply map_ext. intros i.
    rewrite skipn_skipn.
    replace (size * S i)%nat with (size * i + size)%nat by lia. reflexivity.
  - replace (List.length buf) with ((List.length buf - size) + 1 * size)%nat
      at 2 by lia.
    rewrite Nat.div_add by lia. lia.
Qed.

Lemma untilEOF_total (n : nat) :
  forall buf acc, (List.length buf <= n)%nat ->
  loop buf acc =
  if (List.length buf mod size =? 0)%nat then Ok (acc ++ recordsOf size dec go buf)
  else Err ErrUnexpectedEOF.
Proof.
  induction n as [|n IH]; intros buf acc Hn.
  - destruct buf; [|cbn in Hn; lia].
    rewrite loop_step, binaryRead_empty. cbn [isEOF List.length].
    rewrite Nat.Div0.mod_0_l. cbn [Nat.eqb]. unfold recordsOf.
    cbn [List.length]. rewrite Nat.Div0.div_0_l. cbn [seq map].
    now rewrite app_nil_r.
  - rewrite loop_step.
    destruct (Nat.le_gt_cases size (List.length buf)) as [Hge|Hlt].
    + rewrite binaryRead_ok by assumption.
      rewrite IH by (rewrite length_skipn; lia).
      rewrite length_skipn.
      replace (List.length buf) with ((List.length buf - size) + 1 * size)%nat
        at 2 by lia.
      rewrite Nat.Div0.mod_add.
      destruct ((List.length buf - size) mod size =? 0)%nat; [|reflexivity].
      rewrite (recordsOf_step buf Hge), <- app_assoc. reflexivity.
    + destruct buf as [|b buf].
      * rewrite binaryRead_empty. cbn [isEOF List.length].
        rewrite Nat.Div0.mod_0_l. cbn [Nat.eqb]. unfold recordsOf.
        cbn [List.length]. rewrite Nat.Div0.div_0_l. cbn [seq map].
        now rewrite app_nil_r.
      * rewrite binaryRead_short by (try discriminate; assumption).
        cbn [isEOF]. rewrite Nat.mod_small by assumption.
        cbn [List.length Nat.eqb]. reflexivity.
Qed.

End UntilEOF.

Section DebugArrays.
Context {D : Decls} {Ops : FileOps}.

Lemma parseDebugDirs_loop_step r dbgDirs :
  parseDebugDirs_loop r dbgDirs =
  match binaryRead RawDebugDirectory.size RawDebugDirectory.decode r with
  | (Ok raw, r') => parseDebugDirs_loop r' (dbgDirs ++ [goDebugDirectory raw])
  | (Err e, _) => if isEOF e then Ok dbgDirs else Err e
  | (Panic e, _) => Panic e
  | (OutOfFuel, _) => OutOfFuel
  end.
Proof.
  funelim (parseDebugDirs_loop r dbgDirs).
  all: match goal with E : binaryRead _ _ _ = _ |- _ => rewrite E end.
  all: reflexivity.
Qed.

Lemma parseDebugFPO_loop_step r fpoData :
  parseDebugFPO_loop r fpoData =
  match binaryRead RawFPOData.size RawFPOData.decode r with
  | (Ok raw, r') => parseDebugFPO_loop r' (fpoData ++ [goFPOData raw])
  | (Err e, _) => if isEOF e then Ok fpoData else Err e
  | (Panic e, _) => Panic e
  | (OutOfFuel, _) => OutOfFuel
  end.
Proof.
  funelim (parseDebugFPO_loop r fpoData).
  all: match goal with E : binaryRead _ _ _ = _ |- _ => rewrite E end.
  all: reflexivity.
Qed.

(** X14.  The debug directory array has no terminator: when the bytes the
    translator returns for the directory are a whole number of 28-byte
    records, every one of them, an all-zero record included, becomes a
    directory, in order; otherwise the parse fails with unexpected EOF.  An
    empty buffer gives no directory. *)
Theorem parseDebugDirs_records (file : File.t) (dataDir : DataDirectory.t)
  (oh : OptHeader.t) (buf : list byte) :
  File.OptHdr file = Some oh ->
  ReadData file (wrap 64 (OptHeader.ImageBase oh + DataDirectory.RelAddr dataDir))
           (DataDirectory.Size dataDir) = Ok buf ->
  parseDebugDirs file dataDir =
  if (List.length buf mod 28 =? 0)%nat
  then Ok (map (fun i => goDebugDirectory
                           (RawDebugDirectory.decode
                              (firstn 28 (skipn (28 * i) buf))))
               (seq 0 (List.length buf / 28)))
  else Err ErrUnexpectedEOF.
Proof.
  intros Hoh Hr. unfold parseDebugDirs, derefOptHdr. rewrite Hoh.
  cbn [bind]. rewrite Hr. cbn [bind].
  rewrite (untilEOF_total RawDebugDirectory.size RawDebugDirectory.decode
             goDebugDirectory parseDebugDirs_loop
             ltac:(unfold RawDebugDirectory.size; lia)
             parseDebugDirs_loop_step (List.length buf) buf [] (le_n _)).
  reflexivity.
Qed.

(** X15.  An FPO payload is decoded until it is used up: a payload of a
    whole number of 16-byte records gives one [FPOData] per record, in
    order, wrapped with its directory (none for an empty payload); a
    payload with a partial last record is refused with unexpected EOF. *)
Theorem parseDebugFPO_records (dbgDir : DebugDirectory.t) (buf : list byte) :
  parseDebugFPO dbgDir buf =
  if (List.length buf mod 16 =? 0)%nat
  then Ok (DebugFPO dbgDir
             (map (fun i => goFPOData
                              (RawFPOData.decode (firstn 16 (skipn (16 * i) buf))))
                  (seq 0 (List.length buf / 16))))
  else Err ErrUnexpectedEOF.
Proof.
  unfold parseDebugFPO.
  rewrite (untilEOF_total RawFPOData.size RawFPOData.decode
             goFPOData parseDebugFPO_loop
             ltac:(unfold RawFPOData.size; lia)
             parseDebugFPO_loop_step (List.length buf) buf [] (le_n _)).
  unfold RawFPOData.size, recordsOf.
  destruct (List.length buf mod 16 =? 0)%nat; reflexivity.
Qed.

(** X16.  A CodeView payload shorter than its 16-byte header is refused
    (EOF when empty, unexpected EOF otherwise); a longer one gives the
    header decoded from the first 16 bytes and the path read from all the
    bytes after them, wrapped with its directory. *)
Theorem parseDebugCodeViewInfo_cases (dbgDir : DebugDirectory.t)
  (buf : list byte) :
  ((List.length buf < 16)%nat ->
   parseDebugCodeViewInfo dbgDir buf = Err (shortRead buf)) /\
  ((16 <= List.length buf)%nat ->
   parseDebugCodeViewInfo dbgDir buf =
   Ok (DebugCodeView dbgDir
         (goCodeViewInfo (RawCodeViewInfo.decode (firstn 16 buf))
                         (parseCString (skipn 16 buf))))).
Proof.
  unfold parseDebugCodeViewInfo, RawCodeViewInfo.size. split; intros Hl.
  - now rewrite readValue_short.
  - rewrite readValue_ok by lia. reflexivity.
Qed.

End DebugArrays.

Lemma parseDebugDirs_records_witness :
  parseDebugDirs sampleImportFile (DataDirectory.mk 0x1000 56)
  = Ok [goDebugDirectory (RawDebugDirectory.decode
                            (firstn 28 (File.Content sampleImportFile)));
        goDebugDirectory (RawDebugDirectory.decode
                            (firstn 28 (skipn 28 (File.Content sampleImportFile))))] /\
  parseDebugDirs sampleImportFile (DataDirectory.mk 0x1000 30)
  = Err ErrUnexpectedEOF.
Proof.
  split.
  - rewrite (parseDebugDirs_records sampleImportFile
               (DataDirectory.mk 0x1000 56) sampleOptHdr
               (firstn 56 (File.Content sampleImportFile)))
      by (vm_compute; reflexivity).
    vm_compute. reflexivity.
  - rewrite (parseDebugDirs_records sampleImportFile
               (DataDirectory.mk 0x1000 30) sampleOptHdr
               (firstn 30 (File.Content sampleImportFile)))
      by (vm_compute; reflexivity).
    vm_compute. reflexivity.
Defined.

Lemma parseDebugCodeViewInfo_cases_witness :
  parseDebugCodeViewInfo (sampleDebugDir 0 0 3) [x4e; x42; x31]
  = Err ErrUnexpectedEOF /\
  parseDebugCodeViewInfo (sampleDebugDir 0 0 19)
    (encLE 4 0x3031424E ++ encLE 4 0 ++ encLE 4 0 ++ encLE 4 1 ++ [x61; x62; x00])
  = Ok (DebugCodeView (sampleDebugDir 0 0 19)
          (CodeViewInfo.mk 0x3031424E 0 0 1 [x61; x62])).
Proof.
  split.
  - rewrite (proj1 (parseDebugCodeViewInfo_cases _ _)) by (cbn; lia).
    reflexivity.
  - rewrite (proj2 (parseDebugCodeViewInfo_cases _ _)) by (vm_compute; lia).
    vm_compute. reflexivity.
Defined.

(* ===================================================================== *)
(** * Properties: debug payloads *)
(* ===================================================================== *)

Section DebugPayloads.
Context {D : Decls} {Ops : FileOps}.

Lemma parseDebugCodeViewInfo_Ok dbgDir buf d :
  parseDebugCodeViewInfo dbgDir buf = Ok d ->
  exists cv, d = DebugCodeView dbgDir cv.
Proof.
  unfold parseDebugCodeViewInfo.
  destruct (readValue _ _ buf) as [[raw r]| | |]; cbn [bind];
    try discriminate.
  intros [= <-]. eauto.
Qed.

Lemma parseDebugFPO_Ok dbgDir buf d :
  parseDebugFPO dbgDir buf = Ok d ->
  exists fpo, d = DebugFPO dbgDir fpo.
Proof.
  unfold parseDebugFPO.
  destruct (parseDebugFPO_loop buf []); cbn [bind]; try discriminate.
  intros [= <-]. eauto.
Qed.

Lemma parseDebugData_loop_inv (file : File.t) (dbgDirs : list DebugDirectory.t) :
  forall acc res,
  parseDebugData_loop file dbgDirs acc = Ok res ->
  exists new, res = acc ++ new /\
              map debugDirOf new = dbgDirs /\
              Forall (decodedFrom file) new.
Proof.
  induction dbgDirs as [|dbgDir rest IH]; intros acc res H.
  - cbn [parseDebugData_loop] in H. injection H as <-.
    exists []. rewrite app_nil_r. repeat split. constructor.
  - cbn [parseDebugData_loop] in H.
    destruct (readDebugData file dbgDir) as [buf| | |] eqn:Er;
      cbn [bind] in H; try discriminate.
    destruct (Z.eqb_spec (DebugDirectory.Type_ dbgDir) DebugTypeCodeView)
      as [Hcv|_].
    { destruct (parseDebugCodeViewInfo dbgDir buf) as [d| | |] eqn:Ed;
        cbn [bind] in H; try discriminate.
      destruct (parseDebugCodeViewInfo_Ok _ _ _ Ed) as [cv ->].
      apply IH in H as (new & -> & Hm & Hf).
      exists (DebugCodeView dbgDir cv :: new). rewrite <- app_assoc.
      split; [reflexivity|]. split; [cbn [map debugDirOf]; congruence|].
      constructor; [|exact Hf]. exists buf. cbn [debugDirOf]. auto. }
    destruct (Z.eqb_spec (DebugDirectory.Type_ dbgDir) DebugTypeFPO)
      as [Hfpo|_].
    { destruct (parseDebugFPO dbgDir buf) as [d| | |] eqn:Ed;
        cbn [bind] in H; try discriminate.
      destruct (parseDebugFPO_Ok _ _ _ Ed) as [fpo ->].
      apply IH in H as (new & -> & Hm & Hf).
      exists (DebugFPO dbgDir fpo :: new). rewrite <- app_assoc.
      split; [reflexivity|]. split; [cbn [map debugDirOf]; congruence|].
      constructor; [|exact Hf]. exists buf. cbn [debugDirOf]. auto. }
    destruct (Z.eqb_spec (DebugDirectory.Type_ dbgDir) DebugTypeMisc)
      as [Hmisc|_]; [|discriminate].
    apply IH in H as (new & -> & Hm & Hf).
    exists (DebugMisc dbgDir buf :: new). rewrite <- app_assoc.
    split; [reflexivity|]. split; [cbn [map debugDirOf]; congruence|].
    constructor; [|exact Hf]. exists buf. cbn [debugDirOf]. auto.
Qed.

Lemma parseDebugData_inv (file : File.t) (dataDir : DataDirectory.t) res :
  parseDebugData file dataDir = Ok res ->
  exists dbgDirs,
    parseDebugDirs file dataDir = Ok dbgDirs /\
    map debugDirOf res = dbgDirs /\
    Forall (decodedFrom file) res.
Proof.
  unfold parseDebugData. intros H.
  destruct (parseDebugDirs file dataDir) as [dbgDirs| | |];
    cbn [bind] in H; try discriminate.
  apply parseDebugData_loop_inv in H as (new & -> & Hm & Hf).
  exists dbgDirs. cbn [app]. auto.
Qed.

(** X17.  The debug data is all or nothing, one record per directory: a
    successful [parseDebugData] returns exactly one record for each
    directory of the debug directory array, in the array's order, each
    wrapping its directory and decoded from that directory's payload by the
    decoder its type selects (CodeView, FPO, or the raw bytes for Misc). *)
Theorem parseDebugData_one_per_directory (file : File.t)
  (dataDir : DataDirectory.t) (res : list DebugData) :
  parseDebugData file dataDir = Ok res ->
  exists dbgDirs,
    parseDebugDirs file dataDir = Ok dbgDirs /\
    map debugDirOf res = dbgDirs /\
    Forall (decodedFrom file) res.
Proof. apply parseDebugData_inv. Qed.

(** X18.  One directory of a type other than CodeView, FPO and Misc,
    anywhere in the debug directory array, makes [parseDebugData] fail as
    a whole: the records of the directories before it are not returned. *)
Theorem parseDebugData_unsupported_type (file : File.t)
  (dataDir : DataDirectory.t) (dbgDirs : list DebugDirectory.t)
  (dbgDir : DebugDirectory.t) :
  parseDebugDirs file dataDir = Ok dbgDirs ->
  In dbgDir dbgDirs ->
  DebugDirectory.Type_ dbgDir <> DebugTypeCodeView ->
  DebugDirectory.Type_ dbgDir <> DebugTypeFPO ->
  DebugDirectory.Type_ dbgDir <> DebugTypeMisc ->
  forall res, parseDebugData file dataDir <> Ok res.
Proof.
  intros Hd Hin H1 H2 H3 res H.
  apply parseDebugData_inv in H as (dirs & Hd' & Hm & Hf).
  rewrite Hd in Hd'. injection Hd' as <-. subst dbgDirs.
  apply in_map_iff in Hin as (d & <- & Hin).
  rewrite Forall_forall in Hf. destruct (Hf d Hin) as (buf & _ & Hk).
  destruct d; cbn [debugDirOf] in *; destruct Hk; contradiction.
Qed.


End DebugPayloads.

(** X20.  Whatever the 16 bytes of an FPO record are, decoding and
    converting it never wraps: the local and parameter sizes are four
    times the stored counts (below 2^34 and 2^18), the register count is at
    most 7, the reserved bit at most 1 and the frame type at most 3. *)
Theorem goFPOData_decode_no_wrap (bs : list byte) :
  let raw := RawFPOData.decode bs in
  let fpo := goFPOData raw in
  FPOData.NLocals fpo = 4 * RawFPOData.NLocals raw /\
  FPOData.Params fpo = 4 * RawFPOData.Params raw /\
  0 <= FPOData.NLocals fpo < 2 ^ 34 /\
  0 <= FPOData.Params fpo < 2 ^ 18 /\
  0 <= FPOData.Regs fpo <= 7 /\
  0 <= FPOData.Reserved fpo <= 1 /\
  0 <= FPOData.Frame fpo <= 3.
Proof.
  cbv zeta.
  unfold goFPOData, RawFPOData.decode, runDec, dbind, dret,
    uint8, uint16, uint32, uint.
  cbn [fst FPOData.NLocals FPOData.Params FPOData.Regs FPOData.Reserved
       FPOData.Frame RawFPOData.NLocals RawFPOData.Params
       RawFPOData.Bitfield].
  match goal with
  | |- context [wrap 64 (le (firstn 4 ?l) * 4)] =>
      pose proof (le_firstn_range 4 l) as Hn; set (n := le (firstn 4 l)) in *
  end.
  match goal with
  | |- context [wrap 32 (le (firstn 2 ?l) * 4)] =>
      pose proof (le_firstn_range 2 l) as Hp; set (p := le (firstn 2 l)) in *
  end.
  match goal with
  | |- context [Z.land (le (firstn 1 ?l)) _] =>
      pose proof (le_firstn_range 1 l) as Hb; set (b := le (firstn 1 l)) in *
  end.
  change (256 ^ Z.of_nat 4) with (2 ^ 32) in Hn.
  change (256 ^ Z.of_nat 2) with (2 ^ 16) in Hp.
  change (256 ^ Z.of_nat 1) with 256 in Hb.
  pose proof (fpoBits b Hb) as Hbits. unfold fpoBitsCheck in Hbits.
  repeat (apply andb_prop in Hbits; destruct Hbits as [Hbits ?]).
  repeat match goal with
         | H : (_ =? _) = true |- _ => apply Z.eqb_eq in H
         end.
  unfold wrap. rewrite !Z.mod_small by lia.
  assert (0 <= b mod 8 < 8) by (apply Z.mod_pos_bound; lia).
  assert (0 <= b / 64 < 4)
    by (split; [apply Z.div_pos; lia | apply Z.div_lt_upper_bound; lia]).
  assert (0 <= Z.b2z (Z.testbit b 5) <= 1) by (destruct (Z.testbit b 5); cbn; lia).
  repeat split; lia.
Qed.

Lemma parseDebugData_one_per_directory_witness :
  exists dbgDirs,
    parseDebugDirs (sampleDebugFile 4) (DataDirectory.mk 0x1000 28)
    = Ok dbgDirs /\
    map debugDirOf [DebugMisc (sampleDebugDir 0 28 4) [x01; x02; x03; x04]]
    = dbgDirs /\
    Forall (decodedFrom (sampleDebugFile 4))
           [DebugMisc (sampleDebugDir 0 28 4) [x01; x02; x03; x04]].
Proof.
  apply (parseDebugData_one_per_directory (sampleDebugFile 4)
           (DataDirectory.mk 0x1000 28)).
  vm_compute. reflexivity.
Defined.

Lemma parseDebugData_unsupported_type_witness :
  parseDebugDirs (sampleDebugFile 9) (DataDirectory.mk 0x1000 28)
  = Ok [@DebugDirectory.mk sampleDecls 0 0 0 0 9 4 0 28] /\
  forall res,
    parseDebugData (sampleDebugFile 9) (DataDirectory.mk 0x1000 28) <> Ok res.
Proof.
  split; [vm_compute; reflexivity|].
  apply (parseDebugData_unsupported_type (sampleDebugFile 9)
           (DataDirectory.mk 0x1000 28)
           [@DebugDirectory.mk sampleDecls 0 0 0 0 9 4 0 28]
           (@DebugDirectory.mk sampleDecls 0 0 0 0 9 4 0 28)).
  - vm_compute. reflexivity.
  - left. reflexivity.
  - vm_compute. discriminate.
  - vm_compute. discriminate.
  - vm_compute. discriminate.
Defined.


(* ===================================================================== *)
(** * Properties: the import name and address tables *)
(* ===================================================================== *)

Section ImportTables.
Context {D : Decls} {Ops : FileOps}.

(** One round of the loop of [parseINTs] on a complete entry. *)
Lemma parseINTs_loop_entry fuel file oh addr ints raw :
  OptHeader.Magic oh = magic32 \/ OptHeader.Magic oh = magic64 ->
  entryAt file oh addr raw ->
  parseINTs_loop (S fuel) file oh addr ints =
  if raw =? 0 then Ok ints
  else parseINTs_loop fuel file oh (wrap 64 (addr + Z.of_nat (entrySize oh)))
                      (ints ++ [goINTEntry file oh raw]).
Proof.
  unfold entryAt, goINTEntry, entrySize.
  intros [Hm|Hm] (buf & Hr & Hl & Hraw); cbn [parseINTs_loop]; rewrite Hm in *.
  - cbn [Z.eqb magic32 Pos.eqb] in *.
    change 4 with (Z.of_nat RawINTEntry32.size). rewrite Hr. cbn [bind].
    rewrite binaryRead_ok
      by (try assumption; unfold RawINTEntry32.size; lia).
    cbn [fst bind].
    unfold RawINTEntry32.decode at 1 2. rewrite Hraw. reflexivity.
  - cbn [Z.eqb magic32 magic64 Pos.eqb] in *.
    change 8 with (Z.of_nat RawINTEntry64.size). rewrite Hr. cbn [bind].
    rewrite binaryRead_ok
      by (try assumption; unfold RawINTEntry64.size; lia).
    cbn [fst bind].
    unfold RawINTEntry64.decode at 1 2. rewrite Hraw. reflexivity.
Qed.

Lemma entryAddr_next oh addr k :
  entryAddr oh (wrap 64 (addr + Z.of_nat (entrySize oh))) k
  = entryAddr oh addr (S k).
Proof.
  unfold entryAddr.
  set (f := fun a => wrap 64 (a + Z.of_nat (entrySize oh))).
  change (Nat.iter k f (f addr) = Nat.iter (S k) f addr).
  symmetry. apply Nat.iter_succ_r.
Qed.

Lemma parseINTs_loop_entries file oh (raws : list Z) :
  OptHeader.Magic oh = magic32 \/ OptHeader.Magic oh = magic64 ->
  forall fuel addr ints,
  (forall k raw, nth_error raws k = Some raw ->
                 raw <> 0 /\ entryAt file oh (entryAddr oh addr k) raw) ->
  entryAt file oh (entryAddr oh addr (List.length raws)) 0 ->
  (List.length raws < fuel)%nat ->
  parseINTs_loop fuel file oh addr ints
  = Ok (ints ++ map (goINTEntry file oh) raws).
Proof.
  intros Hm. induction raws as [|raw raws IH]; intros fuel addr ints He Hz Hf;
    (destruct fuel as [|fuel]; [cbn [List.length] in Hf; lia|]).
  - rewrite (parseINTs_loop_entry fuel file oh addr ints 0 Hm Hz).
    cbn [Z.eqb map]. now rewrite app_nil_r.
  - destruct (He O raw eq_refl) as [Hnz Hat].
    rewrite (parseINTs_loop_entry fuel file oh addr ints raw Hm Hat).
    destruct (Z.eqb_spec raw 0) as [|_]; [contradiction|].
    rewrite IH.
    + cbn [map]. now rewrite <- app_assoc.
    + intros k raw' Hk. rewrite entryAddr_next.
      apply (He (S k) raw' Hk).
    + rewrite entryAddr_next. exact Hz.
    + cbn [List.length] in Hf. lia.
Qed.

Lemma parseImportEntry_tables fuel file impDir imp :
  parseImportEntry fuel file impDir = Ok imp -> tablesOf fuel file imp.
Proof.
  unfold parseImportEntry, tablesOf. cbv zeta.
  destruct (Z.eqb_spec (INTRelAddr impDir) 0) as [Hz|Hz]; cbn [negb].
  - cbn [bind].
    destruct (parseINTs fuel file (IATRelAddr impDir)) as [iats| | |] eqn:Ei;
      cbn [bind]; try discriminate.
    intros [= <-]. cbn [ImportEntry.ImpDir ImportEntry.IATs ImportEntry.INTs].
    rewrite Ei. destruct (Z.eqb_spec (INTRelAddr impDir) 0); [|contradiction].
    split; reflexivity.
  - destruct (parseINTs fuel file (INTRelAddr impDir)) as [ints| | |] eqn:En;
      cbn [bind]; try discriminate.
    destruct (parseINTs fuel file (IATRelAddr impDir)) as [iats| | |] eqn:Ei;
      cbn [bind]; try discriminate.
    intros [= <-]. cbn [ImportEntry.ImpDir ImportEntry.IATs ImportEntry.INTs].
    rewrite Ei, En. destruct (Z.eqb_spec (INTRelAddr impDir) 0); [contradiction|].
    split; reflexivity.
Qed.

Lemma parseImports_loop_tables fuel file impDirs :
  forall imps res,
  parseImports_loop fuel file impDirs imps = Ok res ->
  Forall (tablesOf fuel file) imps ->
  Forall (tablesOf fuel file) res.
Proof.
  induction impDirs as [|impDir rest IH]; intros imps res H Hf.
  - cbn [parseImports_loop] in H. now injection H as <-.
  - cbn [parseImports_loop] in H.
    destruct (parseImportEntry fuel file impDir) as [imp| | |] eqn:Ei;
      cbn [bind] in H; try discriminate.
    apply IH in H; [exact H|].
    apply Forall_app. split; [exact Hf|].
    constructor; [|constructor]. eapply parseImportEntry_tables; exact Ei.
Qed.

(** X21.  A name or address table of K non-zero entries followed by a zero
    entry, each delivered whole by the address translator at the address of
    its index, is parsed into exactly the K converted entries, in order;
    the zero entry is not part of the result.  Any step bound above K is
    enough for the model to reach that result. *)
Theorem parseINTs_entries (fuel : nat) (file : File.t) (oh : OptHeader.t)
  (intRelAddr : Z) (raws : list Z) :
  File.OptHdr file = Some oh ->
  OptHeader.Magic oh = magic32 \/ OptHeader.Magic oh = magic64 ->
  (forall k raw,
     nth_error raws k = Some raw ->
     raw <> 0 /\
     entryAt file oh
       (entryAddr oh (wrap 64 (OptHeader.ImageBase oh + intRelAddr)) k) raw) ->
  entryAt file oh
    (entryAddr oh (wrap 64 (OptHeader.ImageBase oh + intRelAddr))
               (List.length raws)) 0 ->
  (List.length raws < fuel)%nat ->
  parseINTs fuel file intRelAddr = Ok (map (goINTEntry file oh) raws).
Proof.
  intros Hoh Hm He Hz Hf. unfold parseINTs, derefOptHdr. rewrite Hoh.
  cbn [bind].
  now rewrite (parseINTs_loop_entries file oh raws Hm fuel _ [] He Hz Hf).
Qed.

(** X22.  Every entry that [parseImports] returns carries the tables of
    its own descriptor: its address table is the table parsed at the
    descriptor's [IATRelAddr], its name table is the table parsed at the
    descriptor's [INTRelAddr], and a descriptor whose [INTRelAddr] is 0 has
    no names (no table is read at the image base for it). *)
Theorem parseImports_tables (fuel : nat) (file : File.t)
  (dataDir : DataDirectory.t) (imps : list ImportEntry.t) :
  parseImports fuel file dataDir = Ok imps ->
  Forall (tablesOf fuel file) imps.
Proof.
  unfold parseImports. intros H.
  destruct (parseImportDirs file dataDir) as [impDirs| | |];
    cbn [bind] in H; try discriminate.
  eapply parseImports_loop_tables; [exact H|constructor].
Qed.

End ImportTables.

Lemma parseINTs_entries_witness :
  parseINTs 2 sampleImportFile 0x103C
  = Ok (map (goINTEntry sampleImportFile sampleOptHdr) [0x80000005]).
Proof.
  apply (parseINTs_entries 2 sampleImportFile sampleOptHdr 0x103C [0x80000005]).
  - reflexivity.
  - left. vm_compute. reflexivity.
  - intros [|[|k]] raw H; cbn [nth_error] in H; try discriminate.
    injection H as <-. split; [discriminate|].
    exists (encLE 4 0x80000005).
    split; [vm_compute; reflexivity|].
    split; [vm_compute; lia | vm_compute; reflexivity].
  - exists (encLE 4 0).
    split; [vm_compute; reflexivity|].
    split; [vm_compute; lia | vm_compute; reflexivity].
  - cbn. lia.
Defined.

Lemma parseImports_tables_witness :
  Forall (tablesOf 3 sampleImportFile)
    [ {| ImportEntry.ImpDir := RawImportDirectory.decode recA;
         ImportEntry.INTs := [];
         ImportEntry.IATs := [0x80000005] |};
      {| ImportEntry.ImpDir := RawImportDirectory.decode recB;
         ImportEntry.INTs := [0x80000005];
         ImportEntry.IATs := [] |} ].
Proof.
  apply (parseImports_tables 3 sampleImportFile sampleImportDir).
  vm_compute. reflexivity.
Defined.

(* ===================================================================== *)
(** * Properties: the base relocation table *)
(* ===================================================================== *)

Section RelocTable.
Context {D : Decls} {Ops : FileOps}.

Lemma parseBaseRelocBlocks_loop_step r blocks :
  parseBaseRelocBlocks_loop r blocks =
  match parseBaseRelocBlock r with
  | (Ok block, r') => parseBaseRelocBlocks_loop r' (blocks ++ [block])
  | (Err e, _) => if isEOF e then Ok blocks else Err e
  | (Panic e, _) => Panic e
  | (OutOfFuel, _) => OutOfFuel
  end.
Proof.
  funelim (parseBaseRelocBlocks_loop r blocks).
  all: match goal with E : parseBaseRelocBlock _ = _ |- _ => rewrite E end.
  all: reflexivity.
Qed.

Lemma parseBaseRelocBlock_wellFormed b rest :
  wellFormedBlock b ->
  parseBaseRelocBlock (blockBytes b ++ rest) = (Ok (blockOf b), rest).
Proof.
  destruct b as [hdr payload]. unfold wellFormedBlock, blockBytes, blockOf.
  cbn [fst snd]. intros (Hl & HB & Hev).
  rewrite <- app_assoc, parseBaseRelocBlock_header by assumption.
  cbv zeta. rewrite HB.
  replace (8 + Z.of_nat (List.length payload) - 8)
    with (Z.of_nat (List.length payload)) by lia.
  rewrite parseBaseRelocBlock_loop_payload, Hev. cbn [bind lr_R app].
  reflexivity.
Qed.

Lemma parseBaseRelocBlocks_loop_blocks blocks :
  forall tail acc,
  Forall wellFormedBlock blocks ->
  parseBaseRelocBlocks_loop (List.concat (map blockBytes blocks) ++ tail) acc
  = parseBaseRelocBlocks_loop tail (acc ++ map blockOf blocks).
Proof.
  induction blocks as [|b blocks IH]; intros tail acc Hf.
  - cbn [map List.concat app]. now rewrite app_nil_r.
  - inversion Hf as [|? ? Hb Hbs]; subst.
    cbn [map List.concat]. rewrite <- app_assoc.
    rewrite parseBaseRelocBlocks_loop_step, parseBaseRelocBlock_wellFormed
      by assumption.
    rewrite IH by assumption. now rewrite <- app_assoc.
Qed.

Lemma parseBaseRelocBlocks_loop_end tail acc :
  (List.length tail < 8)%nat ->
  parseBaseRelocBlocks_loop tail acc =
  match tail with [] => Ok acc | _ :: _ => Err ErrUnexpectedEOF end.
Proof.
  intros Hl. rewrite parseBaseRelocBlocks_loop_step. unfold parseBaseRelocBlock.
  destruct tail as [|b tail].
  - now rewrite binaryRead_empty.
  - now rewrite binaryRead_short by (try discriminate; assumption).
Qed.

(** A payload that ends before the budget of the limited reader is used
    up: the loop stops where the bytes stop. *)
Lemma parseBaseRelocBlock_loop_underrun tail :
  forall n entries,
  Z.of_nat (List.length tail) <= n ->
  parseBaseRelocBlock_loop {| lr_R := tail; lr_N := n |} entries
  = (if Nat.even (List.length tail)
     then Ok (entries ++ goEntries tail)
     else Err ErrUnexpectedEOF,
     {| lr_R := []; lr_N := n - Z.of_nat (List.length tail) |}).
Proof.
  revert tail. fix IH 1. intros [|a [|b tail]] n entries Hn.
  - rewrite parseBaseRelocBlock_loop_step.
    unfold binaryReadLimited, limitedAvail. cbn [lr_N lr_R].
    destruct (n <=? 0); rewrite ?firstn_nil;
      cbn [ReadFull bind isEOF skipn List.length Nat.even goEntries pairs map];
      now rewrite app_nil_r.
  - rewrite parseBaseRelocBlock_loop_step.
    unfold binaryReadLimited, limitedAvail. cbn [lr_N lr_R].
    cbn [List.length] in Hn.
    destruct (Z.leb_spec n 0) as [H|H]; [lia|].
    replace (Z.to_nat n) with (S (Z.to_nat n - 1)) by lia.
    cbn [firstn]. rewrite firstn_nil. reflexivity.
  - rewrite parseBaseRelocBlock_loop_step.
    unfold binaryReadLimited, limitedAvail. cbn [lr_N lr_R].
    cbn [List.length] in Hn.
    destruct (Z.leb_spec n 0) as [H|H]; [lia|].
    replace (Z.to_nat n) with (S (S (Z.to_nat n - 2))) by lia.
    cbn [firstn ReadFull List.length].
    destruct (Nat.leb_spec RawBaseRelocEntry.size
                (S (S (List.length (firstn (Z.to_nat n - 2) tail)))))
      as [H2|H2]; [|unfold RawBaseRelocEntry.size in H2; lia].
    cbn [bind RawBaseRelocEntry.size skipn firstn].
    rewrite IH by (unfold RawBaseRelocEntry.size; lia).
    cbn [List.length Nat.even goEntries pairs map].
    rewrite <- app_assoc. unfold RawBaseRelocEntry.size. do 2 f_equal. lia.
Qed.

(** X23.  A relocation table made of well-formed blocks (a header whose
    declared size counts itself and an even number of payload bytes) is
    parsed into exactly those blocks, in order, each with the page address
    and size of its header and one entry per two payload bytes.  Up to
    seven bytes after the last block cannot hold a header: none is fine,
    any other number fails the parse with unexpected EOF. *)
Theorem parseBaseRelocBlocks_blocks (file : File.t) (dataDir : DataDirectory.t)
  (oh : OptHeader.t) (buf : list byte)
  (blocks : list (list byte * list byte)) (tail : list byte) :
  File.OptHdr file = Some oh ->
  ReadData file (wrap 64 (OptHeader.ImageBase oh + DataDirectory.RelAddr dataDir))
           (DataDirectory.Size dataDir) = Ok buf ->
  buf = List.concat (map blockBytes blocks) ++ tail ->
  Forall wellFormedBlock blocks ->
  (List.length tail < 8)%nat ->
  parseBaseRelocBlocks file dataDir =
  match tail with
  | [] => Ok (map blockOf blocks)
  | _ :: _ => Err ErrUnexpectedEOF
  end.
Proof.
  intros Hoh Hr -> Hf Hl. unfold parseBaseRelocBlocks, derefOptHdr.
  rewrite Hoh. cbn [bind]. rewrite Hr. cbn [bind].
  rewrite parseBaseRelocBlocks_loop_blocks by assumption.
  rewrite parseBaseRelocBlocks_loop_end by assumption. reflexivity.
Qed.

(** X24.  A last block whose payload is cut short by the end of the table
    is not refused: when the bytes left after its header are fewer than it
    declares and even in number, the table parses successfully and the
    block keeps its declared size but has only the entries that are there;
    when they are odd in number the parse fails with unexpected EOF. *)
Theorem parseBaseRelocBlocks_cut_short (file : File.t)
  (dataDir : DataDirectory.t) (oh : OptHeader.t) (buf : list byte)
  (blocks : list (list byte * list byte)) (hdr tail : list byte) :
  File.OptHdr file = Some oh ->
  ReadData file (wrap 64 (OptHeader.ImageBase oh + DataDirectory.RelAddr dataDir))
           (DataDirectory.Size dataDir) = Ok buf ->
  buf = List.concat (map blockBytes blocks) ++ hdr ++ tail ->
  Forall wellFormedBlock blocks ->
  List.length hdr = 8%nat ->
  Z.of_nat (List.length tail)
  < RawBaseRelocBlock.BlockSize (RawBaseRelocBlock.decode hdr) - 8 ->
  parseBaseRelocBlocks file dataDir =
  if Nat.even (List.length tail)
  then Ok (map blockOf blocks ++
           [ {| BaseRelocBlock.PageRelAddr :=
                  RawBaseRelocBlock.PageRelAddr (RawBaseRelocBlock.decode hdr);
                BaseRelocBlock.BlockSize :=
                  RawBaseRelocBlock.BlockSize (RawBaseRelocBlock.decode hdr);
                BaseRelocBlock.Entries := goEntries tail |} ])
  else Err ErrUnexpectedEOF.
Proof.
  intros Hoh Hr -> Hf Hl Hcut. unfold parseBaseRelocBlocks, derefOptHdr.
  rewrite Hoh. cbn [bind]. rewrite Hr. cbn [bind].
  rewrite parseBaseRelocBlocks_loop_blocks by assumption.
  rewrite parseBaseRelocBlocks_loop_step, parseBaseRelocBlock_header
    by assumption.
  cbv zeta. rewrite parseBaseRelocBlock_loop_underrun by lia.
  destruct (Nat.even (List.length tail)); cbn [bind lr_R app isEOF].
  - rewrite parseBaseRelocBlocks_loop_end by (cbn; lia). reflexivity.
  - reflexivity.
Qed.

End RelocTable.

Lemma parseBaseRelocBlocks_blocks_witness :
  parseBaseRelocBlocks
    (sampleFileOf (sampleBlockHeader 12 ++ [x10; x30; x20; x30] ++
                   sampleBlockHeader 10 ++ [x11; x30]))
    (DataDirectory.mk 0x1000 22)
  = Ok (map blockOf [(sampleBlockHeader 12, [x10; x30; x20; x30]);
                     (sampleBlockHeader 10, [x11; x30])]).
Proof.
  apply (parseBaseRelocBlocks_blocks _ _ sampleOptHdr
           (sampleBlockHeader 12 ++ [x10; x30; x20; x30] ++
            sampleBlockHeader 10 ++ [x11; x30])
           [(sampleBlockHeader 12, [x10; x30; x20; x30]);
            (sampleBlockHeader 10, [x11; x30])] []).
  - reflexivity.
  - vm_compute. reflexivity.
  - vm_compute. reflexivity.
  - repeat constructor.
  - cbn. lia.
Defined.

Lemma parseBaseRelocBlocks_cut_short_witness :
  parseBaseRelocBlocks
    (sampleFileOf (sampleBlockHeader 12 ++ [x10; x30]))
    (DataDirectory.mk 0x1000 10)
  = Ok [ {| BaseRelocBlock.PageRelAddr := 0x1000;
            BaseRelocBlock.BlockSize := 12;
            BaseRelocBlock.Entries := [0x3010] |} ].
Proof.
  rewrite (parseBaseRelocBlocks_cut_short _ _ sampleOptHdr
             (sampleBlockHeader 12 ++ [x10; x30]) []
             (sampleBlockHeader 12) [x10; x30]).
  - vm_compute. reflexivity.
  - reflexivity.
  - vm_compute. reflexivity.
  - reflexivity.
  - constructor.
  - reflexivity.
  - vm_compute. reflexivity.
Defined.
